(** * ProxyBroker providers: a shallow embedding of [proxybroker/providers.py]

    The development follows the layout of the Python module:
    - Python values, exceptions and the string helpers the providers call;
    - a backtracking matcher for the [re] patterns written in the module;
    - the [Provider] object, its [proxies] property and the fetch pipeline
      ([_get], [get], [_find_on_page], [_find_on_pages]);
    - the discovery strategies of [Proxylist_me] and [Gatherproxy_com];
    - the port decoders of [Xseo_in] and [Spys_ru];
    - the per-provider semaphore as a transition system.

    Text is modelled as [string], a sequence of 8-bit characters: the
    character classes below are those of Python's [re] on [str] restricted
    to the code points 0..255. *)

From Stdlib Require Import ZArith Ascii String List Lia Bool.
From stdpp Require Import gmap strings list pretty.
Import ListNotations.

Local Open Scope string_scope.

(** ** Exceptions and results *)

(** The classes of [Exception] that the module names or that its
    expressions raise.  Subclasses are identified with the ancestor that an
    [except] clause of the module lists. *)
Inductive Exn : Type :=
| UnicodeDecodeError
| BadStatusError (msg : string)
| TimeoutError
| ClientOSError
| ClientResponseError
| ServerDisconnectedError
| ValueError (msg : string)
| KeyError (key : string)
| IndexError (msg : string)
| TypeError (msg : string)
| AttributeError (name : string)
| UnboundLocalError (name : string)
| OtherError (cls : string).

Inductive Res (A : Type) : Type :=
| Ok (a : A)
| Raise (e : Exn).

Arguments Ok {A} a.
Arguments Raise {A} e.

Definition res_bind {A B} (x : Res A) (f : A -> Res B) : Res B :=
  match x with
  | Ok a => f a
  | Raise e => Raise e
  end.

Fixpoint res_mapM {A B} (f : A -> Res B) (l : list A) : Res (list B) :=
  match l with
  | [] => Ok []
  | a :: l' =>
      res_bind (f a) (fun b => res_bind (res_mapM f l') (fun bs => Ok (b :: bs)))
  end.

(** ** Characters and strings *)

Definition code (c : ascii) : N := N_of_ascii c.

Definition in_range (lo hi c : ascii) : bool :=
  ((code lo <=? code c) && (code c <=? code hi))%N.

(** [\d] *)
Definition is_digit (c : ascii) : bool := in_range "0" "9" c.

Definition is_lower (c : ascii) : bool := in_range "a" "z" c.

Definition is_upper (c : ascii) : bool := in_range "A" "Z" c.

(** [\w]: alphanumeric characters and the underscore. *)
Definition is_word (c : ascii) : bool :=
  is_digit c || is_lower c || is_upper c || Ascii.eqb c "_"
  || (let n := code c in
      (n =? 170) || (n =? 178) || (n =? 179) || (n =? 181) || (n =? 185)
      || (n =? 186) || ((188 <=? n) && (n <=? 190))
      || ((192 <=? n) && (n <=? 214)) || ((216 <=? n) && (n <=? 246))
      || (248 <=? n))%N.

(** [\s], which is also what [str.strip()] skips. *)
Definition is_space (c : ascii) : bool :=
  (let n := code c in
   ((9 <=? n) && (n <=? 13)) || ((28 <=? n) && (n <=? 32))
   || (n =? 133) || (n =? 160))%N.

(** The blanks [int()] skips around a literal: the ASCII blanks (tab to
    carriage return, and the space) and, above the ASCII range, the
    characters that are spaces; the separators 28 to 31 are not among
    them. *)
Definition is_int_space (c : ascii) : bool :=
  (let n := code c in
   ((9 <=? n) && (n <=? 13)) || (n =? 32) || (n =? 133) || (n =? 160))%N.

Definition one_of (chars : string) (c : ascii) : bool :=
  existsb (Ascii.eqb c) (list_ascii_of_string chars).

(** Truth value of a [str]: the empty string is falsy. *)
Definition truthy (s : string) : bool :=
  match s with
  | EmptyString => false
  | String _ _ => true
  end.

(** [s.split(sep)] for a one-character separator. *)
Fixpoint split (sep : ascii) (s : string) : list string :=
  match s with
  | EmptyString => [""]
  | String c s' =>
      if Ascii.eqb c sep then "" :: split sep s'
      else match split sep s' with
           | h :: t => String c h :: t
           | [] => [String c ""]
           end
  end.

Fixpoint lstrip (p : ascii -> bool) (s : string) : string :=
  match s with
  | EmptyString => ""
  | String c s' => if p c then lstrip p s' else s
  end.

Fixpoint rstrip (p : ascii -> bool) (s : string) : string :=
  match s with
  | EmptyString => ""
  | String c s' =>
      match rstrip p s' with
      | EmptyString => if p c then "" else String c ""
      | t => String c t
      end
  end.

(** [s.strip(chars)] *)
Definition strip (chars : string) (s : string) : string :=
  rstrip (one_of chars) (lstrip (one_of chars) s).

(** [''.join(parts)] *)
Definition join (parts : list string) : string :=
  fold_right String.append "" parts.

(** Every character of [s] satisfies [p]. *)
Fixpoint all_chars (p : ascii -> bool) (s : string) : bool :=
  match s with
  | EmptyString => true
  | String c s' => p c && all_chars p s'
  end.

(** [sub in s] on strings, for a one-character [sub]. *)
Definition contains (c : ascii) (s : string) : bool :=
  negb (all_chars (fun x => negb (Ascii.eqb x c)) s).

(** [str(n)] and ['%d' % n] for an [int]. *)
Definition str (n : Z) : string := pretty n.

(** The digits of [int(s)]: decimal digits, single underscores allowed
    between two digits. *)
Fixpoint int_digits (acc : Z) (after_digit : bool) (s : string) : option Z :=
  match s with
  | EmptyString => if after_digit then Some acc else None
  | String c s' =>
      if is_digit c then
        int_digits (10 * acc + (Z.of_N (code c) - 48)) true s'
      else if Ascii.eqb c "_" && after_digit then
        int_digits acc false s'
      else None
  end.

(** The number of digits [int()] counts before it converts: those of the
    leading run of digits and underscores. *)
Fixpoint leading_digits (s : string) : Z :=
  match s with
  | EmptyString => 0
  | String c s' =>
      if is_digit c then 1 + leading_digits s'
      else if Ascii.eqb c "_" then leading_digits s'
      else 0
  end.

(** [sys.int_info.default_max_str_digits]: the longest decimal literal
    [int()] converts, in CPython 3.11 and in the later releases of the
    lines before it. *)
Definition max_str_digits : Z := 4300.

(** What [int()] raises above the limit; the message is kept up to the
    count of the digits. *)
Definition int_limit_error : Exn :=
  ValueError "Exceeds the limit (4300 digits) for integer string conversion".

(** [int(s)] in base ten: surrounding blanks and a sign are accepted; a
    literal of more than [max_str_digits] digits raises [ValueError], and
    so does anything that is not a literal. *)
Definition int (s : string) : Res Z :=
  let t := rstrip is_int_space (lstrip is_int_space s) in
  let body :=
    match t with
    | String "-" t' => t'
    | String "+" t' => t'
    | _ => t
    end in
  let parsed :=
    match t with
    | String "-" t' => option_map Z.opp (int_digits 0 false t')
    | String "+" t' => int_digits 0 false t'
    | _ => int_digits 0 false t
    end in
  if (max_str_digits <? leading_digits body)%Z then
    Raise int_limit_error
  else
    match parsed with
    | Some n => Ok n
    | None => Raise (ValueError ("invalid literal for int() with base 10: " ++ s))
    end.

(** [max(l)] on a list of [int]: [ValueError] on the empty list. *)
Definition max (l : list Z) : Res Z :=
  match l with
  | [] => Raise (ValueError "max() arg is an empty sequence")
  | x :: l' => Ok (fold_left Z.max l' x)
  end.

(** [range(a, b)] *)
Definition range (a b : Z) : list Z :=
  map (fun i => a + Z.of_nat i)%Z (seq 0 (Z.to_nat (b - a))).

(** ** Regular expressions

    The patterns of the module are written as terms of [regex]; [exec] is a
    backtracking matcher with the preference order of Python's [re]:
    alternatives left to right, greedy repetitions longest first, lazy
    repetitions shortest first. *)
Module re.

Inductive regex : Type :=
| Eps
| Cls (p : ascii -> bool)
| Seq (r1 r2 : regex)
| Alt (r1 r2 : regex)
| Star (greedy : bool) (r : regex)
| Group (i : nat) (r : regex)
| WordB
| Look (positive : bool) (r : regex).

(** A position in the subject: the character before it (for [\b]), the
    text after it, and the groups captured so far, most recent first. *)
Record mstate : Type := MState {
  prev : option ascii;
  rest : list ascii;
  caps : list (nat * list ascii)
}.

Definition at_boundary (st : mstate) : bool :=
  let before := match prev st with Some c => is_word c | None => false end in
  let after := match rest st with c :: _ => is_word c | [] => false end in
  xorb before after.

Fixpoint exec (r : regex) (st : mstate) (k : mstate -> option mstate)
  : option mstate :=
  match r with
  | Eps => k st
  | Cls p =>
      match rest st with
      | c :: s' => if p c then k (MState (Some c) s' (caps st)) else None
      | [] => None
      end
  | Seq r1 r2 => exec r1 st (fun st1 => exec r2 st1 k)
  | Alt r1 r2 =>
      match exec r1 st k with
      | Some out => Some out
      | None => exec r2 st k
      end
  | Star greedy r1 =>
      (fix loop (fuel : nat) (st0 : mstate) {struct fuel} : option mstate :=
         match fuel with
         | O => k st0
         | S fuel' =>
             let again (_ : unit) :=
               exec r1 st0
                 (fun st1 =>
                    if (length (rest st1) <? length (rest st0))%nat
                    then loop fuel' st1 else None) in
             if greedy then
               match again tt with
               | Some out => Some out
               | None => k st0
               end
             else
               match k st0 with
               | Some out => Some out
               | None => again tt
               end
         end) (length (rest st)) st
  | Group i r1 =>
      exec r1 st
        (fun st1 =>
           let n := (length (rest st) - length (rest st1))%nat in
           k (MState (prev st1) (rest st1)
                ((i, firstn n (rest st)) :: caps st1)))
  | WordB => if at_boundary st then k st else None
  | Look positive r1 =>
      match exec r1 st Some with
      | Some st1 =>
          if positive then k (MState (prev st) (rest st) (caps st1)) else None
      | None => if positive then None else k st
      end
  end.

(** Derived forms. *)
Definition Plus (greedy : bool) (r : regex) : regex := Seq r (Star greedy r).

Definition Opt (r : regex) : regex := Alt r Eps.

Definition Chr (c : ascii) : regex := Cls (Ascii.eqb c).

Fixpoint Lit_list (s : list ascii) : regex :=
  match s with
  | [] => Eps
  | [c] => Chr c
  | c :: s' => Seq (Chr c) (Lit_list s')
  end.

Definition Lit (s : string) : regex := Lit_list (list_ascii_of_string s).

(** [r{n}] *)
Fixpoint Rep (n : nat) (r : regex) : regex :=
  match n with
  | O => Eps
  | S O => r
  | S n' => Seq r (Rep n' r)
  end.

(** [r{0,n}] *)
Fixpoint UpTo (n : nat) (r : regex) : regex :=
  match n with
  | O => Eps
  | S n' => Opt (Seq r (UpTo n' r))
  end.

(** [r{n,m}] and [r{n,}] *)
Definition Between (n m : nat) (r : regex) : regex :=
  Seq (Rep n r) (UpTo (m - n) r).

Definition AtLeast (n : nat) (r : regex) : regex :=
  Seq (Rep n r) (Star true r).

Fixpoint Seqs (rs : list regex) : regex :=
  match rs with
  | [] => Eps
  | [r] => r
  | r :: rs' => Seq r (Seqs rs')
  end.

Definition Any : regex := Cls (fun _ => true).

Definition NoneOf (chars : string) : regex :=
  Cls (fun c => negb (one_of chars c)).

Definition OneOf (chars : string) : regex := Cls (one_of chars).

(** Number of capturing groups of a pattern. *)
Fixpoint ngroups (r : regex) : nat :=
  match r with
  | Eps | Cls _ | WordB => 0
  | Seq r1 r2 | Alt r1 r2 => Nat.max (ngroups r1) (ngroups r2)
  | Star _ r1 | Look _ r1 => ngroups r1
  | Group i r1 => Nat.max i (ngroups r1)
  end.

(** A match object: the matched text and its captures. *)
Record matchobj : Type := MatchObj {
  group0 : string;
  captured : list (nat * list ascii)
}.

Fixpoint assoc (i : nat) (l : list (nat * list ascii)) : option (list ascii) :=
  match l with
  | [] => None
  | (j, v) :: l' => if (i =? j)%nat then Some v else assoc i l'
  end.

(** [m.group(i)], with the empty string for a group that did not take part
    in the match, as [findall] reports it. *)
Definition group (m : matchobj) (i : nat) : string :=
  match assoc i (captured m) with
  | Some v => string_of_list_ascii v
  | None => ""
  end.

(** [m.groups()] for a pattern with [n] groups. *)
Definition groups (n : nat) (m : matchobj) : list string :=
  map (fun i => group m (S i)) (seq 0 n).

(** [pattern.match] at one position of the subject. *)
Definition match_at (r : regex) (before : option ascii) (s : list ascii)
  : option (nat * matchobj) :=
  match exec r (MState before s []) Some with
  | Some st =>
      let n := (length s - length (rest st))%nat in
      Some (n, MatchObj (string_of_list_ascii (firstn n s)) (caps st))
  | None => None
  end.

(** The scan shared by [finditer], [findall] and [sub]: the text between
    matches is kept as [inl], every match as [inr].  After a match of [n]
    characters the next [n - 1] positions are skipped. *)
Fixpoint scan (r : regex) (before : option ascii) (s : list ascii)
  (skip : nat) : list (ascii + matchobj) :=
  match skip with
  | S skip' =>
      match s with
      | c :: s' => scan r (Some c) s' skip'
      | [] => []
      end
  | O =>
      match match_at r before s with
      | Some (n, m) =>
          inr m ::
          match s with
          | c :: s' =>
              match n with
              | O => inl c :: scan r (Some c) s' 0
              | S n' => scan r (Some c) s' n'
              end
          | [] => []
          end
      | None =>
          match s with
          | c :: s' => inl c :: scan r (Some c) s' 0
          | [] => []
          end
      end
  end.

Definition finditer (r : regex) (s : string) : list matchobj :=
  omap (fun x => match x with inr m => Some m | inl _ => None end)
    (scan r None (list_ascii_of_string s) 0).

(** [re.findall] for a pattern with one group: the list of that group. *)
Definition findall1 (r : regex) (s : string) : list string :=
  map (fun m => group m 1) (finditer r s).

(** [re.findall] for a pattern with two groups: the list of pairs. *)
Definition findall2 (r : regex) (s : string) : list (string * string) :=
  map (fun m => (group m 1, group m 2)) (finditer r s).

(** [re.sub(pattern, repl, s)] with a function [repl], which may raise. *)
Definition sub (r : regex) (repl : matchobj -> Res string) (s : string)
  : Res string :=
  res_bind
    (res_mapM
       (fun x => match x with
                 | inl c => Ok (String c "")
                 | inr m => repl m
                 end)
       (scan r None (list_ascii_of_string s) 0))
    (fun parts => Ok (join parts)).

End re.

(** ** The provider object *)

(** [Provider.proto]: the default is the empty tuple, [PROVIDERS] passes
    tuples such as [('SOCKS4', 'SOCKS5')] and, where the parentheses hold a
    single string, a plain [str]. *)
Inductive Proto : Type :=
| ProtoTuple (tags : list string)
| ProtoStr (tag : string).

#[global] Instance Proto_eq_dec : EqDecision Proto.
Proof. solve_decision. Defined.

#[global] Instance Proto_countable : Countable Proto.
Proof.
  refine (inj_countable'
            (fun p => match p with
                      | ProtoTuple l => inl l
                      | ProtoStr s => inr s
                      end)
            (fun x => match x with
                      | inl l => ProtoTuple l
                      | inr s => ProtoStr s
                      end) _).
  intros []; reflexivity.
Defined.

(** An element of [Provider._proxies]: the tuple [(host, port, proto)]. *)
Abbreviation Endpoint := (string * string * Proto)%type.

Record Provider : Type := MkProvider {
  domain : option string;   (* [None]: the attribute is not set *)
  url : option string;
  proto : Proto;
  _max_tries : Z;
  _timeout : Z;
  max_conn : Z;             (* initial value of [_sem_provider] *)
  _proxies : gset Endpoint
}.

Definition set__proxies (s : gset Endpoint) (p : Provider) : Provider :=
  MkProvider (domain p) (url p) (proto p) (_max_tries p) (_timeout p)
    (max_conn p) s.

(** [urlparse(url)] first strips the leading characters up to the space
    (the C0 controls and the blank) and removes every tab, carriage
    return and line feed. *)
Definition is_c0_or_space (c : ascii) : bool := (code c <=? 32)%N.

Definition is_unsafe_url_char (c : ascii) : bool :=
  (let n := code c in (n =? 9) || (n =? 10) || (n =? 13))%N.

Fixpoint remove_chars (p : ascii -> bool) (s : string) : string :=
  match s with
  | EmptyString => ""
  | String c s' =>
      if p c then remove_chars p s' else String c (remove_chars p s')
  end.

(** The scheme, when the text before the first colon is one: a letter
    followed by letters, digits and [+-.]. *)
Fixpoint drop_scheme (whole s : string) (first : bool) : string :=
  match s with
  | EmptyString => whole
  | String c s' =>
      if Ascii.eqb c ":" then (if first then whole else s')
      else if is_lower c || is_upper c
              || (negb first && (is_digit c || one_of "+-." c))
      then drop_scheme whole s' false
      else whole
  end.

Fixpoint until_delim (s : string) : string :=
  match s with
  | EmptyString => ""
  | String c s' => if one_of "/?#" c then "" else String c (until_delim s')
  end.

(** [urlparse(url).netloc]: what follows [scheme://] up to the first of
    [/], [?] and [#]; empty when the URL has no [//] part.  A network
    location with a bracket of one kind only raises [ValueError]. *)
Definition urlparse_netloc (u : string) : Res string :=
  let u1 := remove_chars is_unsafe_url_char (lstrip is_c0_or_space u) in
  let n := match drop_scheme u1 u1 true with
           | String "/" (String "/" s') => until_delim s'
           | _ => ""
           end in
  if xorb (contains "[" n) (contains "]" n)
  then Raise (ValueError "Invalid IPv6 URL")
  else Ok n.

(** The network location of a URL that [urlparse] accepts. *)
Definition netloc (u : string) : string :=
  match urlparse_netloc u with
  | Ok n => n
  | Raise _ => ""
  end.

(** [Provider.__init__]; [cls_domain] is the class attribute [domain] of a
    subclass, when the subclass defines one.  This is the provider that
    the constructor returns; it returns one unless [urlparse] raises on
    the URL ([urlparse_netloc]). *)
Definition Provider_init (cls_domain : option string) (url : option string)
  (proto : Proto) (max_conn max_tries timeout : Z) : Provider :=
  {| domain := match url with
               | Some u => if truthy u then Some (netloc u) else cls_domain
               | None => cls_domain
               end;
     url := url;
     proto := proto;
     _max_tries := max_tries;
     _timeout := timeout;
     max_conn := max_conn;
     _proxies := ∅ |}.

(** The defaults of [__init__]: [proto=(), max_conn=4, max_tries=3,
    timeout=20]. *)
Definition Provider_default (cls_domain : option string) (url : option string)
  : Provider :=
  Provider_init cls_domain url (ProtoTuple []) 4 3 20.

(** The getter of the [proxies] property. *)
Definition proxies (self : Provider) : gset Endpoint := _proxies self.

(** The setter of the [proxies] property:
    [new = [(host, port, self.proto) for host, port in new if port]],
    then [self._proxies.update(new)]. *)
Definition proxies_setter (self : Provider) (new : list (string * string))
  : Provider :=
  let new' :=
    flat_map (fun hp => if truthy (snd hp)
                        then [(fst hp, snd hp, proto self)] else [])
             new in
  set__proxies (_proxies self ∪ list_to_set new') self.

(** The [(host, port)] key of a record. *)
Definition key (r : Endpoint) : string * string := (fst (fst r), snd (fst r)).

(** How many records of a set carry a given key. *)
Definition count_key (k : string * string) (s : gset Endpoint) : nat :=
  length (filter (fun r => key r = k) (elements s)).

(** A provider run: the set starts empty in [__init__] and every page that
    yields pairs assigns them to [self.proxies]. *)
Definition merge_all (self : Provider) (batches : list (list (string * string)))
  : Provider :=
  fold_left proxies_setter batches self.

(** The invariant of a run: every record carries the declared protocols
    and a non-empty port. *)
Definition clean (p : Provider) : Prop :=
  forall r : Endpoint, r ∈ proxies p -> snd r = proto p /\ snd (fst r) <> "".

(** ** Requests, responses and the log *)

Inductive PyVal : Type :=
| VInt (n : Z)
| VStr (s : string)
| VNone.

Abbreviation pydict := (list (string * PyVal)).

(** The arguments of [self._session.request(method, url, data=..,
    headers=.., timeout=..)]. *)
Record Request : Type := MkRequest {
  req_method : string;
  req_url : string;
  req_data : option pydict;
  req_headers : option pydict;
  req_timeout : Z
}.

Record Response : Type := MkResponse {
  status : Z;
  text : Res string;        (* the outcome of [await resp.text()] *)
  resp_headers : pydict;
  resp_cookies : pydict
}.

(** What one request does: it raises while it is sent or awaited, or a
    response arrives. *)
Inductive Outcome : Type :=
| Failed (e : Exn)
| Responded (resp : Response).

Inductive Level : Type := DEBUG | ERROR.

Inductive LogArg : Type :=
| AStr (s : string)
| AInt (n : Z)
| AExn (e : Exn)
| ADict (d : pydict)
| AProxies (s : gset Endpoint).

(** A call [log.debug(fmt % args)] or [log.error(fmt % args)]: the level,
    the format string of the source and the values it is applied to. *)
Record LogRecord : Type := MkLog {
  level : Level;
  fmt : string;
  args : list LogArg
}.

(** ** The pipeline monad

    The state threaded through a provider run: the provider object, the
    state that the extraction strategy keeps between pages
    ([charEqNum]), the state of the network, the requests sent so far and
    the log. *)
Record World (Net St : Type) : Type := MkWorld {
  self : Provider;
  strategy : St;
  net : Net;
  sent : list Request;
  log : list LogRecord
}.

Arguments MkWorld {Net St}.
Arguments self {Net St}.
Arguments strategy {Net St}.
Arguments net {Net St}.
Arguments sent {Net St}.
Arguments log {Net St}.

Definition M (Net St A : Type) : Type := World Net St -> Res A * World Net St.

Definition ret {Net St A} (a : A) : M Net St A := fun w => (Ok a, w).

Definition raise {Net St A} (e : Exn) : M Net St A := fun w => (Raise e, w).

Definition bind {Net St A B} (m : M Net St A) (f : A -> M Net St B) : M Net St B :=
  fun w =>
    match m w with
    | (Ok a, w') => f a w'
    | (Raise e, w') => (Raise e, w')
    end.

Declare Scope pipe_scope.
Delimit Scope pipe_scope with pipe.
Notation "x <- m ;; k" := (bind m (fun x => k))
  (at level 100, m at next level, right associativity) : pipe_scope.
Notation "m ;;; k" := (bind m (fun _ => k))
  (at level 100, right associativity) : pipe_scope.

Definition gets {Net St A} (f : World Net St -> A) : M Net St A :=
  fun w => (Ok (f w), w).

Definition modify {Net St} (f : World Net St -> World Net St) : M Net St unit :=
  fun w => (Ok tt, f w).

Definition lift {Net St A} (r : Res A) : M Net St A :=
  fun w => (r, w).

Definition with_self {Net St} (f : Provider -> Provider) (w : World Net St)
  : World Net St :=
  MkWorld (f (self w)) (strategy w) (net w) (sent w) (log w).

Definition with_strategy {Net St} (s : St) (w : World Net St) : World Net St :=
  MkWorld (self w) s (net w) (sent w) (log w).

Definition with_request {Net St} (n : Net) (r : Request) (w : World Net St)
  : World Net St :=
  MkWorld (self w) (strategy w) n (sent w ++ [r]) (log w).

Definition with_log {Net St} (l : LogRecord) (w : World Net St) : World Net St :=
  MkWorld (self w) (strategy w) (net w) (sent w) (log w ++ [l]).

Definition log_debug {Net St} (fmt : string) (args : list LogArg)
  : M Net St unit :=
  modify (with_log (MkLog DEBUG fmt args)).

Definition log_error {Net St} (fmt : string) (args : list LogArg)
  : M Net St unit :=
  modify (with_log (MkLog ERROR fmt args)).

(** [for x in l: body(x)] *)
Fixpoint for_each {Net St A} (l : list A) (body : A -> M Net St unit)
  : M Net St unit :=
  match l with
  | [] => ret tt
  | a :: l' => bind (body a) (fun _ => for_each l' body)
  end.

(** [keeps I m]: running [m] preserves the property [I] of the provider. *)
Definition keeps {Net St} (I : Provider -> Prop) {A} (m : M Net St A) : Prop :=
  forall w, I (self w) -> I (self (snd (m w))).

(** An element of the list given to [_find_on_pages]: a URL, or a [dict]
    of keyword arguments for [_find_on_page]. *)
Inductive UrlSpec : Type :=
| UStr (u : string)
| UDict (u : string) (data : option pydict) (headers : option pydict)
        (method : option string).

#[global] Instance PyVal_eq_dec : EqDecision PyVal.
Proof. solve_decision. Defined.

#[global] Instance UrlSpec_eq_dec : EqDecision UrlSpec.
Proof. solve_decision. Defined.

Definition is_dict (u : UrlSpec) : bool :=
  match u with
  | UStr _ => false
  | UDict _ _ _ _ => true
  end.

(** ** The shared pipeline of [Provider]

    [request] is the network: what [self._session.request] and
    [resp.text()] do for a request in a given state of the outside world.
    [find_proxies] is the extraction strategy of the class, which may keep
    state between pages and may raise.

    Coroutines are run to completion one after the other; the tasks that
    [asyncio.gather] runs are taken in list order, which is one of the
    schedules the event loop may choose. *)
Section Pipeline.

Context {Net St : Type}.
Variable request : Request -> Net -> Outcome * Net.
Variable find_proxies : string -> St -> Res (list (string * string)) * St.

Local Open Scope pipe_scope.

(** The exception classes listed by the [except] clause of [_get]. *)
Definition caught (e : Exn) : bool :=
  match e with
  | UnicodeDecodeError | BadStatusError _ | TimeoutError | ClientOSError
  | ClientResponseError | ServerDisconnectedError => true
  | _ => false
  end.

(** The [except (...) as e] clause of [_get]. *)
Definition _get_except (url : string) (e : Exn) : M Net St string :=
  if caught e then
    log_debug "%s is failed. Error: %r;" [AStr url; AExn e] ;;; ret ""
  else raise e.

Definition _get (url : string) (data headers : option pydict)
  (method : string) : M Net St string :=
  timeout <- gets (fun w => _timeout (self w)) ;;
  let req := MkRequest method url data headers timeout in
  out <- (fun w => let (o, n) := request req (net w) in
                   (Ok o, with_request n req w)) ;;
  match out with
  | Failed e => _get_except url e
  | Responded resp =>
      match text resp with
      | Raise e => _get_except url e
      | Ok page =>
          if (status resp =? 200)%Z then ret page
          else
            log_debug "url: %s\nheaders: %s\ncookies: %s\npage:\n%s"
              [AStr url; ADict (resp_headers resp); ADict (resp_cookies resp);
               AStr page] ;;;
            _get_except url (BadStatusError ("Status: " ++ str (status resp)))
      end
  end.

(** The loop of [get]: [tries] iterations are left, [page] is the variable
    [page], unbound before the first iteration. *)
Fixpoint get_loop (tries : nat) (page : option string) (url : string)
  (data headers : option pydict) (method : string) : M Net St string :=
  match tries with
  | O =>
      match page with
      | Some p => ret p
      | None => raise (UnboundLocalError "page")
      end
  | S tries' =>
      p <- _get url data headers method ;;
      if truthy p then ret p
      else get_loop tries' (Some p) url data headers method
  end.

Definition get (url : string) (data headers : option pydict)
  (method : string) : M Net St string :=
  max_tries <- gets (fun w => _max_tries (self w)) ;;
  get_loop (Z.to_nat max_tries) None url data headers method.

(** [self.domain] *)
Definition get_domain : M Net St string :=
  fun w =>
    match domain (self w) with
    | Some d => (Ok d, w)
    | None => (Raise (AttributeError "domain"), w)
    end.

(** [len(self.proxies)] *)
Definition len_proxies : M Net St Z :=
  gets (fun w => Z.of_nat (size (proxies (self w)))).

(** The [try: received = self.find_proxies(page) except Exception as e:]
    block of [_find_on_page]. *)
Definition try_find_proxies (page : string) : M Net St (list (string * string)) :=
  r <- (fun w => let (r, s) := find_proxies page (strategy w) in
                 (Ok r, with_strategy s w)) ;;
  match r with
  | Ok received => ret received
  | Raise e =>
      d <- get_domain ;;
      log_error "Error when executing find_proxies.Domain: %s; Error: %r"
        [AStr d; AExn e] ;;;
      ret []
  end.

Definition _find_on_page (url : string) (data headers : option pydict)
  (method : string) : M Net St unit :=
  page <- get url data headers method ;;
  if negb (truthy page) then ret tt
  else
    oldcount <- len_proxies ;;
    received <- try_find_proxies page ;;
    match received with
    | [] => log_error "Got 0 proxies from {url}" [AStr url]
    | _ :: _ =>
        modify (with_self (fun p => proxies_setter p received)) ;;;
        newcount <- len_proxies ;;
        let added := (newcount - oldcount)%Z in
        log_debug "%d(%d) proxies added(received) from %s"
          [AInt added; AInt (Z.of_nat (length received)); AStr url]
    end.

(** One task of [_find_on_pages]: [_find_on_page] with the entries of a
    [dict] as keyword arguments, [_find_on_page(url)] otherwise. *)
Definition page_task (u : UrlSpec) : M Net St unit :=
  match u with
  | UStr u => _find_on_page u None None "GET"
  | UDict u data headers method =>
      _find_on_page u data headers (default "GET" method)
  end.

Definition _find_on_pages (urls : list UrlSpec) : M Net St unit :=
  match urls with
  | [] => ret tt
  | u0 :: _ =>
      urls' <- (if is_dict u0 then ret urls
                else if existsb is_dict urls
                     then raise (TypeError "unhashable type: 'dict'")
                     else ret (remove_dups urls)) ;;
      for_each urls' page_task
  end.

(** [Provider._pipe] *)
Definition _pipe : M Net St unit :=
  u <- gets (fun w => url (self w)) ;;
  match u with
  | Some u => _find_on_page u None None "GET"
  | None => raise (TypeError "Constructor parameter should be str")
  end.

(** [get_proxies], for the [_pipe] of the class. *)
Definition get_proxies (pipe : M Net St unit) : M Net St (gset Endpoint) :=
  d <- get_domain ;;
  log_debug "Try to get proxies from %s" [AStr d] ;;;
  pipe ;;;
  n <- len_proxies ;;
  d' <- get_domain ;;
  found <- gets (fun w => proxies (self w)) ;;
  log_debug "%d proxies received from %s: %s" [AInt n; AStr d'; AProxies found] ;;;
  gets (fun w => proxies (self w)).

(** The pages that the first [n] consecutive calls of [_get] return. *)
Fixpoint attempts (n : nat) (url : string) (data headers : option pydict)
  (method : string) (w : World Net St) : list (Res string) :=
  match n with
  | O => []
  | S n' =>
      let (r, w') := _get url data headers method w in
      r :: attempts n' url data headers method w'
  end.

(** The world after the first [n] consecutive calls of [_get]. *)
Fixpoint after_attempts (n : nat) (url : string) (data headers : option pydict)
  (method : string) (w : World Net St) : World Net St :=
  match n with
  | O => w
  | S n' =>
      after_attempts n' url data headers method
        (snd (_get url data headers method w))
  end.

(** The records that [_get] logs for the outcome of its request. *)
Definition _get_log (url : string) (o : Outcome) : list LogRecord :=
  let failed (e : Exn) :=
    if caught e
    then [MkLog DEBUG "%s is failed. Error: %r;" [AStr url; AExn e]]
    else [] in
  match o with
  | Failed e => failed e
  | Responded resp =>
      match text resp with
      | Raise e => failed e
      | Ok page =>
          if (status resp =? 200)%Z then []
          else
            MkLog DEBUG "url: %s\nheaders: %s\ncookies: %s\npage:\n%s"
              [AStr url; ADict (resp_headers resp); ADict (resp_cookies resp);
               AStr page]
            :: failed (BadStatusError ("Status: " ++ str (status resp)))
      end
  end.

(** The failures that the claim on [_get] lists, with the exception each
    one raises inside the [try] block: a status other than 200, a timeout,
    an OS-level connection error, a server disconnect, and a body that
    cannot be decoded; the last four may strike while the request is sent
    or while the body is read. *)
Definition listed (e : Exn) : bool :=
  match e with
  | TimeoutError | ClientOSError | ServerDisconnectedError
  | UnicodeDecodeError => true
  | _ => false
  end.

Inductive absorbed : Outcome -> Exn -> Prop :=
| absorbed_status resp page :
    text resp = Ok page -> status resp <> 200%Z ->
    absorbed (Responded resp)
      (BadStatusError ("Status: " ++ str (status resp)))
| absorbed_sending e :
    listed e = true -> absorbed (Failed e) e
| absorbed_reading resp e :
    text resp = Raise e -> listed e = true -> absorbed (Responded resp) e.

End Pipeline.

Definition DQ : ascii := "034"%char.

Definition is_quote (c : ascii) : bool := Ascii.eqb c "'" || Ascii.eqb c DQ.

(** [[int(n) for n in re.findall(exp, page)]] *)
Definition ints_found (exp : re.regex) (page : string) : Res (list Z) :=
  res_mapM int (re.findall1 exp page).

Module Proxylist_me.
Section Pipe.

Context {Net St : Type}.
Variable request : Request -> Net -> Outcome * Net.
Variable find_proxies : string -> St -> Res (list (string * string)) * St.

Local Open Scope pipe_scope.
Import re.

(** The pattern [exp], writing Q for the double quote:
    [href\s*=\s*['Q][^'Q]*/?page=(\d+)['Q]] *)
Definition exp : regex :=
  Seqs [Lit "href"; Star true (Cls is_space); Chr "=";
        Star true (Cls is_space); Cls is_quote;
        Star true (Cls (fun c => negb (is_quote c)));
        Opt (Chr "/"); Lit "page="; Group 1 (Plus true (Cls is_digit));
        Cls is_quote].

(** The follow-up URLs derived from the index page. *)
Definition page_urls (page : string) : Res (list UrlSpec) :=
  res_bind (ints_found exp page) (fun ns =>
  res_bind (max ns) (fun lastId =>
  Ok (map (fun n => UStr ("https://proxylist.me/?page=" ++ str n))
        (range 0 lastId)))).

Definition _pipe : M Net St unit :=
  page <- get request "https://proxylist.me/" None None "GET" ;;
  if negb (truthy page) then ret tt
  else
    urls <- lift (page_urls page) ;;
    _find_on_pages request find_proxies urls.

End Pipe.
End Proxylist_me.

Module Gatherproxy_com.
Section Pipe.

Context {Net St : Type}.
Variable request : Request -> Net -> Outcome * Net.
Variable find_proxies : string -> St -> Res (list (string * string)) * St.

Local Open Scope pipe_scope.
Import re.

Definition url : string := "http://www.gatherproxy.com/proxylist/anonymity/".

(** The pattern [expNumPages], writing Q for the double quote:
    [href=Q#(\d+)Q] *)
Definition expNumPages : regex :=
  Seqs [Lit "href="; Chr DQ; Chr "#"; Group 1 (Plus true (Cls is_digit));
        Chr DQ].

Definition method : string := "POST".

Definition form (t : string) (pid : Z) : pydict :=
  [("Type", VStr t); ("PageIdx", VInt pid)].

(** The list comprehension assigned to [urls] for tier [t]. *)
Definition tier_urls (t : string) (lastPageId : Z) : list UrlSpec :=
  map (fun pid => UDict url (Some (form t pid)) None (Some method))
    (range 1 (lastPageId + 1)).

(** The [for t in [...]] loop; [urls] is the variable [urls]. *)
Fixpoint tiers_loop (ts : list string) (urls : list UrlSpec)
  : M Net St (list UrlSpec) :=
  match ts with
  | [] => ret urls
  | t :: ts' =>
      page <- get request url (Some (form t 1)) None method ;;
      if negb (truthy page) then tiers_loop ts' urls
      else
        ns <- lift (ints_found expNumPages page) ;;
        lastPageId <- lift (max ns) ;;
        tiers_loop ts' (tier_urls t lastPageId)
  end.

(** The value of [urls] when [_find_on_pages] is called. *)
Definition discover : M Net St (list UrlSpec) :=
  tiers_loop ["anonymous"; "elite"] [].

Definition _pipe : M Net St unit :=
  urls <- discover ;;
  _find_on_pages request find_proxies urls.

End Pipe.
End Gatherproxy_com.

(** The pipes of the three classes modelled here. *)
Inductive pipe_of {Net St} (request : Request -> Net -> Outcome * Net)
  (find_proxies : string -> St -> Res (list (string * string)) * St)
  : M Net St unit -> Prop :=
| pipe_Provider : pipe_of request find_proxies (_pipe request find_proxies)
| pipe_Proxylist_me :
    pipe_of request find_proxies (Proxylist_me._pipe request find_proxies)
| pipe_Gatherproxy_com :
    pipe_of request find_proxies (Gatherproxy_com._pipe request find_proxies).

(** ** Extraction patterns *)

Module Patterns.
Import re.

(** [(?:25[0-5]|2[0-4]\d|[01]?\d\d?)] *)
Definition octet : regex :=
  Alt (Seq (Lit "25") (Cls (in_range "0" "5")))
    (Alt (Seqs [Chr "2"; Cls (in_range "0" "4"); Cls is_digit])
       (Seqs [Opt (OneOf "01"); Cls is_digit; Opt (Cls is_digit)])).

(** [(?:octet\.){3}octet] *)
Definition ip : regex := Seq (Rep 3 (Seq octet (Chr "."))) octet.

(** [Nntime_com._pattern], compiled with [re.DOTALL]:
    [\b(?P<ip>IP)(?=.*?(?:(?:IP)|(?P<port>\d{2,5})))] *)
Definition Nntime_pattern : regex :=
  Seqs [WordB; Group 1 ip;
        Look true (Seq (Star false Any)
                     (Alt ip (Group 2 (Between 2 5 (Cls is_digit)))))].

(** Modelled from the spec: [IPPortPatternGlobal] of [utils.py], the default
    [Provider._pattern], which is not part of the sources at hand.  The
    spec describes it as scanning for dotted-quad IPv4 addresses
    immediately followed by a delimiter and a 1-5 digit port; the
    delimiter is taken to be one character that is not a digit. *)
Definition IPPortPatternGlobal : regex :=
  Seqs [Group 1 ip; Cls (fun c => negb (is_digit c));
        Group 2 (Between 1 5 (Cls is_digit))].

End Patterns.

(** [Provider.find_proxies] and [Provider._find_proxies] for a class whose
    [_pattern] has the two groups [ip] and [port]. *)
Definition _find_proxies (_pattern : re.regex) (page : string)
  : list (string * string) :=
  re.findall2 _pattern page.

Definition Provider_find_proxies (_pattern : re.regex) (page : string)
  (st : unit) : Res (list (string * string)) * unit :=
  (Ok (_find_proxies _pattern page), st).

(** [d[k]] on a [dict]: [KeyError] when the key is missing. *)
Definition getitem {V} (d : gmap string V) (k : string) : Res V :=
  match d !! k with
  | Some v => Ok v
  | None => Raise (KeyError k)
  end.

(** [a, b = l] *)
Definition unpack2 {A} (l : list A) : Res (A * A) :=
  match l with
  | [a; b] => Ok (a, b)
  | _ :: _ :: _ :: _ => Raise (ValueError "too many values to unpack (expected 2)")
  | _ => Raise (ValueError "not enough values to unpack (expected 2)")
  end.

(** [{k: v for k, v in pairs}]: a later pair replaces an earlier one with
    the same key. *)
Definition dict_of {V} (pairs : list (string * V)) : gmap string V :=
  fold_left (fun d kv => <[fst kv := snd kv]> d) pairs ∅.

Module Xseo_in.
Import re.

Definition is_chars (c : ascii) : bool := is_lower c || Ascii.eqb c "+".

(** The pattern [expPortOnJS], writing Q for the double quote:
    [\(QQ\+(?P<chars>[a-z+]+)\)] *)
Definition expPortOnJS : regex :=
  Seqs [Chr "("; Chr DQ; Chr DQ; Chr "+"; Group 1 (Plus true (Cls is_chars));
        Chr ")"].

(** [\b(?P<char>[a-z])=(?P<num>\d);] *)
Definition expCharNum : regex :=
  Seqs [WordB; Group 1 (Cls is_lower); Chr "="; Group 2 (Cls is_digit);
        Chr ";"].

(** [''.join([self.charEqNum[ch] for ch in chars if ch != '+'])] *)
Definition decode_chars (charEqNum : gmap string string) (chars : string)
  : Res string :=
  res_bind
    (res_mapM (fun ch => getitem charEqNum (String ch ""))
       (List.filter (fun ch => negb (Ascii.eqb ch "+"))
          (list_ascii_of_string chars)))
    (fun digits => Ok (join digits)).

Definition char_js_port_to_num (charEqNum : gmap string string)
  (m : matchobj) : Res string :=
  decode_chars charEqNum (group m 1).

(** The page as rewritten by [re.sub]. *)
Definition rewrite (charEqNum : gmap string string) (page : string)
  : Res string :=
  sub expPortOnJS (char_js_port_to_num charEqNum) page.

(** [find_proxies]; the state is the attribute [self.charEqNum]. *)
Definition find_proxies (_pattern : regex) (page : string)
  (st : gmap string string) : Res (list (string * string)) * gmap string string :=
  let charEqNum := dict_of (findall2 expCharNum page) in
  (res_bind (rewrite charEqNum page)
     (fun page' => Ok (_find_proxies _pattern page')),
   charEqNum).

End Xseo_in.

Module Spys_ru.
Import re.

Definition is_code (c : ascii) : bool :=
  is_lower c || is_digit c || Ascii.eqb c "^" || Ascii.eqb c "+".

Definition is_name (c : ascii) : bool := is_lower c || is_digit c.

Definition is_num (c : ascii) : bool :=
  is_lower c || is_digit c || Ascii.eqb c "^".

(** [(?P<js_port_code>(?:\+\([a-z0-9^+]+\))+)] *)
Definition expPortOnJS : regex :=
  Group 1 (Plus true (Seqs [Chr "+"; Chr "("; Plus true (Cls is_code);
                            Chr ")"])).

(** [[>;]{1}(?P<char>[a-z\d]{4,})=(?P<num>[a-z\d\^]+)] *)
Definition expCharNum : regex :=
  Seqs [OneOf ">;"; Group 1 (AtLeast 4 (Cls is_name)); Chr "=";
        Group 2 (Plus true (Cls is_num))].

(** One group [(var1^var2)] of the port code: the text it adds to [num]. *)
Definition group_digit (charEqNum : gmap string Z) (numOfChars : string)
  : Res string :=
  res_bind (unpack2 (split "^" (strip "()" numOfChars))) (fun vars =>
  res_bind (getitem charEqNum (fst vars)) (fun x =>
  res_bind (getitem charEqNum (snd vars)) (fun y =>
  Ok (str (Z.lxor x y))))).

(** The loop [for numOfChars in chars[1:]: ... num += str(digit)]. *)
Fixpoint port_loop (charEqNum : gmap string Z) (chars : list string)
  (num : string) : Res string :=
  match chars with
  | [] => Ok num
  | numOfChars :: chars' =>
      res_bind (group_digit charEqNum numOfChars) (fun d =>
      port_loop charEqNum chars' (num ++ d))
  end.

Definition decode_code (charEqNum : gmap string Z) (code : string)
  : Res string :=
  port_loop charEqNum (drop 1 (split "+" code)) "".

Definition char_js_port_to_num (charEqNum : gmap string Z) (m : matchobj)
  : Res string :=
  decode_code charEqNum (group m 1).

(** The value stored for one definition [char=num] of the table. *)
Definition resolve (charEqNum : gmap string Z) (num : string) : Res Z :=
  if contains "^" num then
    res_bind (unpack2 (split "^" num)) (fun dt =>
    res_bind (int (fst dt)) (fun d =>
    res_bind (getitem charEqNum (snd dt)) (fun v =>
    Ok (Z.lxor d v))))
  else int num.

(** The loop [for char, num in res]; [charEqNum] is the class attribute,
    updated in place, so an exception leaves the entries stored so far. *)
Fixpoint define_all (res : list (string * string)) (charEqNum : gmap string Z)
  : Res unit * gmap string Z :=
  match res with
  | [] => (Ok tt, charEqNum)
  | (char, num) :: res' =>
      match resolve charEqNum num with
      | Ok n => define_all res' (<[char := n]> charEqNum)
      | Raise e => (Raise e, charEqNum)
      end
  end.

Definition rewrite (charEqNum : gmap string Z) (page : string) : Res string :=
  sub expPortOnJS (char_js_port_to_num charEqNum) page.

Definition find_proxies (_pattern : regex) (page : string)
  (st : gmap string Z) : Res (list (string * string)) * gmap string Z :=
  match define_all (findall2 expCharNum page) st with
  | (Raise e, charEqNum) => (Raise e, charEqNum)
  | (Ok _, charEqNum) =>
      (res_bind (rewrite charEqNum page)
         (fun page' => Ok (_find_proxies _pattern page')),
       charEqNum)
  end.

End Spys_ru.

(** ** The concurrency gate

    [_sem_provider] is an [asyncio.Semaphore(max_conn)]; every [_get]
    enters [async with self._sem_provider, self._session.request(...)],
    so a task takes a permit before its request is sent and gives it back
    when the block is left, whatever the outcome.  The tasks of a provider
    are interleaved by the event loop: a schedule is a list of events. *)
Module Gate.

(** What [_get] returns or raises for the outcome of its request. *)
Definition page_of (o : Outcome) : Res string :=
  let absorb (e : Exn) := if caught e then Ok "" else Raise e in
  match o with
  | Failed e => absorb e
  | Responded resp =>
      match text resp with
      | Raise e => absorb e
      | Ok page => if (status resp =? 200)%Z then Ok page else Ok ""
      end
  end.

(** Where a task running [get] stands. *)
Inductive pc : Type :=
| AtGate (tries : nat) (page : option string)
    (* before an iteration of the loop of [get]; [tries] are left *)
| InFlight (tries : nat)
    (* inside [async with]: the permit is held and the request is out *)
| Returned (r : Res string).
    (* [get] has returned or raised *)

Record state : Type := MkState {
  value : Z;            (* the counter of the semaphore *)
  tasks : list pc
}.

Inductive event : Type :=
| Acquire (i : nat)               (* task [i] passes the semaphore *)
| Complete (i : nat) (o : Outcome) (* its request ends with outcome [o] *)
| Return (i : nat).               (* its loop is over *)

(** The loop of [get] after an iteration that produced [r]. *)
Definition after_attempt (tries : nat) (r : Res string) : pc :=
  match r with
  | Ok p => if truthy p then Returned (Ok p) else AtGate tries (Some p)
  | Raise e => Returned (Raise e)
  end.

(** One event; [None] when the event cannot happen in this state: a task
    at the gate waits while the counter is zero. *)
Definition step (ev : event) (st : state) : option state :=
  match ev with
  | Acquire i =>
      match tasks st !! i with
      | Some (AtGate (S tries) _) =>
          if (0 <? value st)%Z
          then Some (MkState (value st - 1) (<[i := InFlight tries]> (tasks st)))
          else None
      | _ => None
      end
  | Complete i o =>
      match tasks st !! i with
      | Some (InFlight tries) =>
          Some (MkState (value st + 1)
                  (<[i := after_attempt tries (page_of o)]> (tasks st)))
      | _ => None
      end
  | Return i =>
      match tasks st !! i with
      | Some (AtGate O page) =>
          let r := match page with
                   | Some p => Ok p
                   | None => Raise (UnboundLocalError "page")
                   end in
          Some (MkState (value st) (<[i := Returned r]> (tasks st)))
      | _ => None
      end
  end.

Fixpoint run (evs : list event) (st : state) : option state :=
  match evs with
  | [] => Some st
  | ev :: evs' =>
      match step ev st with
      | Some st' => run evs' st'
      | None => None
      end
  end.

Definition holds_permit (p : pc) : bool :=
  match p with
  | InFlight _ => true
  | _ => false
  end.

(** The number of requests in flight. *)
Definition in_flight (st : state) : nat :=
  length (List.filter holds_permit (tasks st)).

(** [n] page tasks queued on a provider with [max_conn = c] and
    [max_tries = tries]. *)
Definition init (c : Z) (n tries : nat) : state :=
  MkState c (replicate n (AtGate tries None)).

(** What a task counts for in [in_flight]. *)
Definition weight (p : pc) : nat := if holds_permit p then 1 else 0.

(** The invariant of the gate: the permits still in the semaphore and the
    permits held by tasks add up to [c]. *)
Definition balanced (c : Z) (st : state) : Prop :=
  (value st + Z.of_nat (in_flight st) = c /\ 0 <= value st)%Z.

End Gate.

(** ** Networks used in the examples *)

(** A network that answers the requests it receives with a prepared list
    of outcomes, in order, and times out afterwards. *)
Definition scripted (_ : Request) (n : list Outcome) : Outcome * list Outcome :=
  match n with
  | o :: n' => (o, n')
  | [] => (Failed TimeoutError, [])
  end.

Definition page_200 (body : string) : Outcome :=
  Responded (MkResponse 200 (Ok body) [] []).

Definition world0 {St} (p : Provider) (st : St) (n : list Outcome)
  : World (list Outcome) St :=
  MkWorld p st n [] [].

(** A provider built with the defaults of [__init__]. *)
Definition example_provider : Provider :=
  Provider_default None (Some "http://example.com/list").

(** A page of the substitution scheme: the symbol table, an address and
    the port written as a concatenation of symbols. *)
Definition xseo_page : string :=
  "a=7;b=2;c=9; 1.2.3.4:(" ++ String DQ (String DQ "+a+b+c)").

(** A page of the XOR scheme: two definitions and one group. *)
Definition spys_page : string :=
  "<script>abcd=5;efgh=3;</script>1.2.3.4<script>document.write(:+(abcd^efgh))</script>".

(** A listing of the XOR scheme: two definitions, an address and its port
    written as two groups. *)
Definition spys_listing : string :=
  "<script>abcd=5;efgh=3;</script>1.2.3.4:+(abcd^efgh)+(abcd^abcd)".

(** A later page of the XOR scheme: its definition and its port code use
    the symbols that [spys_listing] defines. *)
Definition spys_later : string :=
  "<script>ijkl=1^abcd;</script>5.6.7.8:+(abcd^ijkl)+(efgh^ijkl)".

(** The text of the group [(var1^var2)] and of a port code made of
    groups, as [Spys_ru.expPortOnJS] matches it. *)
Definition group_text (vars : string * string) : string :=
  "(" ++ fst vars ++ "^" ++ snd vars ++ ")".

Definition code_of (gs : list (string * string)) : string :=
  join (map (fun g => "+" ++ group_text g) gs).

(** A symbol: lower-case letters and digits. *)
Definition name_ok (v : string) : bool := all_chars Spys_ru.is_name v.

(** What a group contributes: the decimal text of the XOR of its two
    symbols. *)
Definition digit_of (charEqNum : gmap string Z) (g : string * string)
  (d : string) : Prop :=
  name_ok (fst g) = true /\ name_ok (snd g) = true
  /\ exists x y, charEqNum !! fst g = Some x /\ charEqNum !! snd g = Some y
                 /\ d = str (Z.lxor x y).

(** Page 1 of a [Gatherproxy_com] tier whose last page is [n]. *)
Definition tier_page (n : string) : string :=
  "<a href=" ++ String DQ ("#" ++ n ++ String DQ ">last</a>").

(** Both tiers answer: two pages for [anonymous], three for [elite]. *)
Definition two_tiers_world : World (list Outcome) unit :=
  world0 example_provider tt [page_200 (tier_page "2"); page_200 (tier_page "3")].

(** The default extraction strategy of [Provider]. *)
Definition baseline_strategy := Provider_find_proxies Patterns.IPPortPatternGlobal.

(** One page with two addresses. *)
Definition example_world : World (list Outcome) unit :=
  world0 example_provider tt [page_200 "1.2.3.4:8080 5.6.7.8:80"].

(** The run of the default pipe on that page: the world it leaves and the
    set it returns. *)
Definition example_after : World (list Outcome) unit :=
  snd (get_proxies (_pipe scripted baseline_strategy) example_world).

Definition example_found : gset Endpoint := proxies (self example_after).

Definition is_ok {A} (r : Res A) : bool :=
  match r with
  | Ok _ => true
  | Raise _ => false
  end.

(** A timeout, then a page. *)
Definition flaky_world : World (list Outcome) unit :=
  world0 example_provider tt [Failed TimeoutError; page_200 "1.2.3.4:80"].

(** No answer at all. *)
Definition silent_world : World (list Outcome) unit :=
  world0 example_provider tt [].

(** An index page without page links. *)
Definition nolinks_world : World (list Outcome) unit :=
  world0 example_provider tt [page_200 "<html>no links</html>"].

(** Three tasks on a gate of two permits: two requests are out, one has
    timed out and the third task has taken its permit. *)
Definition gate_schedule : list Gate.event :=
  [Gate.Acquire 0; Gate.Acquire 1; Gate.Complete 0 (Failed TimeoutError);
   Gate.Acquire 2].

Definition gate_state : Gate.state :=
  Gate.MkState 0 [Gate.AtGate 2 (Some ""); Gate.InFlight 2; Gate.InFlight 2].

(** A strategy that always raises. *)
Definition broken_strategy (page : string) (st : unit)
  : Res (list (string * string)) * unit :=
  (Raise (KeyError "x"), st).

(** ** Discovery from an index page without a page count *)

(** [href\s*=\s*] followed by an opening quote. *)
Definition href_eq_quote : re.regex :=
  re.Seqs [re.Lit "href"; re.Star true (re.Cls is_space); re.Chr "=";
           re.Star true (re.Cls is_space); re.Cls is_quote].

Definition not_quote : re.regex := re.Cls (fun c => negb (is_quote c)).

Module Webanetlabs_net.
Section Pipe.

Context {Net St : Type}.
Variable request : Request -> Net -> Outcome * Net.
Variable find_proxies : string -> St -> Res (list (string * string)) * St.

Local Open Scope pipe_scope.
Import re.

(** The pattern [exp], writing Q for the double quote:
    [href\s*=\s*['Q](G)['Q]] with the group G = [[^'Q]*proxylist_at_[^'Q]*] *)
Definition exp : regex :=
  Seqs [href_eq_quote;
        Group 1 (Seqs [Star true not_quote; Lit "proxylist_at_";
                       Star true not_quote]);
        Cls is_quote].

Definition page_urls (page : string) : list UrlSpec :=
  map (fun path => UStr ("https://webanetlabs.net" ++ path)) (findall1 exp page).

Definition _pipe : M Net St unit :=
  page <- get request "https://webanetlabs.net/publ/24" None None "GET" ;;
  if negb (truthy page) then ret tt
  else _find_on_pages request find_proxies (page_urls page).

End Pipe.
End Webanetlabs_net.

Module Checkerproxy_net.
Section Pipe.

Context {Net St : Type}.
Variable request : Request -> Net -> Outcome * Net.
Variable find_proxies : string -> St -> Res (list (string * string)) * St.

Local Open Scope pipe_scope.
Import re.

(** The pattern [exp], writing Q for the double quote:
    [href\s*=\s*['Q](/archive/\d{4}-\d{2}-\d{2})['Q]] *)
Definition exp : regex :=
  Seqs [href_eq_quote;
        Group 1 (Seqs [Lit "/archive/"; Rep 4 (Cls is_digit); Chr "-";
                       Rep 2 (Cls is_digit); Chr "-"; Rep 2 (Cls is_digit)]);
        Cls is_quote].

Definition page_urls (page : string) : list UrlSpec :=
  map (fun path => UStr ("https://checkerproxy.net/api" ++ path))
    (findall1 exp page).

Definition _pipe : M Net St unit :=
  page <- get request "https://checkerproxy.net/" None None "GET" ;;
  if negb (truthy page) then ret tt
  else _find_on_pages request find_proxies (page_urls page).

End Pipe.
End Checkerproxy_net.

Module Proxy_list_org.
Section Pipe.

Context {Net St : Type}.
Variable request : Request -> Net -> Outcome * Net.
Variable find_proxies : string -> St -> Res (list (string * string)) * St.

Local Open Scope pipe_scope.
Import re.

(** The pattern [exp], writing Q for the double quote:
    [href\s*=\s*['Q]\./(G)['Q]] with the group
    G = [[^'Q]?index\.php\?p=\d+[^'Q]*] *)
Definition exp : regex :=
  Seqs [href_eq_quote; Lit "./";
        Group 1 (Seqs [Opt not_quote; Lit "index.php?p=";
                       Plus true (Cls is_digit); Star true not_quote]);
        Cls is_quote].

Definition url : string := "http://proxy-list.org/english/index.php?p=1".

(** The list comprehension, then [urls.append(url)]. *)
Definition page_urls (page : string) : list UrlSpec :=
  map (fun path => UStr ("http://proxy-list.org/english/" ++ path))
    (findall1 exp page)
  ++ [UStr url].

Definition _pipe : M Net St unit :=
  page <- get request url None None "GET" ;;
  if negb (truthy page) then ret tt
  else _find_on_pages request find_proxies (page_urls page).

End Pipe.
End Proxy_list_org.

Module My_proxy_com.
Section Pipe.

Context {Net St : Type}.
Variable request : Request -> Net -> Outcome * Net.
Variable find_proxies : string -> St -> Res (list (string * string)) * St.

Local Open Scope pipe_scope.
Import re.

(** The pattern [exp], writing Q for the double quote:
    [href\s*=\s*['Q](G)['Q]] with the group G = [[^'Q]?free-[^'Q]*] *)
Definition exp : regex :=
  Seqs [href_eq_quote;
        Group 1 (Seqs [Opt not_quote; Lit "free-"; Star true not_quote]);
        Cls is_quote].

Definition url : string := "https://www.my-proxy.com/free-proxy-list.html".

Definition page_urls (page : string) : list UrlSpec :=
  map (fun path => UStr ("https://www.my-proxy.com/" ++ path))
    (findall1 exp page)
  ++ [UStr url].

Definition _pipe : M Net St unit :=
  page <- get request url None None "GET" ;;
  if negb (truthy page) then ret tt
  else _find_on_pages request find_proxies (page_urls page).

End Pipe.
End My_proxy_com.

Module Proxynova_com.
Section Pipe.

Context {Net St : Type}.
Variable request : Request -> Net -> Outcome * Net.
Variable find_proxies : string -> St -> Res (list (string * string)) * St.

Local Open Scope pipe_scope.
Import re.

(** The pattern [expCountries], writing Q for the double quote:
    [Q([a-z]{2})Q] *)
Definition expCountries : regex :=
  Seqs [Chr DQ; Group 1 (Rep 2 (Cls is_lower)); Chr DQ].

(** [tpl % isoCode] *)
Definition tpl (isoCode : string) : string :=
  "https://www.proxynova.com/proxy-server-list/country-" ++ isoCode ++ "/".

(** [[tpl % isoCode for isoCode in ... if isoCode != 'en']] *)
Definition page_urls (page : string) : list UrlSpec :=
  flat_map (fun isoCode => if String.eqb isoCode "en" then []
                           else [UStr (tpl isoCode)])
    (findall1 expCountries page).

Definition _pipe : M Net St unit :=
  page <- get request "https://www.proxynova.com/proxy-server-list/" None None
            "GET" ;;
  if negb (truthy page) then ret tt
  else _find_on_pages request find_proxies (page_urls page).

End Pipe.
End Proxynova_com.

(** The symbols of a port expression of [Xseo_in]: its characters other
    than [+]. *)
Definition symbols (chars : string) : list ascii :=
  List.filter (fun ch => negb (Ascii.eqb ch "+")) (list_ascii_of_string chars).

(** ** Counting the requests of a task at the gate *)

(** How often task [i] passes the semaphore in a schedule. *)
Fixpoint acquires (i : nat) (evs : list Gate.event) : nat :=
  match evs with
  | [] => 0
  | Gate.Acquire j :: evs' =>
      (if Nat.eqb i j then 1 else 0) + acquires i evs'
  | _ :: evs' => acquires i evs'
  end.

(** The iterations that the loop of [get] may still run in a task. *)
Definition tries_left (p : Gate.pc) : nat :=
  match p with
  | Gate.AtGate tries _ => tries
  | Gate.InFlight tries => tries
  | Gate.Returned _ => 0
  end.

Definition tries_left_at (st : Gate.state) (i : nat) : nat :=
  match Gate.tasks st !! i with
  | Some p => tries_left p
  | None => 0
  end.

(** ** What a match of a pattern looks like

    [matched r st st']: the pattern [r] can take the matcher from the
    position [st] to the position [st'].  Every result of [re.exec] is of
    this form. *)
Inductive matched : re.regex -> re.mstate -> re.mstate -> Prop :=
| matched_Eps st : matched re.Eps st st
| matched_Cls p c s' st :
    re.rest st = c :: s' -> p c = true ->
    matched (re.Cls p) st (re.MState (Some c) s' (re.caps st))
| matched_Seq r1 r2 st st1 st2 :
    matched r1 st st1 -> matched r2 st1 st2 -> matched (re.Seq r1 r2) st st2
| matched_Alt_l r1 r2 st st1 :
    matched r1 st st1 -> matched (re.Alt r1 r2) st st1
| matched_Alt_r r1 r2 st st1 :
    matched r2 st st1 -> matched (re.Alt r1 r2) st st1
| matched_Star_stop greedy r st : matched (re.Star greedy r) st st
| matched_Star_more greedy r st st1 st2 :
    matched r st st1 -> matched (re.Star greedy r) st1 st2 ->
    matched (re.Star greedy r) st st2
| matched_Group i r st st1 :
    matched r st st1 ->
    matched (re.Group i r) st
      (re.MState (re.prev st1) (re.rest st1)
         ((i, firstn (length (re.rest st) - length (re.rest st1)) (re.rest st))
          :: re.caps st1))
| matched_WordB st : re.at_boundary st = true -> matched re.WordB st st
| matched_Look_pos r st st1 :
    matched r st st1 ->
    matched (re.Look true r) st
      (re.MState (re.prev st) (re.rest st) (re.caps st1))
| matched_Look_neg r st : matched (re.Look false r) st st.

(** A pattern without capturing group. *)
Fixpoint groupless (r : re.regex) : bool :=
  match r with
  | re.Eps | re.Cls _ | re.WordB => true
  | re.Seq r1 r2 | re.Alt r1 r2 => groupless r1 && groupless r2
  | re.Star _ r1 | re.Look _ r1 => groupless r1
  | re.Group _ _ => false
  end.

(** The matches in the output of [re.scan]. *)
Definition matches_of (l : list (ascii + re.matchobj)) : list re.matchobj :=
  omap (fun x => match x with inr m => Some m | inl _ => None end) l.

(** A token of decimal digits, at least one. *)
Definition digits_token (t : string) : Prop :=
  t <> "" /\ all_chars is_digit t = true.

(** A token that [int] converts: no longer than [max_str_digits]. *)
Definition within_limit (t : string) : Prop :=
  (Z.of_nat (String.length t) <= max_str_digits)%Z.

(** The number that a string of digits denotes, continuing from [acc]. *)
Fixpoint digits_value (acc : Z) (s : string) : Z :=
  match s with
  | EmptyString => acc
  | String c s' => digits_value (10 * acc + (Z.of_N (code c) - 48)) s'
  end.

(** One to three digits that denote a number up to 255. *)
Definition octet_text (o : string) : Prop :=
  digits_token o /\ (String.length o <= 3)%nat
  /\ exists n, int o = Ok n /\ (0 <= n <= 255)%Z.

(** A dotted quad of four such numbers. *)
Definition dotted_quad (h : string) : Prop :=
  exists a b c d,
    h = a ++ "." ++ b ++ "." ++ c ++ "." ++ d
    /\ octet_text a /\ octet_text b /\ octet_text c /\ octet_text d.

(** The port that [Nntime_com._pattern] reports: empty when the address is
    followed by another address first, two to five digits otherwise. *)
Definition port_text (p : string) : Prop :=
  p = "" \/ (all_chars is_digit p = true
             /\ (2 <= String.length p <= 5)%nat).

Module Nntime_com.
Section Pipe.

Context {Net St : Type}.
Variable request : Request -> Net -> Outcome * Net.
Variable find_proxies_ : string -> St -> Res (list (string * string)) * St.

Import re.

(** The pattern [expPortOnJS], writing Q for the double quote:
    [\(Q:Q\+(?P<chars>[a-z+]+)\)] *)
Definition expPortOnJS : regex :=
  Seqs [Chr "("; Chr DQ; Chr ":"; Chr DQ; Chr "+";
        Group 1 (Plus true (Cls Xseo_in.is_chars)); Chr ")"].

(** [\b(?P<char>[a-z])=(?P<num>\d);] *)
Definition expCharNum : regex := Xseo_in.expCharNum.

Definition char_js_port_to_num (charEqNum : gmap string string)
  (m : matchobj) : Res string :=
  Xseo_in.decode_chars charEqNum (group m 1).

(** [find_proxies]; the state is the attribute [self.charEqNum]. *)
Definition find_proxies (page : string) (st : gmap string string)
  : Res (list (string * string)) * gmap string string :=
  let charEqNum := dict_of (findall2 expCharNum page) in
  (res_bind (sub expPortOnJS (char_js_port_to_num charEqNum) page)
     (fun page' => Ok (_find_proxies Patterns.Nntime_pattern page')),
   charEqNum).

(** ['{:02}'.format(n)] *)
Definition format_02 (n : Z) : string :=
  if ((0 <=? n) && (n <? 10))%Z then "0" ++ str n else str n.

(** [tpl.format(n)] *)
Definition tpl (n : Z) : string :=
  "http://www.nntime.com/proxy-updated-" ++ format_02 n ++ ".htm".

Definition _pipe : M Net St unit :=
  _find_on_pages request find_proxies_ (map (fun n => UStr (tpl n)) (range 1 31)).

End Pipe.
End Nntime_com.

Definition octet_word (w : list ascii) : Prop :=
  octet_text (string_of_list_ascii w).

(** ** Predicates on runs *)

(** [w'] is [w] after [k] identical requests [req]: the provider and the
    strategy state are the same, and only debug records were logged. *)
Definition resent {Net St} (req : Request) (k : nat) (w w' : World Net St)
  : Prop :=
  self w' = self w /\ strategy w' = strategy w
  /\ sent w' = (sent w ++ replicate k req)%list
  /\ exists added, log w' = (log w ++ added)%list
                   /\ Forall (fun l => level l = DEBUG) added.

(** Request budget: [within n m] says that [m] sends at most [n] times
    [max_tries] requests and leaves [max_tries] as it is. *)
Definition budget {Net St} (w : World Net St) : nat :=
  Z.to_nat (_max_tries (self w)).

Definition within {Net St} (n : nat) {A} (m : M Net St A) : Prop :=
  forall w, (length (sent (snd (m w))) <= length (sent w) + n * budget w)%nat
            /\ budget (snd (m w)) = budget w.

(** ** Further example inputs *)

(** A provider that may not try at all. *)
Definition idle_provider : Provider :=
  Provider_init None (Some "http://example.com/list") (ProtoTuple []) 4 0 20.

Definition idle_world : World (list Outcome) unit :=
  world0 idle_provider tt [page_200 "1.2.3.4:80"].

(** The first request times out and the body of the second answer is cut
    short: an error that the [except] clause of [_get] does not list. *)
Definition late_error_world : World (list Outcome) unit :=
  world0 example_provider tt
    [Failed TimeoutError; Failed (OtherError "ClientPayloadError")].

(** An index page of [Proxylist_me] whose largest page number is 3. *)
Definition three_pages : string := "<a href='/?page=3'>3</a> <a href='/?page=2'>2</a>".

(** Only the first tier of [Gatherproxy_com] answers. *)
Definition first_tier_world : World (list Outcome) unit :=
  world0 example_provider tt [page_200 (tier_page "2")].

(** A page of [Nntime_com] with one address. *)
Definition nntime_page : string := "1.2.3.4:8080".

(** * Properties *)

(** ** The [proxies] property: deduplication, tagging and ports *)

Section ResultSet.

Implicit Types (self p : Provider) (new : list (string * string))
  (r : Endpoint) (k : string * string).

Lemma truthy_nonempty (s : string) : truthy s = true <-> s <> "".
Proof. destruct s; simpl; split; congruence. Qed.

Lemma setter_proto p new : proto (proxies_setter p new) = proto p.
Proof. reflexivity. Qed.

Lemma elem_of_setter p new r :
  r ∈ proxies (proxies_setter p new) <->
  r ∈ proxies p \/
  exists host port, (host, port) ∈ new /\ truthy port = true
                    /\ r = (host, port, proto p).
Proof.
  unfold proxies, proxies_setter; simpl.
  rewrite elem_of_union, elem_of_list_to_set, list_elem_of_In, in_flat_map.
  split; (intros [H | H]; [left; exact H | right]).
  - destruct H as [[host port] [Hin Hr]]; simpl in Hr.
    destruct (truthy port) eqn:Hp; [| destruct Hr].
    destruct Hr as [<- | []].
    exists host, port. rewrite list_elem_of_In. auto.
  - destruct H as (host & port & Hin & Hp & ->).
    exists (host, port); simpl. rewrite Hp.
    split; [apply list_elem_of_In, Hin | left; reflexivity].
Qed.

Lemma clean_init d u pr mc mt tmo : clean (Provider_init d u pr mc mt tmo).
Proof. intros r Hr. unfold proxies in Hr; simpl in Hr. set_solver. Qed.

Lemma clean_setter p new : clean p -> clean (proxies_setter p new).
Proof.
  intros Hc r Hr. rewrite setter_proto.
  apply elem_of_setter in Hr as [Hr | (host & port & _ & Hp & ->)].
  - apply Hc, Hr.
  - simpl. split; [reflexivity | apply truthy_nonempty, Hp].
Qed.

Lemma merge_all_proto batches : forall p, proto (merge_all p batches) = proto p.
Proof.
  unfold merge_all.
  induction batches as [| new batches IH]; intros p; simpl; [reflexivity |].
  rewrite IH. apply setter_proto.
Qed.

Lemma clean_merge_all batches : forall p, clean p -> clean (merge_all p batches).
Proof.
  unfold merge_all.
  induction batches as [| new batches IH]; intros p Hc; simpl; [exact Hc |].
  apply IH, clean_setter, Hc.
Qed.

Lemma short_when_constant {A} (x : A) (l : list A) :
  NoDup l -> (forall y, y ∈ l -> y = x) -> (length l <= 1)%nat.
Proof.
  intros Hnd Hall. destruct l as [| a [| b l]]; simpl; try lia.
  exfalso. apply NoDup_cons in Hnd as [Hnotin _]. apply Hnotin.
  rewrite (Hall a), (Hall b); [left | right; left | left].
Qed.

(** In a clean set a key determines its record. *)
Lemma clean_key_record p r :
  clean p -> r ∈ proxies p -> r = (fst (key r), snd (key r), proto p).
Proof.
  intros Hc Hr. destruct (Hc r Hr) as [Hpr _].
  destruct r as [[host port] pr]; simpl in *. congruence.
Qed.

Lemma count_key_le_1 p k : clean p -> (count_key k (proxies p) <= 1)%nat.
Proof.
  intros Hc. unfold count_key.
  apply (short_when_constant (fst k, snd k, proto p)).
  - apply NoDup_filter, NoDup_elements.
  - intros y Hy. apply list_elem_of_filter in Hy as [Hk Hy].
    apply elem_of_elements in Hy. rewrite (clean_key_record p y Hc Hy).
    rewrite Hk. reflexivity.
Qed.

Lemma count_key_present p host port :
  clean p -> (host, port, proto p) ∈ proxies p ->
  count_key (host, port) (proxies p) = 1%nat.
Proof.
  intros Hc Hin. pose proof (count_key_le_1 p (host, port) Hc) as Hle.
  assert (Hmem : (host, port, proto p)
                 ∈ filter (fun r => key r = (host, port)) (elements (proxies p))).
  { apply list_elem_of_filter. split; [reflexivity | apply elem_of_elements, Hin]. }
  unfold count_key in *.
  destruct (filter _ (elements (proxies p))); [inversion Hmem | simpl in *; lia].
Qed.

Lemma count_key_absent p k :
  (forall r, r ∈ proxies p -> key r <> k) -> count_key k (proxies p) = 0%nat.
Proof.
  intros Hno. unfold count_key.
  destruct (filter _ (elements (proxies p))) as [| y l] eqn:E; [reflexivity |].
  assert (Hy : y ∈ filter (fun r => key r = k) (elements (proxies p)))
    by (rewrite E; left).
  apply list_elem_of_filter in Hy as [Hk Hy]. apply elem_of_elements in Hy.
  destruct (Hno y Hy Hk).
Qed.

Lemma provider_eq p q :
  domain p = domain q -> url p = url q -> proto p = proto q ->
  _max_tries p = _max_tries q -> _timeout p = _timeout q ->
  max_conn p = max_conn q -> _proxies p = _proxies q -> p = q.
Proof. destruct p, q; simpl; intros; subst; reflexivity. Qed.

Lemma setter_idempotent p new :
  proxies_setter (proxies_setter p new) new = proxies_setter p new.
Proof.
  apply provider_eq; try reflexivity.
  unfold proxies_setter; simpl.
  rewrite <- (assoc_L (∪)), (idemp_L (∪)). reflexivity.
Qed.

Lemma setter_commutes p new1 new2 :
  proxies_setter (proxies_setter p new1) new2
  = proxies_setter (proxies_setter p new2) new1.
Proof.
  apply provider_eq; try reflexivity.
  unfold proxies_setter; simpl.
  rewrite <- !(assoc_L (∪)). f_equal. apply (comm_L (∪)).
Qed.

(** Assigning pairs whose records are all present changes nothing. *)
Lemma setter_noop p new :
  (forall host port, (host, port) ∈ new -> port <> "" ->
                     (host, port, proto p) ∈ proxies p) ->
  proxies_setter p new = p.
Proof.
  intros Hall. apply provider_eq; try reflexivity.
  apply set_eq. intros r.
  change (r ∈ proxies (proxies_setter p new) <-> r ∈ proxies p).
  rewrite elem_of_setter. split; [| auto].
  intros [H | (host & port & Hin & Hp & ->)]; [exact H |].
  apply Hall; [exact Hin | apply truthy_nonempty, Hp].
Qed.

End ResultSet.

(** ** The pipeline: what a computation does to the provider object *)

Create HintDb keeps.

Section PipelineFacts.

Context {Net St : Type}.
Variable request : Request -> Net -> Outcome * Net.
Variable find_proxies : string -> St -> Res (list (string * string)) * St.

Local Open Scope pipe_scope.

Local Abbreviation keeps I m := (@keeps Net St I _ m).

Variable I : Provider -> Prop.
Hypothesis I_setter : forall p new, I p -> I (proxies_setter p new).

Lemma keeps_ret {A} (a : A) : keeps I (ret a).
Proof. intros w H; exact H. Qed.

Lemma keeps_raise {A} (e : Exn) : keeps I (raise (A := A) e).
Proof. intros w H; exact H. Qed.

Lemma keeps_lift {A} (r : Res A) : keeps I (lift r).
Proof. intros w H; exact H. Qed.

Lemma keeps_gets {A} (f : World Net St -> A) : keeps I (gets f).
Proof. intros w H; exact H. Qed.

Lemma keeps_bind {A B} (m : M Net St A) (f : A -> M Net St B) :
  keeps I m -> (forall a, keeps I (f a)) -> keeps I (bind m f).
Proof.
  intros Hm Hf w H. unfold bind. specialize (Hm w H).
  destruct (m w) as [[a | e] w']; simpl in *; [apply Hf, Hm | exact Hm].
Qed.

Lemma keeps_log_debug fmt args : keeps I (log_debug fmt args).
Proof. intros w H; exact H. Qed.

Lemma keeps_log_error fmt args : keeps I (log_error fmt args).
Proof. intros w H; exact H. Qed.

Lemma keeps_get_domain : keeps I get_domain.
Proof. intros w H. unfold get_domain. destruct (domain (self w)); exact H. Qed.

Lemma keeps_len_proxies : keeps I len_proxies.
Proof. intros w H; exact H. Qed.

#[local] Hint Resolve keeps_ret keeps_raise keeps_lift keeps_gets keeps_log_debug
  keeps_log_error keeps_get_domain keeps_len_proxies : keeps.

Ltac keeps_step :=
  first [ apply keeps_bind; [| intros ?] | solve [auto with keeps] ].

Lemma keeps__get_except url e : keeps I (_get_except url e).
Proof. unfold _get_except. destruct (caught e); repeat keeps_step. Qed.

Lemma keeps__get url data headers method :
  keeps I (_get request url data headers method).
Proof.
  unfold _get. apply keeps_bind; [auto with keeps | intros tmo].
  apply keeps_bind.
  - intros w H. destruct (request _ (net w)); exact H.
  - intros [e | resp]; [apply keeps__get_except |].
    destruct (text resp) as [page | e]; [| apply keeps__get_except].
    destruct (status resp =? 200)%Z; [auto with keeps |].
    apply keeps_bind; [auto with keeps | intros _; apply keeps__get_except].
Qed.

Lemma keeps_get_loop url data headers method tries :
  forall page, keeps I (get_loop request tries page url data headers method).
Proof.
  induction tries as [| tries IH]; intros page; simpl.
  - destruct page; auto with keeps.
  - apply keeps_bind; [apply keeps__get | intros p].
    destruct (truthy p); [auto with keeps | apply IH].
Qed.

Lemma keeps_get url data headers method :
  keeps I (get request url data headers method).
Proof.
  unfold get. apply keeps_bind; [auto with keeps | intros ?].
  apply keeps_get_loop.
Qed.

Lemma keeps_try_find_proxies page : keeps I (try_find_proxies find_proxies page).
Proof.
  unfold try_find_proxies. apply keeps_bind.
  - intros w H. destruct (find_proxies page (strategy w)); exact H.
  - intros [received | e]; repeat keeps_step.
Qed.

Lemma keeps__find_on_page url data headers method :
  keeps I (_find_on_page request find_proxies url data headers method).
Proof.
  unfold _find_on_page. apply keeps_bind; [apply keeps_get | intros page].
  destruct (negb (truthy page)); [auto with keeps |].
  apply keeps_bind; [auto with keeps | intros oldcount].
  apply keeps_bind; [apply keeps_try_find_proxies | intros received].
  destruct received as [| hp received]; [auto with keeps |].
  apply keeps_bind; [| intros _; repeat keeps_step].
  intros w H. apply I_setter, H.
Qed.

Lemma keeps_for_each {A} (body : A -> M Net St unit) (l : list A) :
  (forall a, keeps I (body a)) -> keeps I (for_each l body).
Proof.
  intros Hb. induction l as [| a l IH]; simpl; [auto with keeps |].
  apply keeps_bind; [apply Hb | intros _; exact IH].
Qed.

Lemma keeps__find_on_pages urls :
  keeps I (_find_on_pages request find_proxies urls).
Proof.
  unfold _find_on_pages. destruct urls as [| u0 urls]; [auto with keeps |].
  apply keeps_bind.
  - destruct (is_dict u0); [auto with keeps |].
    destruct (existsb is_dict (u0 :: urls)); auto with keeps.
  - intros urls'. apply keeps_for_each. intros [u | u d h m]; simpl;
      apply keeps__find_on_page.
Qed.

Lemma keeps__pipe : keeps I (_pipe request find_proxies).
Proof.
  unfold _pipe. apply keeps_bind; [auto with keeps | intros [u |]].
  - apply keeps__find_on_page.
  - auto with keeps.
Qed.

Lemma keeps_Proxylist_me : keeps I (Proxylist_me._pipe request find_proxies).
Proof.
  unfold Proxylist_me._pipe. apply keeps_bind; [apply keeps_get | intros page].
  destruct (negb (truthy page)); [auto with keeps |].
  apply keeps_bind; [auto with keeps | intros urls; apply keeps__find_on_pages].
Qed.

Lemma keeps_tiers_loop ts :
  forall urls, keeps I (Gatherproxy_com.tiers_loop request ts urls).
Proof.
  induction ts as [| t ts IH]; intros urls; simpl; [auto with keeps |].
  apply keeps_bind; [apply keeps_get | intros page].
  destruct (negb (truthy page)); [apply IH |].
  apply keeps_bind; [auto with keeps | intros ns].
  apply keeps_bind; [auto with keeps | intros lastPageId; apply IH].
Qed.

Lemma keeps_Gatherproxy_com :
  keeps I (Gatherproxy_com._pipe request find_proxies).
Proof.
  unfold Gatherproxy_com._pipe, Gatherproxy_com.discover.
  apply keeps_bind; [apply keeps_tiers_loop | intros urls].
  apply keeps__find_on_pages.
Qed.

Lemma keeps_get_proxies (pipe : M Net St unit) :
  keeps I pipe -> keeps I (get_proxies pipe).
Proof.
  intros Hp. unfold get_proxies.
  apply keeps_bind; [auto with keeps | intros d].
  apply keeps_bind; [auto with keeps | intros _].
  apply keeps_bind; [exact Hp | intros _].
  repeat keeps_step.
Qed.

(** The set that [get_proxies] returns is the set of the provider after
    the run. *)
Lemma get_proxies_returns (pipe : M Net St unit) w s w' :
  get_proxies pipe w = (Ok s, w') -> s = proxies (self w').
Proof.
  unfold get_proxies, bind, gets, log_debug, modify, len_proxies, get_domain.
  destruct (domain (self w)); [| discriminate]; simpl.
  destruct (pipe _) as [[[] | e] w1]; [| discriminate].
  destruct (domain (self w1)); [| discriminate]; simpl.
  intros [= <- <-]. reflexivity.
Qed.

End PipelineFacts.

Lemma keeps_pipe_of {Net St} request find_proxies (I : Provider -> Prop)
  (pipe : M Net St unit) :
  (forall p new, I p -> I (proxies_setter p new)) ->
  pipe_of request find_proxies pipe -> keeps I pipe.
Proof.
  intros HI [].
  - apply keeps__pipe, HI.
  - apply keeps_Proxylist_me, HI.
  - apply keeps_Gatherproxy_com, HI.
Qed.

(** ** Claims about the result set *)

Lemma count_key_pos (s : gset Endpoint) (k : string * string) :
  (1 <= count_key k s)%nat -> exists r, r ∈ s /\ key r = k.
Proof.
  unfold count_key. intros Hlen.
  destruct (filter _ (elements s)) as [| y l] eqn:E; [simpl in Hlen; lia |].
  assert (Hy : y ∈ filter (fun r => key r = k) (elements s)) by (rewrite E; left).
  apply list_elem_of_filter in Hy as [Hk Hy]. apply elem_of_elements in Hy.
  exists y. auto.
Qed.

(** C1, as stated, fails: a pair with an empty port that two extraction
    results share is in the final set zero times, not once. *)
Lemma C1_empty_port_pair_absent :
  let new1 := [("1.2.3.4", ""); ("5.6.7.8", "80")] in
  let new2 := [("1.2.3.4", "")] in
  let final := merge_all example_provider [new1; new2] in
  ("1.2.3.4", "") ∈ new1 /\ ("1.2.3.4", "") ∈ new2
  /\ count_key ("1.2.3.4", "") (proxies final) <> 1%nat.
Proof.
  intros new1 new2 final. split; [left |]. split; [left |].
  rewrite (count_key_absent final); [lia |].
  intros r Hr Hk. unfold final, example_provider, Provider_default in Hr.
  destruct (clean_merge_all _ _ (clean_init _ _ _ _ _ _) r Hr) as [_ Hne].
  apply Hne. destruct r as [[host port] pr].
  unfold key in Hk; simpl in *. congruence.
Qed.

(** C1 (amended): at any point [p] of a provider run, after assigning two
    extraction results [new1] and [new2] to [proxies], every pair of
    either result with a non-empty port is the key of exactly one record,
    no key has more than one record, and the pairs with an empty port have
    none; assigning pairs whose keys are all present changes nothing; the
    assignment is idempotent and two assignments commute. *)
Theorem C1_merge_dedup :
  forall d u pr mc mt tmo (batches : list (list (string * string)))
         (new1 new2 : list (string * string)),
    let p := merge_all (Provider_init d u pr mc mt tmo) batches in
    let q := proxies_setter (proxies_setter p new1) new2 in
    (forall k, k ∈ new1 \/ k ∈ new2 -> snd k <> "" ->
               count_key k (proxies q) = 1%nat)
    /\ (forall k, (count_key k (proxies q) <= 1)%nat)
    /\ (forall k, snd k = "" -> count_key k (proxies q) = 0%nat)
    /\ (forall new,
           (forall k, k ∈ new -> snd k <> "" ->
                      count_key k (proxies p) = 1%nat) ->
           proxies_setter p new = p)
    /\ proxies_setter (proxies_setter p new1) new1 = proxies_setter p new1
    /\ q = proxies_setter (proxies_setter p new2) new1.
Proof.
  intros d u pr mc mt tmo batches new1 new2 p q.
  assert (Hp : clean p) by apply clean_merge_all, clean_init.
  assert (Hq : clean q) by (do 2 apply clean_setter; exact Hp).
  repeat split.
  - intros [host port] Hin Hport; simpl in Hport.
    apply count_key_present; [exact Hq |].
    apply truthy_nonempty in Hport.
    unfold q. rewrite !setter_proto.
    destruct Hin as [Hin | Hin].
    + apply elem_of_setter. left. apply elem_of_setter. right. eauto.
    + apply elem_of_setter. right. exists host, port. auto.
  - intros k. apply count_key_le_1, Hq.
  - intros [host port] Hport; simpl in Hport; subst port.
    apply count_key_absent. intros r Hr Hk.
    destruct (Hq r Hr) as [_ Hne]. apply Hne.
    destruct r as [[h' p'] pr']. unfold key in Hk; simpl in *. congruence.
  - intros new Hall. apply setter_noop. intros host port Hin Hport.
    destruct (count_key_pos (proxies p) (host, port)) as (r & Hr & Hk).
    { rewrite (Hall (host, port) Hin Hport). lia. }
    rewrite (clean_key_record p r Hp Hr), Hk in Hr. exact Hr.
  - apply setter_idempotent.
  - apply setter_commutes.
Qed.

Lemma C1_merge_dedup_witness :
  count_key ("1.2.3.4", "80")
    (proxies (proxies_setter
                (proxies_setter (merge_all example_provider [])
                   [("1.2.3.4", "80"); ("5.6.7.8", "")])
                [("1.2.3.4", "80")])) = 1%nat.
Proof.
  apply (proj1 (C1_merge_dedup None (Some "http://example.com/list")
                  (ProtoTuple []) 4 3 20 []
                  [("1.2.3.4", "80"); ("5.6.7.8", "")] [("1.2.3.4", "80")])).
  - left. left.
  - simpl. discriminate.
Defined.

(** C2: every record of the set that a provider run returns carries the
    provider's declared protocols [proto]: this holds after every
    assignment of extracted pairs to [proxies], and for the set returned
    by [get_proxies], whatever the pages contain and whatever the
    extraction strategy returns. *)
Theorem C2_protocol_tagging :
  (forall d u pr mc mt tmo (batches : list (list (string * string))) r,
      r ∈ proxies (merge_all (Provider_init d u pr mc mt tmo) batches) ->
      snd r = pr)
  /\ (forall Net St (request : Request -> Net -> Outcome * Net)
             (find_proxies : string -> St -> Res (list (string * string)) * St)
             (pipe : M Net St unit) (w w' : World Net St) (s : gset Endpoint),
        pipe_of request find_proxies pipe ->
        clean (self w) ->
        get_proxies pipe w = (Ok s, w') ->
        forall r, r ∈ s -> snd r = proto (self w)).
Proof.
  split.
  - intros d u pr mc mt tmo batches r Hr.
    destruct (clean_merge_all batches _ (clean_init d u pr mc mt tmo) r Hr)
      as [Hpr _].
    rewrite Hpr, merge_all_proto. reflexivity.
  - intros Net St request find_proxies pipe w w' s Hpipe Hclean Hrun r Hr.
    pose (I := fun p => clean p /\ proto p = proto (self w)).
    assert (HI : forall p new, I p -> I (proxies_setter p new)).
    { intros p new [Hc Hpr]. split; [apply clean_setter, Hc | exact Hpr]. }
    pose proof (keeps_get_proxies I pipe
                  (keeps_pipe_of request find_proxies I pipe HI Hpipe) w
                  (conj Hclean eq_refl)) as [Hc Hpr].
    rewrite Hrun in Hc, Hpr; simpl in Hc, Hpr.
    rewrite (get_proxies_returns pipe w s w' Hrun) in Hr.
    rewrite <- Hpr. apply (Hc r Hr).
Qed.

(** C10: a pair whose port is empty is never inserted: no record of a
    provider run has an empty port, after any sequence of assignments to
    [proxies] and in the set that [get_proxies] returns; a batch made of
    such pairs only leaves the set as it was. *)
Theorem C10_empty_port_dropped :
  (forall d u pr mc mt tmo (batches : list (list (string * string))) r,
      r ∈ proxies (merge_all (Provider_init d u pr mc mt tmo) batches) ->
      snd (fst r) <> "")
  /\ (forall (p : Provider) (new : list (string * string)),
        (forall k, k ∈ new -> snd k = "") -> proxies_setter p new = p)
  /\ (forall Net St (request : Request -> Net -> Outcome * Net)
             (find_proxies : string -> St -> Res (list (string * string)) * St)
             (pipe : M Net St unit) (w w' : World Net St) (s : gset Endpoint),
        pipe_of request find_proxies pipe ->
        clean (self w) ->
        get_proxies pipe w = (Ok s, w') ->
        forall r, r ∈ s -> snd (fst r) <> "").
Proof.
  repeat split.
  - intros d u pr mc mt tmo batches r Hr.
    apply (clean_merge_all batches _ (clean_init d u pr mc mt tmo) r Hr).
  - intros p new Hall. apply setter_noop. intros host port Hin Hport.
    destruct Hport. apply (Hall (host, port) Hin).
  - intros Net St request find_proxies pipe w w' s Hpipe Hclean Hrun r Hr.
    pose proof (keeps_get_proxies clean pipe
                  (keeps_pipe_of request find_proxies clean pipe
                     clean_setter Hpipe) w Hclean) as Hc.
    rewrite Hrun in Hc; simpl in Hc.
    rewrite (get_proxies_returns pipe w s w' Hrun) in Hr.
    apply (Hc r Hr).
Qed.

(** ** Claims about [_get] and [get] *)

Section Fetch.

Context {Net St : Type}.
Variable request : Request -> Net -> Outcome * Net.

Implicit Types (w : World Net St) (url method : string)
  (data headers : option pydict).

(** [_get] sends exactly one request, returns what [Gate.page_of] says for
    its outcome, and touches nothing but the network and the log. *)
Lemma _get_outcome url data headers method w o n :
  let req := MkRequest method url data headers (_timeout (self w)) in
  request req (net w) = (o, n) ->
  _get request url data headers method w
  = (Gate.page_of o,
     MkWorld (self w) (strategy w) n (sent w ++ [req])
       (log w ++ _get_log url o)).
Proof.
  intros req Hreq.
  unfold _get, bind, gets, _get_except, log_debug, modify, ret, raise,
    with_log, with_request; simpl.
  fold req. rewrite Hreq. unfold Gate.page_of, _get_log.
  destruct o as [e | resp]; simpl.
  - destruct (caught e); cbv [bind]; simpl; rewrite ?app_nil_r; reflexivity.
  - destruct (text resp) as [page | e]; simpl.
    + destruct (status resp =? 200)%Z; cbv [bind]; simpl;
        rewrite ?app_nil_r, <- ?app_assoc; reflexivity.
    + destruct (caught e); cbv [bind]; simpl; rewrite ?app_nil_r; reflexivity.
Qed.

Lemma _get_sent url data headers method w :
  sent (snd (_get request url data headers method w))
  = (sent w ++ [MkRequest method url data headers (_timeout (self w))])%list.
Proof.
  destruct (request (MkRequest method url data headers (_timeout (self w)))
              (net w)) as [o n] eqn:E.
  rewrite (_get_outcome url data headers method w o n E). reflexivity.
Qed.

Lemma _get_self url data headers method w :
  self (snd (_get request url data headers method w)) = self w.
Proof.
  destruct (request (MkRequest method url data headers (_timeout (self w)))
              (net w)) as [o n] eqn:E.
  rewrite (_get_outcome url data headers method w o n E). reflexivity.
Qed.

Lemma after_attempts_sent url data headers method n :
  forall w,
    length (sent (after_attempts request n url data headers method w))
    = (length (sent w) + n)%nat.
Proof.
  induction n as [| n IH]; intros w; simpl; [lia |].
  rewrite IH, _get_sent, length_app. simpl. lia.
Qed.

Lemma after_attempts_self url data headers method n :
  forall w, self (after_attempts request n url data headers method w) = self w.
Proof.
  induction n as [| n IH]; intros w; simpl; [reflexivity |].
  rewrite IH. apply _get_self.
Qed.

(** The loop stops at the first non-empty page. *)
Lemma get_loop_success url data headers method k :
  forall tries page w t,
    (k < tries)%nat ->
    attempts request (S k) url data headers method w
    = (replicate k (Ok "") ++ [Ok t])%list ->
    t <> "" ->
    get_loop request tries page url data headers method w
    = (Ok t, after_attempts request (S k) url data headers method w).
Proof.
  induction k as [| k IH]; intros tries page w t Hlt Hatt Ht;
    (destruct tries as [| tries]; [lia |]);
    simpl in Hatt |- *; unfold bind;
    destruct (_get request url data headers method w) as [r w1];
    simpl in Hatt |- *.
  - injection Hatt as ->. apply truthy_nonempty in Ht.
    rewrite Ht. reflexivity.
  - injection Hatt as -> Hatt. simpl.
    apply (IH tries (Some "") w1 t); [lia | exact Hatt | exact Ht].
Qed.

(** When every attempt returns the empty page, the loop runs to its end
    and returns the empty page. *)
Lemma get_loop_exhausted url data headers method tries :
  forall w,
    attempts request tries url data headers method w
    = replicate tries (Ok "") ->
    get_loop request tries (Some "") url data headers method w
    = (Ok "", after_attempts request tries url data headers method w).
Proof.
  induction tries as [| tries IH]; intros w Hatt; simpl in Hatt |- *;
    [reflexivity |].
  unfold bind.
  destruct (_get request url data headers method w) as [r w1];
    simpl in Hatt |- *.
  injection Hatt as -> Hatt. simpl. apply IH, Hatt.
Qed.

(** C3: with [max_tries >= 1], if the first [k < max_tries] calls of
    [_get] return the empty page and the next one a non-empty text [t],
    then [get] returns [t] and leaves the world as it is after exactly
    [k + 1] calls of [_get], which sent [k + 1] requests; if all
    [max_tries] calls return the empty page, [get] returns the empty page
    after exactly [max_tries] calls. *)
Theorem C3_retry_bound url data headers method w :
  (1 <= _max_tries (self w))%Z ->
  let max_tries := Z.to_nat (_max_tries (self w)) in
  (forall k t,
      (k < max_tries)%nat ->
      attempts request (S k) url data headers method w
      = (replicate k (Ok "") ++ [Ok t])%list ->
      t <> "" ->
      let w' := after_attempts request (S k) url data headers method w in
      get request url data headers method w = (Ok t, w')
      /\ length (sent w') = (length (sent w) + (k + 1))%nat)
  /\ (attempts request max_tries url data headers method w
      = replicate max_tries (Ok "") ->
      let w' := after_attempts request max_tries url data headers method w in
      get request url data headers method w = (Ok "", w')
      /\ length (sent w') = (length (sent w) + max_tries)%nat).
Proof.
  intros Hge max_tries. split.
  - intros k t Hk Hatt Ht w'. split.
    + unfold get, bind, gets. fold max_tries.
      apply get_loop_success; assumption.
    + unfold w'. rewrite after_attempts_sent. lia.
  - intros Hatt w'. split.
    + unfold get, bind, gets. fold max_tries.
      unfold w'. clear w'.
      destruct max_tries as [| tries] eqn:E; [lia |].
      simpl in Hatt |- *. unfold bind.
      destruct (_get request url data headers method w) as [r w1];
        simpl in Hatt |- *.
      injection Hatt as -> Hatt. simpl.
      apply get_loop_exhausted, Hatt.
    + unfold w'. rewrite after_attempts_sent. lia.
Qed.

(** C4: when the request of [_get] ends with a status other than 200, a
    timeout, a connection reset or OS error, a server disconnect or a body
    that cannot be decoded, [_get] returns the empty text and raises
    nothing; the last record of the log is the debug record of the
    failure, and every record added is at debug level. *)
Theorem C4_get_absorbs_failures url data headers method w o n e :
  request (MkRequest method url data headers (_timeout (self w))) (net w)
  = (o, n) ->
  absorbed o e ->
  exists w',
    _get request url data headers method w = (Ok "", w')
    /\ last (log w') = Some (MkLog DEBUG "%s is failed. Error: %r;"
                               [AStr url; AExn e])
    /\ (exists added, log w' = (log w ++ added)%list
                      /\ Forall (fun l => level l = DEBUG) added)
    /\ self w' = self w.
Proof.
  intros Hreq Habs.
  rewrite (_get_outcome url data headers method w o n Hreq).
  exists (MkWorld (self w) (strategy w) n
            (sent w ++ [MkRequest method url data headers (_timeout (self w))])
            (log w ++ _get_log url o)).
  split; [| split; [| split; [eexists; split; [reflexivity |] |]]]; simpl.
  - f_equal. unfold Gate.page_of.
    destruct Habs as [resp page Htext Hst | e He | resp e Htext He].
    + rewrite Htext. apply Z.eqb_neq in Hst. rewrite Hst. reflexivity.
    + destruct e; try discriminate; reflexivity.
    + rewrite Htext. destruct e; try discriminate; reflexivity.
  - unfold _get_log.
    destruct Habs as [resp page Htext Hst | e He | resp e Htext He].
    + rewrite Htext. apply Z.eqb_neq in Hst. rewrite Hst. simpl.
      rewrite last_app. reflexivity.
    + destruct e; try discriminate; simpl; rewrite last_snoc; reflexivity.
    + rewrite Htext.
      destruct e; try discriminate; simpl; rewrite last_snoc; reflexivity.
  - unfold _get_log.
    destruct Habs as [resp page Htext Hst | e He | resp e Htext He].
    + rewrite Htext. destruct (status resp =? 200)%Z; repeat constructor.
    + destruct (caught e); repeat constructor.
    + rewrite Htext. destruct (caught e); repeat constructor.
  - reflexivity.
Qed.

End Fetch.

(** ** Claims about the per-page pipeline and discovery *)

Section Pages.

Context {Net St : Type}.
Variable request : Request -> Net -> Outcome * Net.
Variable find_proxies : string -> St -> Res (list (string * string)) * St.

Implicit Types (w : World Net St) (url method : string)
  (data headers : option pydict).

Lemma get_self url data headers method w :
  self (snd (get request url data headers method w)) = self w.
Proof.
  apply (keeps_get request (fun p => p = self w) url data headers method w).
  reflexivity.
Qed.

Lemma get_proxies_no_domain (pipe : M Net St unit) w :
  domain (self w) = None ->
  get_proxies pipe w = (Raise (AttributeError "domain"), w).
Proof.
  intros Hd. unfold get_proxies, bind, get_domain. rewrite Hd. reflexivity.
Qed.

Lemma get_proxies_raises (pipe : M Net St unit) w d e w1 :
  domain (self w) = Some d ->
  pipe (with_log (MkLog DEBUG "Try to get proxies from %s" [AStr d]) w)
  = (Raise e, w1) ->
  get_proxies pipe w = (Raise e, w1).
Proof.
  intros Hd Hpipe.
  unfold get_proxies, bind, get_domain, log_debug, modify.
  rewrite Hd, Hpipe. reflexivity.
Qed.

(** C5: when [find_proxies] raises on a non-empty page, [_find_on_page]
    returns normally: the exception is logged as an error together with
    the provider's [domain], the page counts as zero pairs, the set of
    proxies is the one before the page, and the pages that follow are
    processed.  ([get_proxies] reads [self.domain] before the first
    request, so a run only reaches a page when the provider has one.) *)
Theorem C5_extraction_failure_contained url data headers method w w1 page e st' d :
  get request url data headers method w = (Ok page, w1) ->
  page <> "" ->
  find_proxies page (strategy w1) = (Raise e, st') ->
  domain (self w1) = Some d ->
  let w2 :=
    MkWorld (self w1) st' (net w1) (sent w1)
      (log w1 ++
       [MkLog ERROR "Error when executing find_proxies.Domain: %s; Error: %r"
          [AStr d; AExn e];
        MkLog ERROR "Got 0 proxies from {url}" [AStr url]]) in
  _find_on_page request find_proxies url data headers method w = (Ok tt, w2)
  /\ proxies (self w2) = proxies (self w)
  /\ (forall (rest : list UrlSpec),
         for_each (UDict url data headers (Some method) :: rest)
           (page_task request find_proxies) w
         = for_each rest (page_task request find_proxies) w2)
  /\ (forall pipe w0, domain (self w0) = None ->
         get_proxies pipe w0 = (Raise (AttributeError "domain"), w0)).
Proof.
  intros Hget Hpage Hfind Hd w2.
  assert (Hrun : _find_on_page request find_proxies url data headers method w
                 = (Ok tt, w2)).
  { unfold _find_on_page, bind. rewrite Hget.
    apply truthy_nonempty in Hpage. rewrite Hpage. simpl.
    unfold try_find_proxies, bind. rewrite Hfind. simpl.
    unfold get_domain; simpl. rewrite Hd.
    unfold w2, log_error, modify, with_log; simpl.
    rewrite <- app_assoc. reflexivity. }
  split; [exact Hrun |]. split; [| split].
  - simpl. pose proof (get_self url data headers method w) as Hs.
    rewrite Hget in Hs. simpl in Hs. rewrite Hs. reflexivity.
  - intros rest. simpl. unfold bind at 1. rewrite Hrun. reflexivity.
  - intros pipe w0. apply get_proxies_no_domain.
Qed.

Lemma ints_found_none exp page :
  re.findall1 exp page = [] -> ints_found exp page = Ok [].
Proof. intros H. unfold ints_found. rewrite H. reflexivity. Qed.

Lemma tiers_loop_empty_page t ts urls w w1 :
  get request Gatherproxy_com.url (Some (Gatherproxy_com.form t 1)) None
    Gatherproxy_com.method w = (Ok "", w1) ->
  Gatherproxy_com.tiers_loop request (t :: ts) urls w
  = Gatherproxy_com.tiers_loop request ts urls w1.
Proof. intros Hget. simpl. unfold bind. rewrite Hget. reflexivity. Qed.

Lemma tiers_loop_no_match t ts urls w w1 page :
  get request Gatherproxy_com.url (Some (Gatherproxy_com.form t 1)) None
    Gatherproxy_com.method w = (Ok page, w1) ->
  page <> "" ->
  re.findall1 Gatherproxy_com.expNumPages page = [] ->
  Gatherproxy_com.tiers_loop request (t :: ts) urls w
  = (Raise (ValueError "max() arg is an empty sequence"), w1).
Proof.
  intros Hget Hpage Hnone. simpl. unfold bind at 1. rewrite Hget.
  apply truthy_nonempty in Hpage. rewrite Hpage. simpl.
  rewrite (ints_found_none _ _ Hnone). reflexivity.
Qed.

Lemma tiers_loop_match t ts urls w w1 page ns lastPageId :
  get request Gatherproxy_com.url (Some (Gatherproxy_com.form t 1)) None
    Gatherproxy_com.method w = (Ok page, w1) ->
  page <> "" ->
  ints_found Gatherproxy_com.expNumPages page = Ok ns ->
  max ns = Ok lastPageId ->
  Gatherproxy_com.tiers_loop request (t :: ts) urls w
  = Gatherproxy_com.tiers_loop request ts
      (Gatherproxy_com.tier_urls t lastPageId) w1.
Proof.
  intros Hget Hpage Hns Hmax. simpl. unfold bind at 1. rewrite Hget.
  apply truthy_nonempty in Hpage. rewrite Hpage. simpl.
  unfold bind, lift. rewrite Hns, Hmax. reflexivity.
Qed.

(** C6: in the two discovery variants that derive a last page from an
    index page ([Proxylist_me] and [Gatherproxy_com]), an index fetch that
    returns the empty text adds no request: the run ends normally in the
    world that the fetch left, with the proxies it had; an index page that
    is not empty and has no match of the page-number pattern makes [max]
    raise [ValueError], which leaves [_pipe] and [get_proxies]. *)
Theorem C6_discovery_edge_cases w :
  (forall w1,
      get request "https://proxylist.me/" None None "GET" w = (Ok "", w1) ->
      Proxylist_me._pipe request find_proxies w = (Ok tt, w1)
      /\ proxies (self w1) = proxies (self w))
  /\ (forall page w1,
         get request "https://proxylist.me/" None None "GET" w = (Ok page, w1) ->
         page <> "" ->
         re.findall1 Proxylist_me.exp page = [] ->
         Proxylist_me._pipe request find_proxies w
         = (Raise (ValueError "max() arg is an empty sequence"), w1))
  /\ (forall w1 w2,
         get request Gatherproxy_com.url
           (Some (Gatherproxy_com.form "anonymous" 1)) None "POST" w
         = (Ok "", w1) ->
         get request Gatherproxy_com.url
           (Some (Gatherproxy_com.form "elite" 1)) None "POST" w1
         = (Ok "", w2) ->
         Gatherproxy_com._pipe request find_proxies w = (Ok tt, w2)
         /\ proxies (self w2) = proxies (self w))
  /\ (forall t ts urls page w1,
         get request Gatherproxy_com.url (Some (Gatherproxy_com.form t 1))
           None "POST" w = (Ok page, w1) ->
         page <> "" ->
         re.findall1 Gatherproxy_com.expNumPages page = [] ->
         Gatherproxy_com.tiers_loop request (t :: ts) urls w
         = (Raise (ValueError "max() arg is an empty sequence"), w1))
  /\ (forall page w1,
         get request Gatherproxy_com.url
           (Some (Gatherproxy_com.form "anonymous" 1)) None "POST" w
         = (Ok page, w1) ->
         page <> "" ->
         re.findall1 Gatherproxy_com.expNumPages page = [] ->
         Gatherproxy_com._pipe request find_proxies w
         = (Raise (ValueError "max() arg is an empty sequence"), w1))
  /\ (forall (pipe : M Net St unit) d e w1,
         domain (self w) = Some d ->
         pipe (with_log (MkLog DEBUG "Try to get proxies from %s" [AStr d]) w)
         = (Raise e, w1) ->
         get_proxies pipe w = (Raise e, w1)).
Proof.
  repeat apply conj.
  - intros w1 Hget. split.
    + unfold Proxylist_me._pipe, bind. rewrite Hget. reflexivity.
    + pose proof (get_self "https://proxylist.me/" None None "GET" w) as Hs.
      rewrite Hget in Hs. simpl in Hs. rewrite Hs. reflexivity.
  - intros page w1 Hget Hpage Hnone.
    unfold Proxylist_me._pipe, bind. rewrite Hget.
    apply truthy_nonempty in Hpage. rewrite Hpage. simpl.
    unfold Proxylist_me.page_urls. rewrite (ints_found_none _ _ Hnone).
    reflexivity.
  - intros w1 w2 Hg1 Hg2. split.
    + unfold Gatherproxy_com._pipe, Gatherproxy_com.discover, bind.
      rewrite (tiers_loop_empty_page _ _ _ _ _ Hg1).
      rewrite (tiers_loop_empty_page _ _ _ _ _ Hg2). reflexivity.
    + pose proof (get_self Gatherproxy_com.url
                    (Some (Gatherproxy_com.form "anonymous" 1)) None "POST" w)
        as Hs1.
      pose proof (get_self Gatherproxy_com.url
                    (Some (Gatherproxy_com.form "elite" 1)) None "POST" w1)
        as Hs2.
      rewrite Hg1 in Hs1. rewrite Hg2 in Hs2. simpl in Hs1, Hs2.
      rewrite Hs2, Hs1. reflexivity.
  - intros t ts urls page w1. apply tiers_loop_no_match.
  - intros page w1 Hget Hpage Hnone.
    unfold Gatherproxy_com._pipe, Gatherproxy_com.discover, bind.
    rewrite (tiers_loop_no_match _ _ _ _ _ _ Hget Hpage Hnone). reflexivity.
  - intros pipe d e w1. apply get_proxies_raises.
Qed.

(** In [Gatherproxy_com._pipe] the list built for a tier is assigned to
    [urls], not added to it: when both tiers answer, the requests of the
    first tier are lost. *)
Lemma discover_keeps_last_tier w w1 w2 page1 page2 ns1 ns2 last1 last2 :
  get request Gatherproxy_com.url
    (Some (Gatherproxy_com.form "anonymous" 1)) None "POST" w
  = (Ok page1, w1) ->
  page1 <> "" ->
  ints_found Gatherproxy_com.expNumPages page1 = Ok ns1 ->
  max ns1 = Ok last1 ->
  get request Gatherproxy_com.url
    (Some (Gatherproxy_com.form "elite" 1)) None "POST" w1
  = (Ok page2, w2) ->
  page2 <> "" ->
  ints_found Gatherproxy_com.expNumPages page2 = Ok ns2 ->
  max ns2 = Ok last2 ->
  Gatherproxy_com.discover request w
  = (Ok (Gatherproxy_com.tier_urls "elite" last2), w2).
Proof.
  intros Hg1 Hp1 Hn1 Hm1 Hg2 Hp2 Hn2 Hm2. unfold Gatherproxy_com.discover.
  rewrite (tiers_loop_match _ _ _ _ _ _ _ _ Hg1 Hp1 Hn1 Hm1).
  rewrite (tiers_loop_match _ _ _ _ _ _ _ _ Hg2 Hp2 Hn2 Hm2).
  reflexivity.
Qed.

End Pages.

(** ** The concurrency gate *)

Module GateFacts.
Import Gate.

Lemma in_flight_cons (p : pc) (l : list pc) (v : Z) :
  in_flight (MkState v (p :: l)) = (weight p + in_flight (MkState v l))%nat.
Proof. unfold in_flight, weight; simpl. destruct (holds_permit p); reflexivity. Qed.

(** Replacing one task changes the count by the difference of weights. *)
Lemma in_flight_insert (l : list pc) :
  forall (i : nat) (old new : pc) (v v' : Z),
    l !! i = Some old ->
    (in_flight (MkState v' (<[i := new]> l)) + weight old
     = in_flight (MkState v l) + weight new)%nat.
Proof.
  induction l as [| p l IH]; intros i old new v v' Hi; [discriminate |].
  destruct i as [| i]; simpl in Hi |- *.
  - injection Hi as ->. rewrite !in_flight_cons. 
    change (in_flight (MkState v' l)) with (in_flight (MkState v l)). lia.
  - rewrite !in_flight_cons. specialize (IH i old new v v' Hi). lia.
Qed.

Lemma in_flight_init (c : Z) (n tries : nat) : in_flight (init c n tries) = 0%nat.
Proof.
  unfold init, in_flight; simpl.
  induction n as [| n IH]; simpl; [reflexivity | exact IH].
Qed.

Lemma balanced_init (c : Z) (n tries : nat) :
  (0 <= c)%Z -> balanced c (init c n tries).
Proof.
  intros Hc. unfold balanced. rewrite in_flight_init. simpl. lia.
Qed.

Lemma weight_after_attempt tries r : weight (after_attempt tries r) = 0%nat.
Proof.
  unfold after_attempt. destruct r as [p | e]; [destruct (truthy p) |];
    reflexivity.
Qed.

Lemma balanced_step (c : Z) (ev : event) (st st' : state) :
  balanced c st -> step ev st = Some st' -> balanced c st'.
Proof.
  intros [Hsum Hpos] Hstep. destruct st as [v l]. unfold balanced in *.
  simpl in *. destruct ev as [i | i o | i]; simpl in Hstep.
  - destruct (l !! i) as [[[| tries] page | tries | r] |] eqn:Hi;
      try discriminate.
    destruct (0 <? v)%Z eqn:Hv; [| discriminate].
    injection Hstep as <-. simpl. apply Z.ltb_lt in Hv.
    pose proof (in_flight_insert l i _ (InFlight tries) v (v - 1) Hi) as H.
    unfold weight in H; simpl in H. lia.
  - destruct (l !! i) as [[tries page | tries | r] |] eqn:Hi; try discriminate.
    injection Hstep as <-. simpl.
    pose proof (in_flight_insert l i _ (after_attempt tries (page_of o))
                  v (v + 1) Hi) as H.
    rewrite weight_after_attempt in H. unfold weight in H; simpl in H. lia.
  - destruct (l !! i) as [[[| tries] page | tries | r] |] eqn:Hi;
      try discriminate.
    injection Hstep as <-. simpl.
    pose proof (in_flight_insert l i _
                  (Returned match page with
                            | Some p => Ok p
                            | None => Raise (UnboundLocalError "page")
                            end) v v Hi) as H.
    unfold weight in H; simpl in H. lia.
Qed.

Lemma balanced_run (c : Z) (evs : list event) :
  forall st st', balanced c st -> run evs st = Some st' -> balanced c st'.
Proof.
  induction evs as [| ev evs IH]; intros st st' Hb Hrun; simpl in Hrun.
  - injection Hrun as <-. exact Hb.
  - destruct (step ev st) as [st1 |] eqn:Hstep; [| discriminate].
    apply (IH st1 st' (balanced_step c ev st st1 Hb Hstep) Hrun).
Qed.

(** C9: on a provider whose semaphore starts with [c] permits, in every
    state that a schedule of [n] queued page tasks can reach, at most [c]
    requests are in flight, and the counter of the semaphore is [c] minus
    their number.  A task passes the gate only while fewer than [c]
    requests are in flight, and a request in flight gives its permit back
    whatever its outcome is, an error or a timeout included. *)
Theorem C9_concurrency_bound (c : Z) (n tries : nat) (evs : list event)
  (st : state) :
  (0 <= c)%Z ->
  run evs (init c n tries) = Some st ->
  (Z.of_nat (in_flight st) <= c)%Z
  /\ value st = (c - Z.of_nat (in_flight st))%Z
  /\ (forall i st', step (Acquire i) st = Some st' ->
                    (Z.of_nat (in_flight st) < c)%Z
                    /\ in_flight st' = S (in_flight st))
  /\ (forall i tries' o,
         tasks st !! i = Some (InFlight tries') ->
         exists st', step (Complete i o) st = Some st'
                     /\ value st' = (value st + 1)%Z
                     /\ S (in_flight st') = in_flight st).
Proof.
  intros Hc Hrun.
  destruct (balanced_run c evs _ st (balanced_init c n tries Hc) Hrun)
    as [Hsum Hpos].
  repeat split; try lia.
  - destruct st as [v l]; simpl in *.
    destruct (l !! i) as [[[| t] page | t | r] |]; try discriminate.
    destruct (0 <? v)%Z eqn:Hv; [| discriminate].
    apply Z.ltb_lt in Hv. lia.
  - destruct st as [v l]; simpl in *.
    destruct (l !! i) as [[[| t] page | t | r] |] eqn:Hi; try discriminate.
    destruct (0 <? v)%Z; [| discriminate].
    injection H as <-.
    pose proof (in_flight_insert l i _ (InFlight t) v (v - 1) Hi) as Hw.
    unfold weight in Hw; simpl in Hw. lia.
  - intros i tries' o Hi. destruct st as [v l]; simpl in *.
    rewrite Hi. eexists. split; [reflexivity |]. split; [reflexivity |].
    pose proof (in_flight_insert l i _ (after_attempt tries' (page_of o))
                  v (v + 1) Hi) as Hw.
    rewrite weight_after_attempt in Hw. unfold weight in Hw; simpl in Hw. lia.
Qed.

End GateFacts.

(** ** The port decoders *)

Section Strings.

Lemma append_cons (c : ascii) (a b : string) :
  String c a ++ b = String c (a ++ b).
Proof. reflexivity. Qed.

Lemma append_nil_r (s : string) : s ++ "" = s.
Proof.
  induction s as [| c s IH]; [reflexivity |].
  rewrite append_cons, IH. reflexivity.
Qed.

Lemma append_assoc (a b c : string) : (a ++ b) ++ c = a ++ (b ++ c).
Proof.
  induction a as [| x a IH]; [reflexivity |].
  rewrite !append_cons, IH. reflexivity.
Qed.

Lemma all_chars_app (p : ascii -> bool) (a b : string) :
  all_chars p (a ++ b) = all_chars p a && all_chars p b.
Proof.
  induction a as [| c a IH]; [reflexivity |].
  rewrite append_cons. simpl. rewrite IH, andb_assoc. reflexivity.
Qed.

Lemma all_chars_impl (p q : ascii -> bool) (s : string) :
  (forall c, p c = true -> q c = true) ->
  all_chars p s = true -> all_chars q s = true.
Proof.
  intros Hpq. induction s as [| c s IH]; simpl; [reflexivity |].
  intros [Hc Hs]%andb_prop. rewrite (Hpq c Hc), (IH Hs). reflexivity.
Qed.

Lemma split_sep_head (sep : ascii) (s : string) :
  split sep (String sep s) = "" :: split sep s.
Proof. simpl. rewrite Ascii.eqb_refl. reflexivity. Qed.

Lemma split_nosep (sep : ascii) (a : string) :
  all_chars (fun c => negb (Ascii.eqb c sep)) a = true -> split sep a = [a].
Proof.
  induction a as [| c a IH]; simpl; [reflexivity |].
  intros [Hc Ha]%andb_prop. apply negb_true_iff in Hc.
  rewrite Hc, (IH Ha). reflexivity.
Qed.

Lemma split_nosep_app (sep : ascii) (a s : string) :
  all_chars (fun c => negb (Ascii.eqb c sep)) a = true ->
  split sep (a ++ String sep s) = a :: split sep s.
Proof.
  induction a as [| c a IH].
  - intros _. apply split_sep_head.
  - rewrite append_cons. simpl.
    intros [Hc Ha]%andb_prop. apply negb_true_iff in Hc.
    rewrite Hc, (IH Ha). reflexivity.
Qed.

Lemma rstrip_cons_keep (p : ascii -> bool) (c : ascii) (s : string) :
  p c = false -> rstrip p (String c s) = String c (rstrip p s).
Proof. intros Hc. simpl. rewrite Hc. destruct (rstrip p s); reflexivity. Qed.

Lemma rstrip_prefix (p : ascii -> bool) (u s : string) :
  all_chars (fun c => negb (p c)) u = true ->
  rstrip p (u ++ s) = u ++ rstrip p s.
Proof.
  induction u as [| c u IH]; [reflexivity |].
  intros [Hc Hu]%andb_prop. apply negb_true_iff in Hc.
  change (String c u ++ s) with (String c (u ++ s)).
  rewrite (rstrip_cons_keep p c _ Hc), (IH Hu). reflexivity.
Qed.

Lemma lstrip_keep (p : ascii -> bool) (c : ascii) (s : string) :
  p c = false -> lstrip p (String c s) = String c s.
Proof. intros Hc. simpl. rewrite Hc. reflexivity. Qed.

(** The characters of a symbol are no separators of the port code. *)
Lemma is_name_plain (c : ascii) :
  Spys_ru.is_name c = true ->
  Ascii.eqb c "+" = false /\ Ascii.eqb c "^" = false /\ one_of "()" c = false.
Proof.
  destruct c as [[] [] [] [] [] [] [] []]; vm_compute; intros H;
    try discriminate H; repeat split.
Qed.

Lemma name_ok_no (v : string) (q : ascii -> bool) :
  (forall c, Spys_ru.is_name c = true -> q c = true) ->
  name_ok v = true -> all_chars q v = true.
Proof. intros Hq. apply all_chars_impl, Hq. Qed.

Lemma name_no_plus v :
  name_ok v = true -> all_chars (fun c => negb (Ascii.eqb c "+")) v = true.
Proof.
  apply name_ok_no. intros c Hc.
  destruct (is_name_plain c Hc) as (-> & _ & _). reflexivity.
Qed.

Lemma name_no_caret v :
  name_ok v = true -> all_chars (fun c => negb (Ascii.eqb c "^")) v = true.
Proof.
  apply name_ok_no. intros c Hc.
  destruct (is_name_plain c Hc) as (_ & -> & _). reflexivity.
Qed.

Lemma name_no_paren v :
  name_ok v = true -> all_chars (fun c => negb (one_of "()" c)) v = true.
Proof.
  apply name_ok_no. intros c Hc.
  destruct (is_name_plain c Hc) as (_ & _ & ->). reflexivity.
Qed.

Lemma strip_group (v1 v2 : string) :
  name_ok v1 = true -> name_ok v2 = true ->
  strip "()" (group_text (v1, v2)) = v1 ++ String "^" v2.
Proof.
  intros H1 H2. unfold strip, group_text; simpl fst; simpl snd.
  change ("(" ++ v1 ++ "^" ++ v2 ++ ")")
    with (String "(" (v1 ++ String "^" (v2 ++ ")"))).
  assert (Hl : lstrip (one_of "()") (String "(" (v1 ++ String "^" (v2 ++ ")")))
               = v1 ++ String "^" (v2 ++ ")")).
  { change (lstrip (one_of "()") (String "(" (v1 ++ String "^" (v2 ++ ")"))))
      with (lstrip (one_of "()") (v1 ++ String "^" (v2 ++ ")"))).
    destruct v1 as [| c v1]; [reflexivity |].
    apply lstrip_keep. simpl in H1. apply andb_prop in H1 as [Hc _].
    apply (is_name_plain c Hc). }
  rewrite Hl.
  rewrite (rstrip_prefix _ _ _ (name_no_paren v1 H1)).
  rewrite (rstrip_cons_keep _ "^" _ eq_refl).
  rewrite (rstrip_prefix _ _ _ (name_no_paren v2 H2)).
  simpl. rewrite append_nil_r. reflexivity.
Qed.

Lemma group_no_plus (g : string * string) :
  name_ok (fst g) = true -> name_ok (snd g) = true ->
  all_chars (fun c => negb (Ascii.eqb c "+")) (group_text g) = true.
Proof.
  intros H1 H2. unfold group_text.
  change ("(" ++ fst g ++ "^" ++ snd g ++ ")")
    with (String "(" (fst g ++ String "^" (snd g ++ ")"))).
  simpl. rewrite all_chars_app. simpl. rewrite all_chars_app. simpl.
  rewrite (name_no_plus _ H1), (name_no_plus _ H2). reflexivity.
Qed.

Lemma split_code (g : string * string) (gs : list (string * string)) :
  Forall (fun g => name_ok (fst g) = true /\ name_ok (snd g) = true) (g :: gs) ->
  split "+" (group_text g ++ code_of gs) = map group_text (g :: gs).
Proof.
  revert g. induction gs as [| g' gs IH]; intros g Hall.
  - apply Forall_cons in Hall as [[H1 H2] _].
    change (code_of []) with "". rewrite append_nil_r.
    apply split_nosep, group_no_plus; assumption.
  - apply Forall_cons in Hall as [[H1 H2] Hall].
    change (code_of (g' :: gs))
      with (String "+" (group_text g' ++ code_of gs)).
    rewrite (split_nosep_app "+" _ _ (group_no_plus g H1 H2)).
    rewrite (IH g' Hall). reflexivity.
Qed.

Lemma split_code_of (gs : list (string * string)) :
  Forall (fun g => name_ok (fst g) = true /\ name_ok (snd g) = true) gs ->
  drop 1 (split "+" (code_of gs)) = map group_text gs.
Proof.
  destruct gs as [| g gs]; intros Hall; [reflexivity |].
  change (code_of (g :: gs)) with (String "+" (group_text g ++ code_of gs)).
  rewrite split_sep_head. simpl drop. apply split_code, Hall.
Qed.

Lemma group_digit_text charEqNum g d :
  digit_of charEqNum g d ->
  Spys_ru.group_digit charEqNum (group_text g) = Ok d.
Proof.
  destruct g as [v1 v2]. intros (H1 & H2 & x & y & Hx & Hy & ->).
  simpl in *. unfold Spys_ru.group_digit.
  rewrite (strip_group v1 v2 H1 H2).
  rewrite (split_nosep_app "^" v1 v2 (name_no_caret v1 H1)).
  rewrite (split_nosep "^" v2 (name_no_caret v2 H2)). simpl.
  unfold getitem. rewrite Hx, Hy. reflexivity.
Qed.

Lemma port_loop_groups charEqNum gs :
  forall digits num,
    Forall2 (digit_of charEqNum) gs digits ->
    Spys_ru.port_loop charEqNum (map group_text gs) num
    = Ok (num ++ join digits).
Proof.
  induction gs as [| g gs IH]; intros digits num Hall.
  - apply Forall2_nil_inv_l in Hall as ->. simpl.
    rewrite append_nil_r. reflexivity.
  - apply Forall2_cons_inv_l in Hall as (d & ds & Hd & Hds & ->).
    simpl. rewrite (group_digit_text charEqNum g d Hd). simpl.
    rewrite (IH ds (num ++ d) Hds), append_assoc. reflexivity.
Qed.

Lemma decode_code_groups charEqNum gs digits :
  Forall2 (digit_of charEqNum) gs digits ->
  Spys_ru.decode_code charEqNum (code_of gs) = Ok (join digits).
Proof.
  intros Hall. unfold Spys_ru.decode_code.
  rewrite split_code_of.
  - apply (port_loop_groups charEqNum gs digits "" Hall).
  - clear -Hall. induction Hall as [| g d gs ds (H1 & H2 & _) _ IH];
      constructor; auto.
Qed.

Lemma define_all_app res1 :
  forall res2 t,
    Spys_ru.define_all (res1 ++ res2) t
    = match Spys_ru.define_all res1 t with
      | (Ok _, t') => Spys_ru.define_all res2 t'
      | (Raise e, t') => (Raise e, t')
      end.
Proof.
  induction res1 as [| [char num] res1 IH]; intros res2 t; simpl;
    [reflexivity |].
  destruct (Spys_ru.resolve t num); [apply IH | reflexivity].
Qed.

End Strings.

(** C7: on a page with the symbol table [a=7;b=2;c=9;] and the
    expression made of the symbols a, b and c, the decoder of [Xseo_in]
    reads the table, rewrites the expression to [729] and extraction
    returns the port [729]; in the XOR scheme of [Spys_ru], with [abcd]
    defined as 5 and [efgh] as 3, the group [(abcd^efgh)] contributes [6];
    the texts of the groups are concatenated in the order of the groups,
    and definitions are resolved in the order of the table, a definition
    seeing the ones before it only.  End to end, for every pattern
    [Spys_ru.find_proxies] reads the definitions of the page into the
    table of the class, rewrites every port code with the table so
    updated and runs the extraction on the rewritten page: on a listing
    with the port code [+(abcd^efgh)+(abcd^abcd)] it returns the port
    [60]; a later page is decoded with the entries that the earlier page
    left in the table and adds its own; without them the definition that
    refers to [abcd] raises [KeyError] before anything is extracted. *)
Theorem C7_cipher_decode :
  re.findall2 Xseo_in.expCharNum xseo_page = [("a", "7"); ("b", "2"); ("c", "9")]
  /\ (forall charEqNum : gmap string string,
         charEqNum !! "a" = Some "7" -> charEqNum !! "b" = Some "2" ->
         charEqNum !! "c" = Some "9" ->
         Xseo_in.decode_chars charEqNum "a+b+c" = Ok "729")
  /\ (forall _pattern st,
         Xseo_in.find_proxies _pattern xseo_page st
         = (Ok (_find_proxies _pattern "a=7;b=2;c=9; 1.2.3.4:729"),
            dict_of [("a", "7"); ("b", "2"); ("c", "9")]))
  /\ fst (Xseo_in.find_proxies Patterns.IPPortPatternGlobal xseo_page ∅)
     = Ok [("1.2.3.4", "729")]
  /\ (forall charEqNum : gmap string Z,
         charEqNum !! "abcd" = Some 5%Z -> charEqNum !! "efgh" = Some 3%Z ->
         Spys_ru.decode_code charEqNum "+(abcd^efgh)" = Ok "6")
  /\ Spys_ru.define_all (re.findall2 Spys_ru.expCharNum spys_page) ∅
     = (Ok tt, {[ "abcd" := 5%Z; "efgh" := 3%Z ]})
  /\ Spys_ru.rewrite {[ "abcd" := 5%Z; "efgh" := 3%Z ]} spys_page
     = Ok "<script>abcd=5;efgh=3;</script>1.2.3.4<script>document.write(:6)</script>"
  /\ (forall (charEqNum : gmap string Z) gs digits,
         Forall2 (digit_of charEqNum) gs digits ->
         Spys_ru.decode_code charEqNum (code_of gs) = Ok (join digits))
  /\ (forall res1 res2 t,
         Spys_ru.define_all (res1 ++ res2) t
         = match Spys_ru.define_all res1 t with
           | (Ok _, t') => Spys_ru.define_all res2 t'
           | (Raise e, t') => (Raise e, t')
           end)
  /\ Spys_ru.define_all [("abcd", "5"); ("efgh", "3^abcd")] ∅
     = (Ok tt, {[ "abcd" := 5%Z; "efgh" := 6%Z ]})
  /\ Spys_ru.define_all [("efgh", "3^abcd"); ("abcd", "5")] ∅
     = (Raise (KeyError "abcd"), ∅)
  /\ (forall _pattern,
         Spys_ru.find_proxies _pattern spys_page ∅
         = (Ok (_find_proxies _pattern
                  "<script>abcd=5;efgh=3;</script>1.2.3.4<script>document.write(:6)</script>"),
            {[ "abcd" := 5%Z; "efgh" := 3%Z ]}))
  /\ (forall _pattern,
         Spys_ru.find_proxies _pattern spys_listing ∅
         = (Ok (_find_proxies _pattern
                  "<script>abcd=5;efgh=3;</script>1.2.3.4:60"),
            {[ "abcd" := 5%Z; "efgh" := 3%Z ]}))
  /\ Spys_ru.find_proxies Patterns.IPPortPatternGlobal spys_listing ∅
     = (Ok [("1.2.3.4", "60")], {[ "abcd" := 5%Z; "efgh" := 3%Z ]})
  /\ Spys_ru.find_proxies Patterns.Nntime_pattern spys_listing ∅
     = (Ok [("1.2.3.4", "60")], {[ "abcd" := 5%Z; "efgh" := 3%Z ]})
  /\ (forall _pattern,
         Spys_ru.find_proxies _pattern spys_later
           {[ "abcd" := 5%Z; "efgh" := 3%Z ]}
         = (Ok (_find_proxies _pattern
                  "<script>ijkl=1^abcd;</script>5.6.7.8:17"),
            {[ "abcd" := 5%Z; "efgh" := 3%Z; "ijkl" := 4%Z ]}))
  /\ Spys_ru.find_proxies Patterns.IPPortPatternGlobal spys_later
       (snd (Spys_ru.find_proxies Patterns.IPPortPatternGlobal spys_listing ∅))
     = (Ok [("5.6.7.8", "17")],
        {[ "abcd" := 5%Z; "efgh" := 3%Z; "ijkl" := 4%Z ]})
  /\ (forall _pattern,
         Spys_ru.find_proxies _pattern spys_later ∅
         = (Raise (KeyError "abcd"), ∅)).
Proof.
  assert (Hspys : forall page st t page',
             Spys_ru.define_all (re.findall2 Spys_ru.expCharNum page) st
             = (Ok tt, t) ->
             Spys_ru.rewrite t page = Ok page' ->
             forall _pattern,
               Spys_ru.find_proxies _pattern page st
               = (Ok (_find_proxies _pattern page'), t)).
  { intros page st t page' Hdef Hrew _pattern. unfold Spys_ru.find_proxies.
    rewrite Hdef, Hrew. reflexivity. }
  assert (Hlisting : forall _pattern,
             Spys_ru.find_proxies _pattern spys_listing ∅
             = (Ok (_find_proxies _pattern
                      "<script>abcd=5;efgh=3;</script>1.2.3.4:60"),
                {[ "abcd" := 5%Z; "efgh" := 3%Z ]})).
  { apply Hspys; vm_compute; reflexivity. }
  assert (Hlater : forall _pattern,
             Spys_ru.find_proxies _pattern spys_later
               {[ "abcd" := 5%Z; "efgh" := 3%Z ]}
             = (Ok (_find_proxies _pattern
                      "<script>ijkl=1^abcd;</script>5.6.7.8:17"),
                {[ "abcd" := 5%Z; "efgh" := 3%Z; "ijkl" := 4%Z ]})).
  { apply Hspys; vm_compute; reflexivity. }
  assert (Hfound : forall _pattern page found t,
             _find_proxies _pattern page = found ->
             (Ok (_find_proxies _pattern page), t)
             = (@Ok (list (string * string)) found, t : gmap string Z)).
  { intros _pattern page found t <-. reflexivity. }
  assert (Htable : re.findall2 Xseo_in.expCharNum xseo_page
                   = [("a", "7"); ("b", "2"); ("c", "9")])
    by (vm_compute; reflexivity).
  assert (Hrewrite : Xseo_in.rewrite (dict_of [("a", "7"); ("b", "2"); ("c", "9")])
                       xseo_page
                     = Ok "a=7;b=2;c=9; 1.2.3.4:729")
    by (vm_compute; reflexivity).
  repeat apply conj.
  - exact Htable.
  - intros charEqNum Ha Hb Hc. unfold Xseo_in.decode_chars. simpl.
    unfold getitem. rewrite Ha, Hb, Hc. reflexivity.
  - intros _pattern st. unfold Xseo_in.find_proxies.
    rewrite Htable, Hrewrite. reflexivity.
  - vm_compute. reflexivity.
  - intros charEqNum Ha He.
    apply (decode_code_groups charEqNum [("abcd", "efgh")] ["6"]).
    constructor; [| constructor].
    split; [reflexivity |]. split; [reflexivity |].
    exists 5%Z, 3%Z. auto.
  - vm_compute. reflexivity.
  - vm_compute. reflexivity.
  - apply decode_code_groups.
  - apply define_all_app.
  - vm_compute. reflexivity.
  - vm_compute. reflexivity.
  - apply Hspys; vm_compute; reflexivity.
  - exact Hlisting.
  - rewrite Hlisting. apply Hfound. vm_compute. reflexivity.
  - rewrite Hlisting. apply Hfound. vm_compute. reflexivity.
  - exact Hlater.
  - rewrite Hlisting. cbn [snd]. rewrite Hlater. apply Hfound.
    vm_compute. reflexivity.
  - intros _pattern. unfold Spys_ru.find_proxies.
    assert (Hdef : Spys_ru.define_all
                     (re.findall2 Spys_ru.expCharNum spys_later) ∅
                   = (Raise (KeyError "abcd"), ∅))
      by (vm_compute; reflexivity).
    rewrite Hdef. reflexivity.
Qed.

Lemma C7_cipher_decode_witness :
  Spys_ru.decode_code {[ "abcd" := 5%Z; "efgh" := 3%Z ]} "+(abcd^efgh)" = Ok "6".
Proof.
  apply (proj1 (proj2 (proj2 (proj2 (proj2 C7_cipher_decode))))).
  - reflexivity.
  - reflexivity.
Defined.

(** C8, on the code: when both tiers of [Gatherproxy_com] answer, two
    pages for [anonymous] and three for [elite], the list handed to
    [_find_on_pages] holds the three requests of [elite] only, where the
    claim asks for the five requests of both tiers. *)
Theorem C8_last_tier_replaces_first :
  fst (Gatherproxy_com.discover scripted two_tiers_world)
  = Ok (Gatherproxy_com.tier_urls "elite" 3)
  /\ fst (Gatherproxy_com.discover scripted two_tiers_world)
     <> Ok (Gatherproxy_com.tier_urls "anonymous" 2
            ++ Gatherproxy_com.tier_urls "elite" 3)%list
  /\ map req_data (sent (snd (Gatherproxy_com.discover scripted two_tiers_world)))
     = [Some (Gatherproxy_com.form "anonymous" 1);
        Some (Gatherproxy_com.form "elite" 1)].
Proof.
  assert (H : fst (Gatherproxy_com.discover scripted two_tiers_world)
              = Ok (Gatherproxy_com.tier_urls "elite" 3))
    by (vm_compute; reflexivity).
  split; [exact H |]. split.
  - rewrite H. vm_compute. discriminate.
  - vm_compute. reflexivity.
Qed.


(** ** The claims at concrete inputs *)

Lemma example_run :
  get_proxies (_pipe scripted baseline_strategy) example_world
  = (Ok example_found, example_after).
Proof.
  assert (Hok : is_ok (fst (get_proxies (_pipe scripted baseline_strategy)
                              example_world)) = true)
    by (vm_compute; reflexivity).
  unfold example_found, example_after.
  destruct (get_proxies (_pipe scripted baseline_strategy) example_world)
    as [[s | e] w'] eqn:E; [| discriminate Hok].
  simpl. rewrite (get_proxies_returns _ _ _ _ E). reflexivity.
Qed.

Lemma example_found_member :
  ("1.2.3.4", "8080", ProtoTuple []) ∈ example_found.
Proof.
  apply (bool_decide_eq_true_1
           (("1.2.3.4", "8080", ProtoTuple []) ∈ example_found)).
  vm_compute. reflexivity.
Qed.

Lemma C2_protocol_tagging_witness :
  snd ("1.2.3.4", "8080", ProtoTuple []) = proto (self example_world).
Proof.
  apply (proj2 C2_protocol_tagging _ _ scripted baseline_strategy
           (_pipe scripted baseline_strategy) example_world example_after
           example_found (pipe_Provider _ _) (clean_init _ _ _ _ _ _)
           example_run _ example_found_member).
Defined.

Lemma C10_empty_port_dropped_witness :
  snd (fst ("1.2.3.4", "8080", ProtoTuple [])) <> "".
Proof.
  apply (proj2 (proj2 C10_empty_port_dropped) _ _ scripted baseline_strategy
           (_pipe scripted baseline_strategy) example_world example_after
           example_found (pipe_Provider _ _) (clean_init _ _ _ _ _ _)
           example_run _ example_found_member).
Defined.
Lemma C3_retry_bound_witness :
  get scripted "http://example.com/list" None None "GET" flaky_world
  = (Ok "1.2.3.4:80",
     after_attempts scripted 2 "http://example.com/list" None None "GET"
       flaky_world)
  /\ length (sent (after_attempts scripted 2 "http://example.com/list" None
                     None "GET" flaky_world)) = 2%nat.
Proof.
  assert (Hge : (1 <= _max_tries (self flaky_world))%Z) by (simpl; lia).
  apply (proj1 (C3_retry_bound scripted "http://example.com/list" None None
                  "GET" flaky_world Hge) 1%nat "1.2.3.4:80").
  - simpl. lia.
  - reflexivity.
  - discriminate.
Defined.

Lemma C4_get_absorbs_failures_witness :
  exists w',
    _get scripted "http://example.com/list" None None "GET" flaky_world
    = (Ok "", w')
    /\ last (log w') = Some (MkLog DEBUG "%s is failed. Error: %r;"
                               [AStr "http://example.com/list";
                                AExn TimeoutError])
    /\ (exists added, log w' = (log flaky_world ++ added)%list
                      /\ Forall (fun l => level l = DEBUG) added)
    /\ self w' = self flaky_world.
Proof.
  apply (C4_get_absorbs_failures scripted "http://example.com/list" None None
           "GET" flaky_world (Failed TimeoutError) [page_200 "1.2.3.4:80"]
           TimeoutError).
  - reflexivity.
  - apply absorbed_sending. reflexivity.
Defined.

Lemma C5_extraction_failure_contained_witness :
  fst (_find_on_page scripted broken_strategy "http://example.com/list" None
         None "GET" example_world) = Ok tt.
Proof.
  edestruct (C5_extraction_failure_contained scripted broken_strategy
               "http://example.com/list" None None "GET" example_world)
    as [Hrun _].
  - reflexivity.
  - discriminate.
  - reflexivity.
  - reflexivity.
  - rewrite Hrun. reflexivity.
Defined.

Lemma C6_discovery_edge_cases_witness :
  fst (Proxylist_me._pipe scripted baseline_strategy silent_world) = Ok tt
  /\ fst (Proxylist_me._pipe scripted baseline_strategy nolinks_world)
     = Raise (ValueError "max() arg is an empty sequence").
Proof.
  split.
  - edestruct (proj1 (C6_discovery_edge_cases scripted baseline_strategy
                        silent_world)) as [Hrun _].
    + reflexivity.
    + rewrite Hrun. reflexivity.
  - erewrite (proj1 (proj2 (C6_discovery_edge_cases scripted baseline_strategy
                              nolinks_world))).
    + reflexivity.
    + reflexivity.
    + discriminate.
    + vm_compute. reflexivity.
Defined.

Lemma C9_concurrency_bound_witness :
  (Z.of_nat (Gate.in_flight gate_state) <= 2)%Z.
Proof.
  assert (Hc : (0 <= 2)%Z) by lia.
  apply (proj1 (GateFacts.C9_concurrency_bound 2 3 3 gate_schedule gate_state
                  Hc eq_refl)).
Defined.

(** * Further properties of the pipeline *)

Section FetchMore.

Context {Net St : Type}.
Variable request : Request -> Net -> Outcome * Net.

Implicit Types (w : World Net St) (url method : string)
  (data headers : option pydict).

Lemma resent_refl req w : resent req 0 w w.
Proof.
  repeat split; simpl; rewrite ?app_nil_r; try reflexivity.
  exists []. rewrite app_nil_r. split; [reflexivity | constructor].
Qed.

Lemma resent_trans req k1 k2 w w1 w2 :
  resent req k1 w w1 -> resent req k2 w1 w2 -> resent req (k1 + k2) w w2.
Proof.
  intros (Hs1 & Ht1 & Hr1 & a1 & Hl1 & Hd1) (Hs2 & Ht2 & Hr2 & a2 & Hl2 & Hd2).
  repeat split; try congruence.
  - rewrite Hr2, Hr1, replicate_add, app_assoc. reflexivity.
  - exists (a1 ++ a2)%list. split.
    + rewrite Hl2, Hl1, app_assoc. reflexivity.
    + apply Forall_app. auto.
Qed.

Lemma _get_log_debug url o : Forall (fun l => level l = DEBUG) (_get_log url o).
Proof.
  unfold _get_log. destruct o as [e | resp].
  - destruct (caught e); repeat constructor.
  - destruct (text resp) as [page | e].
    + destruct (status resp =? 200)%Z; repeat constructor.
    + destruct (caught e); repeat constructor.
Qed.

Lemma _get_resent url data headers method w :
  resent (MkRequest method url data headers (_timeout (self w))) 1 w
    (snd (_get request url data headers method w)).
Proof.
  destruct (request (MkRequest method url data headers (_timeout (self w)))
              (net w)) as [o n] eqn:E.
  rewrite (_get_outcome request url data headers method w o n E). simpl.
  repeat split. exists (_get_log url o). split; [reflexivity |].
  apply _get_log_debug.
Qed.

Lemma get_loop_resent url data headers method tries :
  forall page w,
    exists k, (k <= tries)%nat
      /\ resent (MkRequest method url data headers (_timeout (self w))) k w
           (snd (get_loop request tries page url data headers method w)).
Proof.
  induction tries as [| tries IH]; intros page w; simpl.
  - exists 0%nat. split; [lia |]. destruct page; apply resent_refl.
  - unfold bind.
    pose proof (_get_resent url data headers method w) as H1.
    destruct (_get request url data headers method w) as [[p | e] w1];
      simpl in H1 |- *.
    + destruct (truthy p).
      * exists 1%nat. split; [lia | exact H1].
      * destruct (IH (Some p) w1) as (k & Hk & H2).
        exists (1 + k)%nat. split; [lia |].
        apply (resent_trans _ _ _ _ w1); [exact H1 |].
        destruct H1 as (Hs & _). rewrite Hs in H2. exact H2.
    + exists 1%nat. split; [lia | exact H1].
Qed.

(** X1: whatever the network does, [get] sends the same request at most
    [max_tries] times and does nothing else: the provider and the state
    of the strategy are untouched and every record it logs is at debug
    level. *)
Theorem get_resends_same_request url data headers method w :
  exists k,
    (k <= Z.to_nat (_max_tries (self w)))%nat
    /\ resent (MkRequest method url data headers (_timeout (self w))) k w
         (snd (get request url data headers method w)).
Proof.
  unfold get, bind, gets. apply get_loop_resent.
Qed.

(** X2: with [max_tries <= 0] the loop of [get] has no iteration: [page]
    is unbound at [return page], so [get] raises [UnboundLocalError] and
    no request is sent. *)
Theorem get_without_tries url data headers method w :
  (_max_tries (self w) <= 0)%Z ->
  get request url data headers method w = (Raise (UnboundLocalError "page"), w).
Proof.
  intros Hle. unfold get, bind, gets.
  replace (Z.to_nat (_max_tries (self w))) with 0%nat by lia. reflexivity.
Qed.

Lemma attempts_snoc url data headers method n :
  forall w,
    attempts request (S n) url data headers method w
    = (attempts request n url data headers method w
       ++ [fst (_get request url data headers method
                  (after_attempts request n url data headers method w))])%list.
Proof.
  induction n as [| n IH]; intros w.
  - simpl. destruct (_get request url data headers method w). reflexivity.
  - change (attempts request (S (S n)) url data headers method w)
      with (let (r, w') := _get request url data headers method w in
            r :: attempts request (S n) url data headers method w').
    change (after_attempts request (S n) url data headers method w)
      with (after_attempts request n url data headers method
              (snd (_get request url data headers method w))).
    change (attempts request (S n) url data headers method w)
      with (let (r, w') := _get request url data headers method w in
            r :: attempts request n url data headers method w').
    destruct (_get request url data headers method w) as [r w1].
    rewrite (IH w1). reflexivity.
Qed.

Lemma after_attempts_snoc url data headers method n :
  forall w,
    after_attempts request (S n) url data headers method w
    = snd (_get request url data headers method
             (after_attempts request n url data headers method w)).
Proof.
  induction n as [| n IH]; intros w; [reflexivity |].
  change (after_attempts request (S (S n)) url data headers method w)
    with (after_attempts request (S n) url data headers method
            (snd (_get request url data headers method w))).
  rewrite IH. reflexivity.
Qed.

(** The loop stops at the first exception that leaves [_get]. *)
Lemma get_loop_raise url data headers method k :
  forall tries page w e,
    (k < tries)%nat ->
    attempts request (S k) url data headers method w
    = (replicate k (Ok "") ++ [Raise e])%list ->
    get_loop request tries page url data headers method w
    = (Raise e, after_attempts request (S k) url data headers method w).
Proof.
  induction k as [| k IH]; intros tries page w e Hlt Hatt;
    (destruct tries as [| tries]; [lia |]);
    simpl in Hatt |- *; unfold bind;
    destruct (_get request url data headers method w) as [r w1];
    simpl in Hatt |- *.
  - injection Hatt as ->. reflexivity.
  - injection Hatt as -> Hatt. simpl.
    apply (IH tries (Some "") w1 e); [lia | exact Hatt].
Qed.

(** An exception leaves [_get] only when the [except] clause does not
    list it, and then nothing is logged. *)
Lemma page_of_raise o e url :
  Gate.page_of o = Raise e -> caught e = false /\ _get_log url o = [].
Proof.
  unfold Gate.page_of, _get_log. destruct o as [e' | resp].
  - destruct (caught e') eqn:E; [discriminate |]. intros [= <-]. auto.
  - destruct (text resp) as [page | e'].
    + destruct (status resp =? 200)%Z; discriminate.
    + destruct (caught e') eqn:E; [discriminate |]. intros [= <-]. auto.
Qed.

(** X3: an exception that the [except] clause of [_get] does not list is
    not retried, at whichever attempt it strikes.  If the first
    [k < max_tries] calls of [_get] return the empty page and the next one
    raises [e], then [e] is none of the listed classes, [get] raises [e]
    and leaves the world as it is after exactly [k + 1] calls of [_get],
    which sent [k + 1] requests; the raising attempt sends one request
    and logs nothing, so the log is that of the [k] absorbed failures. *)
Theorem get_uncaught_not_retried url data headers method w k e :
  (k < Z.to_nat (_max_tries (self w)))%nat ->
  attempts request (S k) url data headers method w
  = (replicate k (Ok "") ++ [Raise e])%list ->
  let wk := after_attempts request k url data headers method w in
  let w' := after_attempts request (S k) url data headers method w in
  get request url data headers method w = (Raise e, w')
  /\ caught e = false
  /\ length (sent w') = (length (sent w) + (k + 1))%nat
  /\ sent w'
     = (sent wk ++ [MkRequest method url data headers (_timeout (self w))])%list
  /\ log w' = log wk
  /\ self w' = self w
  /\ strategy w' = strategy wk.
Proof.
  intros Hlt Hatt wk w'.
  assert (Hget : get request url data headers method w = (Raise e, w')).
  { unfold get, bind, gets. apply get_loop_raise; assumption. }
  assert (Hlen : length (sent w') = (length (sent w) + (k + 1))%nat).
  { unfold w'. rewrite after_attempts_sent. lia. }
  assert (Hself : self wk = self w) by apply after_attempts_self.
  rewrite attempts_snoc in Hatt. apply app_inj_tail in Hatt as [_ Hlast].
  fold wk in Hlast.
  unfold w'. rewrite after_attempts_snoc. fold wk.
  destruct (request (MkRequest method url data headers (_timeout (self wk)))
              (net wk)) as [o n] eqn:E.
  rewrite (_get_outcome request url data headers method wk o n E) in Hlast |- *.
  simpl in Hlast |- *.
  destruct (page_of_raise o e url Hlast) as [Hc Hlog].
  rewrite Hlog, app_nil_r, Hself.
  unfold w' in Hget, Hlen. rewrite after_attempts_snoc in Hget, Hlen.
  fold wk in Hget, Hlen.
  rewrite (_get_outcome request url data headers method wk o n E) in Hget, Hlen.
  simpl in Hget, Hlen. rewrite Hlog, app_nil_r, Hself in Hget.
  rewrite Hself in Hlen.
  repeat split; assumption.
Qed.

(** X4: a non-empty result of [_get] is exactly the decoded body of a
    response with status 200. *)
Theorem _get_nonempty_iff url data headers method w page :
  page <> "" ->
  (fst (_get request url data headers method w) = Ok page
   <-> exists resp,
         fst (request (MkRequest method url data headers (_timeout (self w)))
                (net w)) = Responded resp
         /\ status resp = 200%Z /\ text resp = Ok page).
Proof.
  intros Hpage.
  destruct (request (MkRequest method url data headers (_timeout (self w)))
              (net w)) as [o n] eqn:E.
  rewrite (_get_outcome request url data headers method w o n E). simpl.
  unfold Gate.page_of. split.
  - destruct o as [e | resp].
    + destruct (caught e); intros [=]. congruence.
    + destruct (text resp) as [p | e] eqn:Ht.
      * destruct (status resp =? 200)%Z eqn:Hs; intros [=]; [| congruence].
        subst p. exists resp. apply Z.eqb_eq in Hs. auto.
      * destruct (caught e); intros [=]. congruence.
  - intros (resp & -> & Hs & Ht). rewrite Ht, Hs. reflexivity.
Qed.

End FetchMore.

Section PagesMore.

Context {Net St : Type}.
Variable request : Request -> Net -> Outcome * Net.
Variable find_proxies : string -> St -> Res (list (string * string)) * St.

Local Abbreviation within n m := (@within Net St n _ m).

Implicit Types (w : World Net St) (url method : string)
  (data headers : option pydict).


Lemma size_list_to_set_le (l : list Endpoint) :
  (size (list_to_set l : gset Endpoint) <= length l)%nat.
Proof.
  induction l as [| x l IH].
  - rewrite list_to_set_nil, size_empty. simpl. lia.
  - rewrite list_to_set_cons, size_union_alt, size_singleton. simpl length.
    pose proof (subseteq_size (list_to_set l ∖ {[x]}) (list_to_set l : gset Endpoint))
      as Hle.
    assert (Hsub : (list_to_set l ∖ {[x]} : gset Endpoint) ⊆ list_to_set l).
    { intros y Hy. apply elem_of_difference in Hy as [Hy _]. exact Hy. }
    specialize (Hle Hsub). lia.
Qed.

Lemma setter_records_length (p : Provider) (new : list (string * string)) :
  (length (flat_map (fun hp => if truthy (snd hp)
                               then [(fst hp, snd hp, proto p)] else []) new)
   <= length new)%nat.
Proof.
  induction new as [| hp new IH]; simpl; [lia |].
  destruct (truthy (snd hp)); simpl; lia.
Qed.

(** Assigning to [proxies] never removes a record and adds at most as many
    records as there are pairs. *)
Lemma setter_size (p : Provider) (new : list (string * string)) :
  (size (proxies p) <= size (proxies (proxies_setter p new))
   <= size (proxies p) + length new)%nat.
Proof.
  unfold proxies, proxies_setter. simpl. split.
  - apply subseteq_size, union_subseteq_l.
  - rewrite size_union_alt.
    set (recs := flat_map _ new).
    pose proof (size_list_to_set_le recs) as H1.
    pose proof (setter_records_length p new) as H2. fold recs in H2.
    assert (Hsub : (list_to_set recs ∖ _proxies p : gset Endpoint)
                   ⊆ list_to_set recs).
    { intros y Hy. apply elem_of_difference in Hy as [Hy _]. exact Hy. }
    pose proof (subseteq_size _ _ Hsub) as H3. lia.
Qed.

(** X5: when [find_proxies] returns pairs for a non-empty page,
    [_find_on_page] assigns them to [proxies] and logs one debug record
    with the number of records added, which lies between zero and the
    number of pairs received. *)
Theorem _find_on_page_merges url data headers method w w1 page hp received st' :
  get request url data headers method w = (Ok page, w1) ->
  page <> "" ->
  find_proxies page (strategy w1) = (Ok (hp :: received), st') ->
  exists added,
    _find_on_page request find_proxies url data headers method w
    = (Ok tt,
       MkWorld (proxies_setter (self w1) (hp :: received)) st' (net w1)
         (sent w1)
         (log w1 ++
          [MkLog DEBUG "%d(%d) proxies added(received) from %s"
             [AInt added; AInt (Z.of_nat (length (hp :: received)));
              AStr url]]))
    /\ (0 <= added <= Z.of_nat (length (hp :: received)))%Z
    /\ added = (Z.of_nat (size (proxies (proxies_setter (self w1)
                                            (hp :: received))))
                - Z.of_nat (size (proxies (self w1))))%Z.
Proof.
  intros Hget Hpage Hfind.
  eexists. split; [| split; [| reflexivity]].
  - unfold _find_on_page, bind. rewrite Hget.
    apply truthy_nonempty in Hpage. rewrite Hpage. simpl.
    unfold try_find_proxies, bind. rewrite Hfind. reflexivity.
  - pose proof (setter_size (self w1) (hp :: received)). lia.
Qed.

(** X6: a list that starts with a plain URL and also holds a [dict] makes
    [set(urls)] raise [TypeError]: no page is fetched. *)
Theorem _find_on_pages_mixed_list u0 urls w :
  is_dict u0 = false ->
  existsb is_dict urls = true ->
  _find_on_pages request find_proxies (u0 :: urls) w
  = (Raise (TypeError "unhashable type: 'dict'"), w).
Proof.
  intros H0 Hex. unfold _find_on_pages, bind. rewrite H0. simpl.
  rewrite H0, Hex. reflexivity.
Qed.

(** X7: in a list of plain URLs a URL that occurs again is fetched once;
    in a list of [dict]s every entry is a page task of its own. *)
Theorem _find_on_pages_duplicates u d urls w :
  (Forall (fun x => is_dict x = false) urls -> UStr u ∈ urls ->
   _find_on_pages request find_proxies (UStr u :: urls) w
   = _find_on_pages request find_proxies urls w)
  /\ (is_dict d = true ->
      _find_on_pages request find_proxies (d :: d :: urls) w
      = bind (page_task request find_proxies d)
          (fun _ => _find_on_pages request find_proxies (d :: urls)) w).
Proof.
  split.
  - intros Hplain Hin.
    assert (Hno : existsb is_dict urls = false).
    { clear Hin. induction Hplain as [| x l Hx _ IH]; simpl; [reflexivity |].
      rewrite Hx, IH. reflexivity. }
    destruct urls as [| u1 urls]; [inversion Hin |].
    apply Forall_cons in Hplain as [H1 _].
    unfold _find_on_pages. rewrite H1. simpl is_dict. cbv iota.
    change (existsb is_dict (UStr u :: u1 :: urls))
      with (existsb is_dict (u1 :: urls)).
    rewrite Hno. unfold bind, ret.
    change (remove_dups (UStr u :: u1 :: urls))
      with (if decide_rel elem_of (UStr u) (u1 :: urls)
            then remove_dups (u1 :: urls)
            else UStr u :: remove_dups (u1 :: urls)).
    destruct (decide_rel elem_of (UStr u) (u1 :: urls)) as [_ | Hn];
      [reflexivity | destruct (Hn Hin)].
  - intros Hd. unfold _find_on_pages. rewrite Hd. reflexivity.
Qed.



Lemma within_weaken {A} a b (m : M Net St A) :
  (a <= b)%nat -> within a m -> within b m.
Proof. intros Hab Hm w. destruct (Hm w) as [H1 H2]. split; [nia | exact H2]. Qed.





End PagesMore.

(** * Further properties of discovery *)

Section DiscoveryMore.

Context {Net St : Type}.
Variable request : Request -> Net -> Outcome * Net.
Variable find_proxies : string -> St -> Res (list (string * string)) * St.

Implicit Types (w : World Net St).

Lemma append_inv_head (p a b : string) : p ++ a = p ++ b -> a = b.
Proof.
  induction p as [| c p IH]; [auto |].
  rewrite !append_cons. intros [= H]. auto.
Qed.

Lemma length_append (a b : string) :
  String.length (a ++ b) = (String.length a + String.length b)%nat.
Proof.
  induction a as [| c a IH]; [reflexivity |].
  rewrite append_cons. simpl. rewrite IH. reflexivity.
Qed.

Lemma append_inv_tail (a b s : string) : a ++ s = b ++ s -> a = b.
Proof.
  revert b. induction a as [| c a IH]; intros [| d b] H.
  - reflexivity.
  - apply (f_equal String.length) in H.
    rewrite !length_append in H. simpl in H. lia.
  - apply (f_equal String.length) in H.
    rewrite !length_append in H. simpl in H. lia.
  - rewrite !append_cons in H. injection H as -> H. f_equal. auto.
Qed.

Lemma elem_of_range a b x : x ∈ range a b <-> (a <= x < b)%Z.
Proof.
  unfold range. rewrite list_elem_of_In, in_map_iff. split.
  - intros (i & <- & Hi). apply in_seq in Hi. lia.
  - intros Hx. exists (Z.to_nat (x - a)). split; [lia |].
    apply in_seq. lia.
Qed.

Lemma length_range a b : length (range a b) = Z.to_nat (b - a).
Proof. unfold range. rewrite length_map, length_seq. reflexivity. Qed.

(** X10: [Proxylist_me] requests the pages [0 .. lastId - 1]: as many pages
    as the largest page number found, the page [lastId] itself is never
    among them. *)
Theorem Proxylist_me_page_range page ns lastId :
  ints_found Proxylist_me.exp page = Ok ns ->
  max ns = Ok lastId ->
  exists urls,
    Proxylist_me.page_urls page = Ok urls
    /\ length urls = Z.to_nat lastId
    /\ (forall n, UStr ("https://proxylist.me/?page=" ++ str n) ∈ urls
                  <-> (0 <= n < lastId)%Z).
Proof.
  intros Hns Hmax. unfold Proxylist_me.page_urls. rewrite Hns. simpl.
  rewrite Hmax. simpl. eexists. split; [reflexivity |]. split.
  - rewrite length_map, length_range. f_equal. lia.
  - intros n. rewrite list_elem_of_In, in_map_iff. split.
    + intros (m & Hm & Hin). injection Hm as Hm.
      apply append_inv_head in Hm. apply (inj pretty) in Hm. subst m.
      apply list_elem_of_In, elem_of_range in Hin. exact Hin.
    + intros Hn. exists n. split; [reflexivity |].
      apply list_elem_of_In, elem_of_range. exact Hn.
Qed.

(** The request list of one [Gatherproxy_com] tier holds one request
    for every page index from 1 to [lastPageId] and no other. *)
Lemma tier_urls_pages t lastPageId pid :
  UDict Gatherproxy_com.url (Some (Gatherproxy_com.form t pid)) None
    (Some Gatherproxy_com.method) ∈ Gatherproxy_com.tier_urls t lastPageId
  <-> (1 <= pid <= lastPageId)%Z.
Proof.
  unfold Gatherproxy_com.tier_urls.
  rewrite list_elem_of_In, in_map_iff. split.
  - intros (m & Hm & Hin). injection Hm as <-.
    apply list_elem_of_In, elem_of_range in Hin. lia.
  - intros Hp. exists pid. split; [reflexivity |].
    apply list_elem_of_In, elem_of_range. lia.
Qed.

(** X11: when the page-1 fetch of exactly one [Gatherproxy_com] tier
    succeeds, the list handed to [_find_on_pages] is the list of that
    tier, one request for each page index [1 .. lastPageId]. *)
Theorem Gatherproxy_com_single_tier w w1 w2 page ns lastPageId :
  page <> "" ->
  ints_found Gatherproxy_com.expNumPages page = Ok ns ->
  max ns = Ok lastPageId ->
  (get request Gatherproxy_com.url
     (Some (Gatherproxy_com.form "anonymous" 1)) None "POST" w = (Ok page, w1)
   -> get request Gatherproxy_com.url
        (Some (Gatherproxy_com.form "elite" 1)) None "POST" w1 = (Ok "", w2)
   -> Gatherproxy_com.discover request w
      = (Ok (Gatherproxy_com.tier_urls "anonymous" lastPageId), w2))
  /\ (get request Gatherproxy_com.url
        (Some (Gatherproxy_com.form "anonymous" 1)) None "POST" w = (Ok "", w1)
      -> get request Gatherproxy_com.url
           (Some (Gatherproxy_com.form "elite" 1)) None "POST" w1
         = (Ok page, w2)
      -> Gatherproxy_com.discover request w
         = (Ok (Gatherproxy_com.tier_urls "elite" lastPageId), w2))
  /\ (forall t pid,
         UDict Gatherproxy_com.url (Some (Gatherproxy_com.form t pid)) None
           (Some Gatherproxy_com.method)
         ∈ Gatherproxy_com.tier_urls t lastPageId
         <-> (1 <= pid <= lastPageId)%Z).
Proof.
  intros Hpage Hns Hmax. repeat apply conj.
  - intros Hg1 Hg2. unfold Gatherproxy_com.discover.
    rewrite (tiers_loop_match request _ _ _ _ _ _ _ _ Hg1 Hpage Hns Hmax).
    rewrite (tiers_loop_empty_page request _ _ _ _ _ Hg2). reflexivity.
  - intros Hg1 Hg2. unfold Gatherproxy_com.discover.
    rewrite (tiers_loop_empty_page request _ _ _ _ _ Hg1).
    rewrite (tiers_loop_match request _ _ _ _ _ _ _ _ Hg2 Hpage Hns Hmax).
    reflexivity.
  - intros t pid. apply tier_urls_pages.
Qed.

(** X12: the discovery of [Webanetlabs_net], [Checkerproxy_net] and
    [Proxynova_com] has no page count to compute: an index page without a
    usable link, empty or not, ends the run normally in the world that the
    index fetch left, with no further request. *)
Theorem linkless_index_is_harmless w w1 page :
  (get request "https://webanetlabs.net/publ/24" None None "GET" w
   = (Ok page, w1) ->
   re.findall1 Webanetlabs_net.exp page = [] ->
   Webanetlabs_net._pipe request find_proxies w = (Ok tt, w1))
  /\ (get request "https://checkerproxy.net/" None None "GET" w
      = (Ok page, w1) ->
      re.findall1 Checkerproxy_net.exp page = [] ->
      Checkerproxy_net._pipe request find_proxies w = (Ok tt, w1))
  /\ (get request "https://www.proxynova.com/proxy-server-list/" None None
        "GET" w = (Ok page, w1) ->
      (forall isoCode, isoCode ∈ re.findall1 Proxynova_com.expCountries page ->
                       isoCode = "en") ->
      Proxynova_com._pipe request find_proxies w = (Ok tt, w1)).
Proof.
  repeat apply conj.
  - intros Hget Hnone. unfold Webanetlabs_net._pipe, bind. rewrite Hget.
    destruct (negb (truthy page)); [reflexivity |].
    unfold Webanetlabs_net.page_urls. rewrite Hnone. reflexivity.
  - intros Hget Hnone. unfold Checkerproxy_net._pipe, bind. rewrite Hget.
    destruct (negb (truthy page)); [reflexivity |].
    unfold Checkerproxy_net.page_urls. rewrite Hnone. reflexivity.
  - intros Hget Hen. unfold Proxynova_com._pipe, bind. rewrite Hget.
    destruct (negb (truthy page)); [reflexivity |].
    unfold Proxynova_com.page_urls.
    induction (re.findall1 Proxynova_com.expCountries page) as [| c l IH];
      [reflexivity |].
    simpl. rewrite (Hen c (list_elem_of_here _ _)). simpl.
    apply IH. intros iso Hiso. apply Hen. right. exact Hiso.
Qed.

(** X13: [Proxy_list_org] and [My_proxy_com] append the index URL to the
    links they find: it is the last entry of every request list, so a
    non-empty index page without links is fetched again and parsed as a
    listing page. *)
Theorem index_page_is_listed w w1 page :
  (last (Proxy_list_org.page_urls page) = Some (UStr Proxy_list_org.url)
   /\ last (My_proxy_com.page_urls page) = Some (UStr My_proxy_com.url))
  /\ (page <> "" ->
      get request Proxy_list_org.url None None "GET" w = (Ok page, w1) ->
      re.findall1 Proxy_list_org.exp page = [] ->
      Proxy_list_org._pipe request find_proxies w
      = bind (_find_on_page request find_proxies Proxy_list_org.url None None
                "GET") (fun _ => ret tt) w1)
  /\ (page <> "" ->
      get request My_proxy_com.url None None "GET" w = (Ok page, w1) ->
      re.findall1 My_proxy_com.exp page = [] ->
      My_proxy_com._pipe request find_proxies w
      = bind (_find_on_page request find_proxies My_proxy_com.url None None
                "GET") (fun _ => ret tt) w1).
Proof.
  repeat apply conj.
  - unfold Proxy_list_org.page_urls. apply last_snoc.
  - unfold My_proxy_com.page_urls. apply last_snoc.
  - intros Hpage Hget Hnone. unfold Proxy_list_org._pipe, bind at 1.
    rewrite Hget. apply truthy_nonempty in Hpage. rewrite Hpage. simpl.
    unfold Proxy_list_org.page_urls. rewrite Hnone. reflexivity.
  - intros Hpage Hget Hnone. unfold My_proxy_com._pipe, bind at 1.
    rewrite Hget. apply truthy_nonempty in Hpage. rewrite Hpage. simpl.
    unfold My_proxy_com.page_urls. rewrite Hnone. reflexivity.
Qed.

(** X14: [Proxynova_com] never requests the list of the country code
    [en], whatever the index page holds. *)
Theorem Proxynova_com_skips_en page :
  UStr (Proxynova_com.tpl "en") ∉ Proxynova_com.page_urls page.
Proof.
  unfold Proxynova_com.page_urls. rewrite list_elem_of_In, in_flat_map.
  intros (iso & _ & Hin).
  destruct (String.eqb iso "en") eqn:E; [destruct Hin |].
  destruct Hin as [Heq | []]. injection Heq as Heq.
  unfold Proxynova_com.tpl in Heq.
  apply append_inv_head in Heq. apply append_inv_tail in Heq.
  subst iso. discriminate E.
Qed.

End DiscoveryMore.

(** * Further properties of the decoders *)

Section DecodersMore.

Lemma res_mapM_ok {A B} (f : A -> Res B) (l : list A) (bs : list B) :
  Forall2 (fun a b => f a = Ok b) l bs -> res_mapM f l = Ok bs.
Proof.
  induction 1 as [| a b l bs Hab _ IH]; simpl; [reflexivity |].
  rewrite Hab. simpl. rewrite IH. reflexivity.
Qed.

Lemma res_mapM_raise {A B} (f : A -> Res B) (pre : list A) x post e :
  Forall (fun a => exists b, f a = Ok b) pre ->
  f x = Raise e ->
  res_mapM f (pre ++ x :: post) = Raise e.
Proof.
  intros Hpre Hx. induction Hpre as [| a pre [b Hb] _ IH]; simpl.
  - rewrite Hx. reflexivity.
  - rewrite Hb. simpl. rewrite IH. reflexivity.
Qed.

(** X15: [Xseo_in.char_js_port_to_num] maps the symbols of an expression
    through the table, in order, skipping [+]: when every symbol is defined
    the result is the concatenation of their digits; otherwise it raises
    [KeyError] for the first symbol that the table lacks. *)
Theorem Xseo_in_decode_chars_spec (charEqNum : gmap string string)
  (chars : string) :
  (forall digits,
      Forall2 (fun ch d => charEqNum !! String ch "" = Some d)
        (symbols chars) digits ->
      Xseo_in.decode_chars charEqNum chars = Ok (join digits))
  /\ (forall pre ch post,
         symbols chars = (pre ++ ch :: post)%list ->
         Forall (fun c => is_Some (charEqNum !! String c "")) pre ->
         charEqNum !! String ch "" = None ->
         Xseo_in.decode_chars charEqNum chars
         = Raise (KeyError (String ch ""))).
Proof.
  split.
  - intros digits Hall. unfold Xseo_in.decode_chars. fold (symbols chars).
    rewrite (res_mapM_ok _ _ digits); [reflexivity |].
    eapply Forall2_impl; [exact Hall |].
    intros ch d H. unfold getitem. rewrite H. reflexivity.
  - intros pre ch post Hsym Hpre Hch.
    unfold Xseo_in.decode_chars. fold (symbols chars). rewrite Hsym.
    rewrite (res_mapM_raise _ pre ch post (KeyError (String ch "")));
      [reflexivity | |].
    + eapply Forall_impl; [exact Hpre |].
      intros c [d Hd]. exists d. unfold getitem. rewrite Hd. reflexivity.
    + unfold getitem. rewrite Hch. reflexivity.
Qed.

Lemma join_chars (s : string) :
  join (map (fun c => String c "") (list_ascii_of_string s)) = s.
Proof.
  induction s as [| c s IH]; [reflexivity |].
  simpl. unfold join in *. simpl. rewrite IH. reflexivity.
Qed.

Lemma scan_no_match (r : re.regex) (s : list ascii) :
  forall before,
    matches_of (re.scan r before s 0) = [] ->
    re.scan r before s 0 = map inl s.
Proof.
  induction s as [| c s IH]; intros before H; simpl in *.
  - destruct (re.match_at r before []) as [[n m] |]; [discriminate | reflexivity].
  - destruct (re.match_at r before (c :: s)) as [[n m] |]; [discriminate |].
    simpl in H. rewrite (IH _ H). reflexivity.
Qed.

(** [re.sub] leaves a string without match as it is. *)
Lemma sub_no_match (r : re.regex) (repl : re.matchobj -> Res string)
  (s : string) :
  re.finditer r s = [] -> re.sub r repl s = Ok s.
Proof.
  intros H. unfold re.sub. unfold re.finditer in H.
  rewrite (scan_no_match r _ None H).
  rewrite (res_mapM_ok _ _ (map (fun c => String c "") (list_ascii_of_string s))).
  - simpl. rewrite join_chars. reflexivity.
  - clear H. induction (list_ascii_of_string s) as [| c l IH].
    + constructor.
    + constructor; [reflexivity | exact IH].
Qed.

(** X16: on a page without port expression [Xseo_in.find_proxies] is the
    default extraction on the page as it is; its table is rebuilt from
    the page alone, whatever it held before. *)
Theorem Xseo_in_plain_page (_pattern : re.regex) (page : string)
  (st : gmap string string) :
  re.finditer Xseo_in.expPortOnJS page = [] ->
  Xseo_in.find_proxies _pattern page st
  = (Ok (_find_proxies _pattern page),
     dict_of (re.findall2 Xseo_in.expCharNum page)).
Proof.
  intros H. unfold Xseo_in.find_proxies, Xseo_in.rewrite.
  rewrite (sub_no_match _ _ _ H). reflexivity.
Qed.

Lemma define_all_keeps (res : list (string * string)) :
  forall (t : gmap string Z) k,
    let t' := snd (Spys_ru.define_all res t) in
    (is_Some (t !! k) -> is_Some (t' !! k))
    /\ ((forall num, (k, num) ∉ res) -> t' !! k = t !! k).
Proof.
  induction res as [| [char num] res IH]; intros t k; simpl.
  - auto.
  - destruct (Spys_ru.resolve t num) as [n | e]; simpl; [| auto].
    destruct (IH (<[char := n]> t) k) as [H1 H2]. split.
    + intros Hk. apply H1.
      destruct (decide (char = k)) as [-> | Hne].
      * rewrite lookup_insert_eq. eauto.
      * rewrite lookup_insert_ne by exact Hne. exact Hk.
    + intros Hno. rewrite H2.
      * apply lookup_insert_ne. intros ->. apply (Hno num). left.
      * intros num' Hin. apply (Hno num'). right. exact Hin.
Qed.

(** X17: the table of [Spys_ru] is the class attribute, updated in place: a
    page never removes a symbol, symbols that the page does not define
    keep their value, also when the page raises, and a port code may use
    a symbol that only an earlier page defined. *)
Theorem Spys_ru_table_persists (_pattern : re.regex) (page : string)
  (charEqNum : gmap string Z) (k : string) :
  let after := snd (Spys_ru.find_proxies _pattern page charEqNum) in
  (is_Some (charEqNum !! k) -> is_Some (after !! k))
  /\ ((forall num, (k, num) ∉ re.findall2 Spys_ru.expCharNum page) ->
      after !! k = charEqNum !! k).
Proof.
  unfold Spys_ru.find_proxies.
  pose proof (define_all_keeps (re.findall2 Spys_ru.expCharNum page)
                charEqNum k) as H.
  destruct (Spys_ru.define_all (re.findall2 Spys_ru.expCharNum page) charEqNum)
    as [[[] | e] t']; exact H.
Qed.

Lemma strip_plain (v : string) :
  name_ok v = true -> strip "()" ("(" ++ v ++ ")") = v.
Proof.
  intros Hv. unfold strip.
  change ("(" ++ v ++ ")") with (String "(" (v ++ ")")).
  change (lstrip (one_of "()") (String "(" (v ++ ")")))
    with (lstrip (one_of "()") (v ++ ")")).
  destruct v as [| c v].
  - reflexivity.
  - rewrite append_cons.
    assert (Hc : one_of "()" c = false).
    { simpl in Hv. apply andb_prop in Hv as [Hc _].
      apply (is_name_plain c Hc). }
    rewrite (lstrip_keep _ c _ Hc). rewrite <- append_cons.
    rewrite (rstrip_prefix _ _ _ (name_no_paren _ Hv)).
    simpl. rewrite append_nil_r. reflexivity.
Qed.

Lemma code_of_cons (g : string * string) (gs : list (string * string))
  (x : string) :
  code_of (g :: gs) ++ x = String "+" (group_text g ++ (code_of gs ++ x)).
Proof.
  change (code_of (g :: gs)) with (String "+" (group_text g ++ code_of gs)).
  rewrite append_cons, append_assoc. reflexivity.
Qed.

Lemma code_of_then_plus (gs : list (string * string)) (x : string) :
  exists z, code_of gs ++ String "+" x = String "+" z.
Proof.
  destruct gs as [| g gs]; [exists x; reflexivity |].
  rewrite code_of_cons. eauto.
Qed.

Lemma split_groups_then (gs : list (string * string)) (x : string) :
  Forall (fun g => name_ok (fst g) = true /\ name_ok (snd g) = true) gs ->
  split "+" (code_of gs ++ String "+" x)
  = ("" :: map group_text gs ++ split "+" x)%list.
Proof.
  induction 1 as [| g gs [H1 H2] _ IH].
  - change (code_of [] ++ String "+" x) with (String "+" x).
    apply split_sep_head.
  - rewrite code_of_cons, split_sep_head.
    destruct (code_of_then_plus gs x) as [z Hz].
    rewrite Hz in IH |- *. rewrite split_sep_head in IH.
    injection IH as IH.
    rewrite (split_nosep_app "+" _ _ (group_no_plus g H1 H2)), IH.
    reflexivity.
Qed.

Lemma digit_of_names (charEqNum : gmap string Z) gs digits :
  Forall2 (digit_of charEqNum) gs digits ->
  Forall (fun g => name_ok (fst g) = true /\ name_ok (snd g) = true) gs.
Proof.
  induction 1 as [| g d gs ds (H1 & H2 & _) _ IH]; constructor; auto.
Qed.

(** The port code made of the groups [gs], then the text [bad] as one more
    group, then [suffix]: nothing, or further groups. *)
Lemma split_bad_group (gs : list (string * string)) (bad suffix : string) :
  Forall (fun g => name_ok (fst g) = true /\ name_ok (snd g) = true) gs ->
  all_chars (fun c => negb (Ascii.eqb c "+")) bad = true ->
  suffix = "" \/ (exists tail, suffix = String "+" tail) ->
  exists rest,
    drop 1 (split "+" (code_of gs ++ String "+" (bad ++ suffix)))
    = (map group_text gs ++ bad :: rest)%list.
Proof.
  intros Hgs Hbad Hsuf. rewrite (split_groups_then gs _ Hgs). simpl drop.
  destruct Hsuf as [-> | [tail ->]].
  - rewrite append_nil_r, (split_nosep "+" bad Hbad). eauto.
  - rewrite (split_nosep_app "+" bad tail Hbad). eauto.
Qed.

(** X18: in a port code of [Spys_ru], a group without [^] makes the
    unpacking of [split('^')] raise [ValueError], and a group whose first
    symbol is not in the table raises [KeyError], whatever follows the
    group; the groups before it are decoded and lost. *)
Theorem Spys_ru_bad_group (charEqNum : gmap string Z)
  (gs : list (string * string)) (digits : list string) (suffix : string) :
  Forall2 (digit_of charEqNum) gs digits ->
  suffix = "" \/ (exists tail, suffix = String "+" tail) ->
  (forall v,
      name_ok v = true ->
      Spys_ru.decode_code charEqNum
        (code_of gs ++ String "+" (("(" ++ v ++ ")") ++ suffix))
      = Raise (ValueError "not enough values to unpack (expected 2)"))
  /\ (forall v1 v2,
         name_ok v1 = true -> name_ok v2 = true ->
         charEqNum !! v1 = None ->
         Spys_ru.decode_code charEqNum
           (code_of gs ++ String "+" (group_text (v1, v2) ++ suffix))
         = Raise (KeyError v1)).
Proof.
  intros Hall Hsuf.
  assert (Hgen : forall tail e,
             (forall num, Spys_ru.port_loop charEqNum tail num = Raise e) ->
             forall num,
               Spys_ru.port_loop charEqNum (map group_text gs ++ tail) num
               = Raise e).
  { intros tail e Htail. induction Hall as [| g d gs ds Hd _ IH];
      intros num; simpl; [apply Htail |].
    rewrite (group_digit_text charEqNum g d Hd). simpl. apply IH. }
  pose proof (digit_of_names charEqNum gs digits Hall) as Hnames.
  split.
  - intros v Hv. unfold Spys_ru.decode_code.
    destruct (split_bad_group gs ("(" ++ v ++ ")") suffix Hnames) as [rest ->];
      [| exact Hsuf |].
    + change ("(" ++ v ++ ")") with (String "(" (v ++ ")")). simpl.
      rewrite all_chars_app, (name_no_plus v Hv). reflexivity.
    + apply Hgen. intros num. simpl.
      unfold Spys_ru.group_digit. rewrite (strip_plain v Hv).
      rewrite (split_nosep "^" v (name_no_caret v Hv)). reflexivity.
  - intros v1 v2 H1 H2 Hnone. unfold Spys_ru.decode_code.
    destruct (split_bad_group gs (group_text (v1, v2)) suffix Hnames)
      as [rest ->]; [| exact Hsuf |].
    + apply (group_no_plus (v1, v2)); assumption.
    + apply Hgen. intros num. simpl.
      unfold Spys_ru.group_digit. rewrite (strip_group v1 v2 H1 H2).
      rewrite (split_nosep_app "^" v1 v2 (name_no_caret v1 H1)).
      rewrite (split_nosep "^" v2 (name_no_caret v2 H2)). simpl.
      unfold getitem. rewrite Hnone. reflexivity.
Qed.

End DecodersMore.

(** * Further properties of the gate and of a run *)

Section GateMore.
Import Gate.

Lemma tries_left_insert (l : list pc) (j : nat) (old new : pc) (v v' : Z)
  (i : nat) :
  l !! j = Some old ->
  tries_left_at (MkState v' (<[j := new]> l)) i
  = if Nat.eqb i j then tries_left new else tries_left_at (MkState v l) i.
Proof.
  intros Hj. unfold tries_left_at; simpl.
  destruct (Nat.eqb_spec i j) as [-> | Hne].
  - rewrite list_lookup_insert_eq; [reflexivity |].
    apply lookup_lt_Some in Hj. exact Hj.
  - rewrite list_lookup_insert_ne by congruence. reflexivity.
Qed.

Lemma tries_left_after_attempt tries r :
  (tries_left (after_attempt tries r) <= tries)%nat.
Proof.
  unfold after_attempt. destruct r as [p | e]; [destruct (truthy p) |];
    simpl; lia.
Qed.

Lemma step_tries_left (ev : event) (st st' : state) (i : nat) :
  step ev st = Some st' ->
  (acquires i [ev] + tries_left_at st' i <= tries_left_at st i)%nat.
Proof.
  destruct st as [v l]. destruct ev as [j | j o | j]; simpl; intros Hstep.
  - destruct (l !! j) as [[[| t] page | t | r] |] eqn:Hj; try discriminate.
    destruct (0 <? v)%Z; [| discriminate]. injection Hstep as <-.
    rewrite (tries_left_insert l j _ _ v _ i Hj).
    destruct (Nat.eqb_spec i j) as [-> | Hne]; simpl; [| lia].
    unfold tries_left_at; simpl. rewrite Hj. simpl. lia.
  - destruct (l !! j) as [[t page | t | r] |] eqn:Hj; try discriminate.
    injection Hstep as <-.
    rewrite (tries_left_insert l j _ _ v _ i Hj).
    destruct (Nat.eqb_spec i j) as [-> | Hne]; simpl; [| lia].
    unfold tries_left_at; simpl. rewrite Hj. simpl.
    apply tries_left_after_attempt.
  - destruct (l !! j) as [[[| t] page | t | r] |] eqn:Hj; try discriminate.
    injection Hstep as <-.
    rewrite (tries_left_insert l j _ _ v _ i Hj).
    destruct (Nat.eqb_spec i j) as [-> | Hne]; simpl; lia.
Qed.

Lemma run_tries_left (evs : list event) (i : nat) :
  forall st st',
    run evs st = Some st' ->
    (acquires i evs + tries_left_at st' i <= tries_left_at st i)%nat.
Proof.
  induction evs as [| ev evs IH]; intros st st' Hrun; simpl in Hrun.
  - injection Hrun as <-. simpl. lia.
  - destruct (step ev st) as [st1 |] eqn:Hstep; [| discriminate].
    pose proof (step_tries_left ev st st1 i Hstep) as H1.
    pose proof (IH st1 st' Hrun) as H2.
    assert (Hsplit : acquires i (ev :: evs)
                     = (acquires i [ev] + acquires i evs)%nat).
    { destruct ev; simpl; lia. }
    lia.
Qed.

(** X19: under every schedule, a page task passes the semaphore, and so
    sends a request, at most [max_tries] times; what it has used and what
    it may still use never exceed [max_tries]. *)
Theorem task_request_bound (c : Z) (n tries : nat) (evs : list event)
  (st : state) (i : nat) :
  run evs (init c n tries) = Some st ->
  (acquires i evs + tries_left_at st i <= tries)%nat.
Proof.
  intros Hrun. pose proof (run_tries_left evs i _ _ Hrun) as H.
  assert (Hinit : (tries_left_at (init c n tries) i <= tries)%nat).
  { unfold tries_left_at, init; simpl.
    destruct (replicate n (AtGate tries None) !! i) as [p |] eqn:Hp; [| lia].
    apply lookup_replicate in Hp as [-> _]. simpl. lia. }
  lia.
Qed.

End GateMore.

Section RunMore.

Context {Net St : Type}.
Variable request : Request -> Net -> Outcome * Net.
Variable find_proxies : string -> St -> Res (list (string * string)) * St.

(** X9: a run of [get_proxies] only adds to the set of the provider: the
    records it had are kept, and the other attributes ([domain], [url],
    [proto], [max_tries], [timeout], [max_conn]) are those it had, also
    when the run raises. *)
Theorem run_only_adds (pipe : M Net St unit) (w : World Net St) :
  pipe_of request find_proxies pipe ->
  let w' := snd (get_proxies pipe w) in
  proxies (self w) ⊆ proxies (self w')
  /\ set__proxies (proxies (self w)) (self w') = self w.
Proof.
  intros Hpipe.
  pose (I := fun p : Provider =>
               proxies (self w) ⊆ proxies p
               /\ set__proxies (proxies (self w)) p = self w).
  assert (HI : forall p new, I p -> I (proxies_setter p new)).
  { intros p new [Hsub Hcfg]. split.
    - unfold proxies, proxies_setter in *; simpl.
      etransitivity; [exact Hsub | apply union_subseteq_l].
    - exact Hcfg. }
  apply (keeps_get_proxies I pipe
           (keeps_pipe_of request find_proxies I pipe HI Hpipe) w).
  split; [reflexivity |]. destruct (self w); reflexivity.
Qed.

End RunMore.

(** * What the patterns of the module capture *)

Section Captures.
Import re.

(** Every result of the matcher is a match. *)
Lemma exec_matched (r : regex) :
  forall st k out,
    exec r st k = Some out ->
    exists st1, matched r st st1 /\ k st1 = Some out.
Proof.
  induction r as [| p | r1 IH1 r2 IH2 | r1 IH1 r2 IH2 | greedy r1 IH1
                  | i r1 IH1 | | positive r1 IH1];
    intros st k out H; simpl in H.
  - exists st. split; [constructor | exact H].
  - destruct (rest st) as [| c s'] eqn:E; [discriminate |].
    destruct (p c) eqn:Hp; [| discriminate].
    eexists. split; [econstructor; eassumption | exact H].
  - apply IH1 in H as (st1 & H1 & H).
    apply IH2 in H as (st2 & H2 & H).
    exists st2. split; [econstructor; eassumption | exact H].
  - destruct (exec r1 st k) as [o |] eqn:E.
    + injection H as ->. apply IH1 in E as (st1 & H1 & Hk).
      exists st1. split; [apply matched_Alt_l, H1 | exact Hk].
    + apply IH2 in H as (st1 & H1 & Hk).
      exists st1. split; [apply matched_Alt_r, H1 | exact Hk].
  - revert H. generalize (length (rest st)) as fuel. intros fuel. revert st.
    induction fuel as [| fuel IHf]; intros st H.
    + exists st. split; [constructor | exact H].
    + destruct greedy.
      * destruct (exec r1 st _) as [o |] eqn:E.
        -- injection H as ->. apply IH1 in E as (st1 & H1 & Hk).
           destruct (length (rest st1) <? length (rest st))%nat;
             [| discriminate].
           apply IHf in Hk as (st2 & H2 & Hk).
           exists st2. split; [econstructor; eassumption | exact Hk].
        -- exists st. split; [constructor | exact H].
      * destruct (k st) as [o |] eqn:E.
        -- injection H as ->. exists st. split; [constructor | exact E].
        -- apply IH1 in H as (st1 & H1 & Hk).
           destruct (length (rest st1) <? length (rest st))%nat;
             [| discriminate].
           apply IHf in Hk as (st2 & H2 & Hk).
           exists st2. split; [econstructor; eassumption | exact Hk].
  - apply IH1 in H as (st1 & H1 & Hk).
    eexists. split; [econstructor; eassumption | exact Hk].
  - destruct (at_boundary st) eqn:E; [| discriminate].
    exists st. split; [constructor; exact E | exact H].
  - destruct (exec r1 st Some) as [st1 |] eqn:E.
    + destruct positive; [| discriminate].
      apply IH1 in E as (st1' & H1 & [= ->]).
      eexists. split; [econstructor; eassumption | exact H].
    + destruct positive; [discriminate |].
      exists st. split; [constructor | exact H].
Qed.

Lemma matched_consumes r st st' :
  matched r st st' -> exists w, rest st = (w ++ rest st')%list.
Proof.
  induction 1 as [st | p c s' st E Hp | r1 r2 st st1 st2 _ [w1 H1] _ [w2 H2]
                  | r1 r2 st st1 _ IH | r1 r2 st st1 _ IH | g r st
                  | g r st st1 st2 _ [w1 H1] _ [w2 H2] | i r st st1 _ IH
                  | st Hb | r st st1 _ IH | r st]; simpl;
    try (exists []; reflexivity); try exact IH.
  - exists [c]. exact E.
  - exists (w1 ++ w2)%list. rewrite H1, H2, app_assoc. reflexivity.
  - exists (w1 ++ w2)%list. rewrite H1, H2, app_assoc. reflexivity.
Qed.

Lemma matched_groupless r st st' :
  matched r st st' -> groupless r = true -> caps st' = caps st.
Proof.
  induction 1; simpl; intros Hg; try reflexivity;
    try (apply andb_prop in Hg as [Hg1 Hg2]); try discriminate; auto.
  - rewrite IHmatched2, IHmatched1; auto.
  - rewrite IHmatched2, IHmatched1; auto.
Qed.

Lemma matched_seq_prefix a b st st' :
  matched (Seq a b) st st' -> groupless a = true ->
  exists st1, caps st1 = caps st /\ matched b st1 st'.
Proof.
  intros H Ha. inversion H as [| | r1 r2 s s1 s2 H1 H2 | | | | | | | |]; subst.
  exists s1. split; [apply (matched_groupless a); assumption | exact H2].
Qed.

Lemma matched_star_cls g p st st' :
  matched (Star g (Cls p)) st st' ->
  exists w, rest st = (w ++ rest st')%list
            /\ Forall (fun c => p c = true) w /\ caps st' = caps st.
Proof.
  remember (Star g (Cls p)) as r eqn:Er. intros H.
  induction H as [| | | | | g' r' st | g' r' st st1 st2 H1 _ H2 IH2 | | | |];
    try discriminate Er.
  - exists []. auto.
  - injection Er as -> ->. destruct (IH2 eq_refl) as (w & Hw & Hall & Hc).
    inversion H1 as [| p' c s' s0 E Hp | | | | | | | | |]; subst.
    simpl in *. exists (c :: w). rewrite E, Hw. repeat split; auto.
Qed.

Lemma firstn_consumed {A} (w r : list A) :
  firstn (length (w ++ r) - length r) (w ++ r) = w.
Proof.
  rewrite length_app. replace (length w + length r - length r)%nat
    with (length w) by lia.
  rewrite firstn_app, Nat.sub_diag, firstn_all. simpl. apply app_nil_r.
Qed.

(** The group [(p+)] captures one character or more, all in the class. *)
Lemma matched_group_plus g i p st st' :
  matched (Group i (Plus g (Cls p))) st st' ->
  exists c w, caps st' = (i, c :: w) :: caps st
              /\ p c = true /\ Forall (fun x => p x = true) w.
Proof.
  intros H. inversion H as [| | | | | | | j r s s1 H1 | | |]; subst.
  unfold Plus in H1.
  inversion H1 as [| | r1 r2 s0 s2 s3 Hc Hs | | | | | | | |]; subst.
  inversion Hc as [| p' c s' s0 E Hp | | | | | | | | |]; subst.
  apply matched_star_cls in Hs as (w & Hw & Hall & Hcaps). simpl in *.
  exists c, w. rewrite Hcaps. repeat split; auto.
  f_equal. f_equal. rewrite E, Hw.
  apply (firstn_consumed (c :: w) (rest s1)).
Qed.

(** The group [(p)] captures one character of the class. *)
Lemma matched_group_cls i p st st' :
  matched (Group i (Cls p)) st st' ->
  exists c, caps st' = (i, [c]) :: caps st /\ p c = true.
Proof.
  intros H. inversion H as [| | | | | | | j r s s1 H1 | | |]; subst.
  inversion H1 as [| p' c s' s0 E Hp | | | | | | | | |]; subst. simpl.
  exists c. split; [| exact Hp]. f_equal. f_equal. rewrite E.
  apply (firstn_consumed [c] s').
Qed.

(** Every match reported by [finditer] comes from a run of the matcher
    that starts without captures. *)
Lemma scan_exec (r : regex) (m : matchobj) (s : list ascii) :
  forall before skip,
    m ∈ matches_of (scan r before s skip) ->
    exists before' s0 st,
      exec r (MState before' s0 []) Some = Some st /\ captured m = caps st.
Proof.
  assert (Hat : forall before s0 n m',
             match_at r before s0 = Some (n, m') ->
             exists st, exec r (MState before s0 []) Some = Some st
                        /\ captured m' = caps st).
  { intros before s0 n m'. unfold match_at.
    destruct (exec r (MState before s0 []) Some) as [st |]; [| discriminate].
    intros [= _ <-]. exists st. auto. }
  induction s as [| c s IH]; intros before skip Hin.
  - destruct skip; simpl in Hin; [| inversion Hin].
    destruct (match_at r before []) as [[n m'] |] eqn:E; [| inversion Hin].
    simpl in Hin. apply list_elem_of_singleton in Hin as ->.
    destruct (Hat _ _ _ _ E) as (st & H1 & H2). eauto.
  - destruct skip as [| skip]; simpl in Hin; [| apply (IH _ _ Hin)].
    destruct (match_at r before (c :: s)) as [[n m'] |] eqn:E.
    + simpl in Hin. apply elem_of_cons in Hin as [-> | Hin].
      * destruct (Hat _ _ _ _ E) as (st & H1 & H2). eauto.
      * destruct n; [apply (IH _ 0%nat Hin) | apply (IH _ _ Hin)].
    + simpl in Hin. apply (IH _ 0%nat Hin).
Qed.

Lemma finditer_exec (r : regex) (s : string) (m : matchobj) :
  m ∈ finditer r s ->
  exists before s0 st,
    exec r (MState before s0 []) Some = Some st /\ captured m = caps st.
Proof. apply scan_exec. Qed.

End Captures.

Section Tokens.
Import re.

Lemma all_chars_of_list (p : ascii -> bool) (w : list ascii) :
  Forall (fun c => p c = true) w ->
  all_chars p (string_of_list_ascii w) = true.
Proof.
  induction 1 as [| c w Hc _ IH]; simpl; [reflexivity |].
  rewrite Hc, IH. reflexivity.
Qed.

Ltac peel H :=
  let st := fresh "st" in
  let Hc := fresh "Hc" in
  apply matched_seq_prefix in H as (st & Hc & H); [| reflexivity].

Lemma Proxylist_me_exp_captures before s0 st :
  exec Proxylist_me.exp (MState before s0 []) Some = Some st ->
  exists c w, caps st = [(1%nat, c :: w)]
              /\ is_digit c = true /\ Forall (fun x => is_digit x = true) w.
Proof.
  intros H. apply exec_matched in H as (st1 & Hm & [= ->]).
  unfold Proxylist_me.exp in Hm. cbn [Seqs] in Hm.
  do 8 peel Hm.
  inversion Hm as [| | r1 r2 s s1 s2 Hg Hq | | | | | | | |]; subst.
  apply matched_group_plus in Hg as (c & w & Hcaps & Hdig & Hw).
  rewrite (matched_groupless _ _ _ Hq eq_refl), Hcaps.
  exists c, w. repeat split; auto. simpl in *. congruence.
Qed.

Lemma Gatherproxy_com_exp_captures before s0 st :
  exec Gatherproxy_com.expNumPages (MState before s0 []) Some = Some st ->
  exists c w, caps st = [(1%nat, c :: w)]
              /\ is_digit c = true /\ Forall (fun x => is_digit x = true) w.
Proof.
  intros H. apply exec_matched in H as (st1 & Hm & [= ->]).
  unfold Gatherproxy_com.expNumPages in Hm. cbn [Seqs] in Hm.
  do 3 peel Hm.
  inversion Hm as [| | r1 r2 s s1 s2 Hg Hq | | | | | | | |]; subst.
  apply matched_group_plus in Hg as (c & w & Hcaps & Hdig & Hw).
  rewrite (matched_groupless _ _ _ Hq eq_refl), Hcaps.
  exists c, w. repeat split; auto. simpl in *. congruence.
Qed.

Lemma findall1_tokens (r : regex) (page : string) :
  (forall before s0 st,
      exec r (MState before s0 []) Some = Some st ->
      exists c w, caps st = [(1%nat, c :: w)]
                  /\ is_digit c = true
                  /\ Forall (fun x => is_digit x = true) w) ->
  Forall digits_token (findall1 r page).
Proof.
  intros Hr. unfold findall1. apply Forall_map, Forall_forall.
  intros m Hm. apply finditer_exec in Hm as (before & s0 & st & He & Hcap).
  destruct (Hr _ _ _ He) as (c & w & Hcaps & Hc & Hw).
  unfold group. rewrite Hcap, Hcaps.
  cbn [assoc Nat.eqb string_of_list_ascii]. split; [discriminate |].
  cbn [all_chars]. rewrite Hc. apply (all_chars_of_list is_digit w Hw).
Qed.

Lemma digit_not_space c : is_digit c = true -> is_int_space c = false.
Proof.
  destruct c as [[] [] [] [] [] [] [] []]; vm_compute; intros H;
    try discriminate H; reflexivity.
Qed.

Lemma digit_value c : is_digit c = true -> (0 <= Z.of_N (code c) - 48 <= 9)%Z.
Proof.
  destruct c as [[] [] [] [] [] [] [] []]; vm_compute; intros H;
    try discriminate H; split; discriminate.
Qed.

Lemma int_digits_total (s : string) :
  forall acc,
    all_chars is_digit s = true -> (0 <= acc)%Z ->
    exists n, int_digits acc true s = Some n /\ (0 <= n)%Z.
Proof.
  induction s as [| c s IH]; intros acc Hs Hacc; simpl.
  - eauto.
  - simpl in Hs. apply andb_prop in Hs as [Hc Hs]. rewrite Hc.
    apply IH; [exact Hs |]. pose proof (digit_value c Hc). lia.
Qed.

Lemma rstrip_all_kept (p : ascii -> bool) (s : string) :
  all_chars (fun c => negb (p c)) s = true -> rstrip p s = s.
Proof.
  intros H. rewrite <- (append_nil_r s) at 1.
  rewrite (rstrip_prefix p s "" H). apply append_nil_r.
Qed.

(** [int] counts every character of a token of digits. *)
Lemma leading_digits_token (s : string) :
  all_chars is_digit s = true ->
  leading_digits s = Z.of_nat (String.length s).
Proof.
  induction s as [| c s IH]; intros Hs; [reflexivity |].
  simpl in Hs. apply andb_prop in Hs as [Hc Hs].
  cbn [leading_digits String.length]. rewrite Hc, (IH Hs). lia.
Qed.

(** What [int] does with a token of digits: the limit of the length
    decides, and within it the digits do. *)
Lemma int_token (t : string) :
  digits_token t ->
  int t
  = if (max_str_digits <? Z.of_nat (String.length t))%Z then
      Raise int_limit_error
    else match int_digits 0 false t with
         | Some n => Ok n
         | None =>
             Raise (ValueError
                      ("invalid literal for int() with base 10: " ++ t))
         end.
Proof.
  intros [Hne Hall]. destruct t as [| c t]; [congruence |].
  pose proof Hall as Hall'. simpl in Hall'.
  apply andb_prop in Hall' as [Hc Ht].
  rewrite <- (leading_digits_token _ Hall).
  unfold int.
  rewrite (lstrip_keep is_int_space c t (digit_not_space c Hc)).
  rewrite rstrip_all_kept.
  2:{ apply (all_chars_impl is_digit); [| exact Hall].
      intros x Hx. rewrite (digit_not_space x Hx). reflexivity. }
  destruct c as [[] [] [] [] [] [] [] []]; try discriminate Hc; reflexivity.
Qed.

(** [int] accepts every token of digits within the limit. *)
Lemma int_digits_token (t : string) :
  digits_token t -> within_limit t ->
  exists n, int t = Ok n /\ (0 <= n)%Z.
Proof.
  intros Htok Hlim. rewrite (int_token t Htok).
  destruct Htok as [Hne Hall]. destruct t as [| c t]; [congruence |].
  simpl in Hall. apply andb_prop in Hall as [Hc Ht].
  destruct (int_digits_total t (Z.of_N (code c) - 48) Ht) as (n & Hn & Hpos).
  { pose proof (digit_value c Hc). lia. }
  assert (Hparse : int_digits 0 false (String c t) = Some n).
  { simpl. rewrite Hc. exact Hn. }
  rewrite Hparse.
  replace (max_str_digits <? Z.of_nat (String.length (String c t)))%Z
    with false by (symmetry; apply Z.ltb_ge, Hlim).
  eauto.
Qed.

(** [int] refuses every token of digits above the limit. *)
Lemma int_long_token (t : string) :
  digits_token t -> ~ within_limit t ->
  int t
  = Raise int_limit_error.
Proof.
  intros Htok Hlim. rewrite (int_token t Htok).
  replace (max_str_digits <? Z.of_nat (String.length t))%Z with true;
    [reflexivity |].
  symmetry. apply Z.ltb_lt. unfold within_limit in Hlim. lia.
Qed.

Lemma ints_of_tokens (tokens : list string) :
  Forall digits_token tokens -> Forall within_limit tokens ->
  exists ns, res_mapM int tokens = Ok ns
             /\ length ns = length tokens /\ Forall (fun n => (0 <= n)%Z) ns.
Proof.
  induction 1 as [| t tokens Ht _ IH]; intros Hlim; simpl.
  - exists []. auto.
  - apply Forall_cons in Hlim as [Hl Hlim].
    destruct (IH Hlim) as (ns & Hns & Hlen & Hpos).
    destruct (int_digits_token t Ht Hl) as (n & Hn & Hn0).
    rewrite Hn, Hns. simpl.
    exists (n :: ns). simpl. auto.
Qed.

(** The first token above the limit makes the whole list of numbers fail. *)
Lemma ints_of_long_token (tokens : list string) :
  Forall digits_token tokens -> ~ Forall within_limit tokens ->
  res_mapM int tokens
  = Raise int_limit_error.
Proof.
  induction 1 as [| t tokens Ht _ IH]; intros Hlim; simpl.
  - destruct Hlim. constructor.
  - destruct (Z.leb_spec (Z.of_nat (String.length t)) max_str_digits)
      as [Hl | Hl].
    + destruct (int_digits_token t Ht Hl) as (n & Hn & _). rewrite Hn.
      rewrite IH; [reflexivity |].
      intros Hall. apply Hlim. constructor; assumption.
    + rewrite (int_long_token t Ht); [reflexivity |].
      unfold within_limit. lia.
Qed.

(** X20: the page numbers that the patterns of [Proxylist_me] and
    [Gatherproxy_com] capture are tokens of digits, and [int] converts
    such a token exactly when it has at most 4300 digits.  So on a page
    whose page numbers are within that limit the list of numbers is
    computed, one number per match and none negative, and [max] on the
    empty list is the only failure of the parsing step of [Proxylist_me];
    on a page with a longer page number the list of numbers is not
    computed: [int] raises [ValueError]. *)
Theorem page_numbers_parse_within_limit (page : string) :
  Forall digits_token (findall1 Proxylist_me.exp page)
  /\ Forall digits_token (findall1 Gatherproxy_com.expNumPages page)
  /\ (Forall within_limit (findall1 Proxylist_me.exp page) ->
      exists ns, ints_found Proxylist_me.exp page = Ok ns
                 /\ length ns = length (findall1 Proxylist_me.exp page)
                 /\ Forall (fun n => (0 <= n)%Z) ns)
  /\ (Forall within_limit (findall1 Gatherproxy_com.expNumPages page) ->
      exists ns, ints_found Gatherproxy_com.expNumPages page = Ok ns
                 /\ length ns
                    = length (findall1 Gatherproxy_com.expNumPages page)
                 /\ Forall (fun n => (0 <= n)%Z) ns)
  /\ (Forall within_limit (findall1 Proxylist_me.exp page) ->
      forall e, Proxylist_me.page_urls page = Raise e ->
                findall1 Proxylist_me.exp page = []
                /\ e = ValueError "max() arg is an empty sequence")
  /\ (~ Forall within_limit (findall1 Proxylist_me.exp page) ->
      ints_found Proxylist_me.exp page
      = Raise int_limit_error
      /\ Proxylist_me.page_urls page
         = Raise int_limit_error)
  /\ (~ Forall within_limit (findall1 Gatherproxy_com.expNumPages page) ->
      ints_found Gatherproxy_com.expNumPages page
      = Raise int_limit_error)
  /\ (forall t, digits_token t ->
                (within_limit t -> exists n, int t = Ok n /\ (0 <= n)%Z)
                /\ (~ within_limit t ->
                    int t
                    = Raise int_limit_error)).
Proof.
  assert (T1 := findall1_tokens _ page Proxylist_me_exp_captures).
  assert (T2 := findall1_tokens _ page Gatherproxy_com_exp_captures).
  repeat apply conj; try assumption.
  - intros Hlim. apply (ints_of_tokens _ T1 Hlim).
  - intros Hlim. apply (ints_of_tokens _ T2 Hlim).
  - intros Hlim e. unfold Proxylist_me.page_urls, ints_found.
    destruct (ints_of_tokens _ T1 Hlim) as (ns & Hns & Hlen & _).
    rewrite Hns. simpl.
    destruct ns as [| n ns]; simpl; [| discriminate].
    intros [= <-]. split; [| reflexivity].
    destruct (findall1 Proxylist_me.exp page); [reflexivity | discriminate].
  - intros Hlim.
    assert (E : ints_found Proxylist_me.exp page
                = Raise int_limit_error)
      by apply (ints_of_long_token _ T1 Hlim).
    split; [exact E |].
    unfold Proxylist_me.page_urls. rewrite E. reflexivity.
  - intros Hlim. apply (ints_of_long_token _ T2 Hlim).
  - intros t Ht. split.
    + apply int_digits_token, Ht.
    + apply int_long_token, Ht.
Qed.

End Tokens.

Section XseoTable.
Import re.

Ltac peel H :=
  let st := fresh "st" in
  let Hc := fresh "Hc" in
  apply matched_seq_prefix in H as (st & Hc & H); [| reflexivity].

Lemma Xseo_in_expCharNum_captures before s0 st :
  exec Xseo_in.expCharNum (MState before s0 []) Some = Some st ->
  exists c d, caps st = [(2%nat, [d]); (1%nat, [c])]
              /\ is_lower c = true /\ is_digit d = true.
Proof.
  intros H. apply exec_matched in H as (st1 & Hm & [= ->]).
  unfold Xseo_in.expCharNum in Hm. cbn [Seqs] in Hm.
  peel Hm.
  inversion Hm as [| | r1 r2 s s1 s2 Hg1 Hrest | | | | | | | |]; subst.
  apply matched_group_cls in Hg1 as (c & Hcaps1 & Hlow).
  peel Hrest.
  inversion Hrest as [| | r1 r2 s s3 s4 Hg2 Hsemi | | | | | | | |]; subst.
  apply matched_group_cls in Hg2 as (d & Hcaps2 & Hdig).
  rewrite (matched_groupless _ _ _ Hsemi eq_refl), Hcaps2.
  exists c, d. repeat split; auto. simpl in *. congruence.
Qed.

(** The table read from a page holds single lower-case letters with
    single digits. *)
Lemma Xseo_in_table_entries (page : string) :
  Forall (fun kv => exists c d, kv = (String c "", String d "")
                                /\ is_lower c = true /\ is_digit d = true)
    (findall2 Xseo_in.expCharNum page).
Proof.
  unfold findall2. apply Forall_map, Forall_forall.
  intros m Hm. apply finditer_exec in Hm as (before & s0 & st & He & Hcap).
  destruct (Xseo_in_expCharNum_captures _ _ _ He) as (c & d & Hcaps & Hc & Hd).
  exists c, d. unfold group. rewrite Hcap, Hcaps. auto.
Qed.

Lemma dict_of_lookup {V} (pairs : list (string * V)) (k : string) (v : V) :
  dict_of pairs !! k = Some v -> (k, v) ∈ pairs.
Proof.
  unfold dict_of.
  assert (H : forall acc : gmap string V,
             fold_left (fun d kv => <[fst kv := snd kv]> d) pairs acc !! k
             = Some v ->
             (k, v) ∈ pairs \/ acc !! k = Some v).
  { induction pairs as [| [k' v'] pairs IH]; intros acc Hl; simpl in Hl.
    - right. exact Hl.
    - destruct (IH _ Hl) as [Hin | Hacc]; [left; right; exact Hin |].
      simpl in Hacc. destruct (decide (k' = k)) as [-> | Hne].
      + rewrite lookup_insert_eq in Hacc. injection Hacc as ->. left. left.
      + rewrite lookup_insert_ne in Hacc by exact Hne. right. exact Hacc. }
  intros Hl. destruct (H ∅ Hl) as [Hin | Hempty]; [exact Hin |].
  rewrite lookup_empty in Hempty. discriminate.
Qed.

Lemma res_mapM_inv {A B} (f : A -> Res B) (l : list A) :
  forall bs, res_mapM f l = Ok bs -> Forall2 (fun a b => f a = Ok b) l bs.
Proof.
  induction l as [| a l IH]; intros bs H; simpl in H.
  - injection H as <-. constructor.
  - destruct (f a) as [b | e] eqn:Ea; [| discriminate]. simpl in H.
    destruct (res_mapM f l) as [bs' | e]; [| discriminate]. simpl in H.
    injection H as <-. constructor; auto.
Qed.

(** X21: with the table that [Xseo_in.find_proxies] reads from a page, a
    port expression that decodes at all decodes to decimal digits, one
    for each symbol of the expression. *)
Theorem Xseo_in_ports_are_digits (page chars port : string) :
  Xseo_in.decode_chars (dict_of (findall2 Xseo_in.expCharNum page)) chars
  = Ok port ->
  all_chars is_digit port = true
  /\ String.length port = length (symbols chars).
Proof.
  unfold Xseo_in.decode_chars. fold (symbols chars).
  destruct (res_mapM _ (symbols chars)) as [digits | e] eqn:E; [| discriminate].
  simpl. intros [= <-]. apply res_mapM_inv in E.
  induction E as [| ch d l ds Hd _ [IH1 IH2]]; [split; reflexivity |].
  unfold getitem in Hd.
  destruct (dict_of _ !! String ch "") as [v |] eqn:Hv; [| discriminate].
  injection Hd as ->. apply dict_of_lookup in Hv.
  pose proof (Xseo_in_table_entries page) as Hall.
  rewrite Forall_forall in Hall.
  destruct (Hall _ Hv) as (c & x & [= _ ->] & _ & Hx).
  change (join (String x "" :: ds)) with (String x (join ds)).
  simpl. rewrite Hx, IH1, IH2. split; reflexivity.
Qed.

End XseoTable.

Section Addresses.
Import re.

Ltac peel H :=
  let st := fresh "st" in
  let Hc := fresh "Hc" in
  apply matched_seq_prefix in H as (st & Hc & H); [| reflexivity].

Lemma int_digits_value (s : string) :
  forall acc,
    all_chars is_digit s = true ->
    int_digits acc true s = Some (digits_value acc s).
Proof.
  induction s as [| c s IH]; intros acc Hs; simpl; [reflexivity |].
  simpl in Hs. apply andb_prop in Hs as [Hc Hs]. rewrite Hc. apply IH, Hs.
Qed.

Lemma int_token_value (t : string) :
  digits_token t -> within_limit t -> int t = Ok (digits_value 0 t).
Proof.
  intros Htok Hlim. rewrite (int_token t Htok).
  destruct Htok as [Hne Hall]. destruct t as [| c t]; [congruence |].
  simpl in Hall. apply andb_prop in Hall as [Hc Ht].
  assert (Hparse : int_digits 0 false (String c t)
                   = Some (digits_value 0 (String c t))).
  { simpl. rewrite Hc. apply int_digits_value, Ht. }
  rewrite Hparse.
  replace (max_str_digits <? Z.of_nat (String.length (String c t)))%Z
    with false by (symmetry; apply Z.ltb_ge, Hlim).
  reflexivity.
Qed.

(** The classes of [octet]. *)
Lemma upto5_value c :
  in_range "0" "5" c = true ->
  is_digit c = true /\ (0 <= Z.of_N (code c) - 48 <= 5)%Z.
Proof.
  destruct c as [[] [] [] [] [] [] [] []]; vm_compute; intros H;
    try discriminate H; repeat split; discriminate.
Qed.

Lemma upto4_value c :
  in_range "0" "4" c = true ->
  is_digit c = true /\ (0 <= Z.of_N (code c) - 48 <= 4)%Z.
Proof.
  destruct c as [[] [] [] [] [] [] [] []]; vm_compute; intros H;
    try discriminate H; repeat split; discriminate.
Qed.

Lemma zero_one_value c :
  one_of "01" c = true ->
  is_digit c = true /\ (0 <= Z.of_N (code c) - 48 <= 1)%Z.
Proof.
  destruct c as [[] [] [] [] [] [] [] []]; vm_compute; intros H;
    try discriminate H; repeat split; discriminate.
Qed.

Lemma matched_chr c st st' :
  matched (Chr c) st st' ->
  rest st = c :: rest st' /\ caps st' = caps st.
Proof.
  intros H. inversion H as [| p x s' s0 E Hp | | | | | | | | |]; subst.
  apply Ascii.eqb_eq in Hp. subst x. simpl. auto.
Qed.

Lemma matched_cls p st st' :
  matched (Cls p) st st' ->
  exists c, rest st = c :: rest st' /\ p c = true /\ caps st' = caps st.
Proof.
  intros H. inversion H as [| q x s' s0 E Hp | | | | | | | | |]; subst.
  exists x. simpl. auto.
Qed.

Lemma matched_opt_cls p st st' :
  matched (Opt (Cls p)) st st' ->
  rest st = rest st'
  \/ exists c, rest st = c :: rest st' /\ p c = true.
Proof.
  intros H. inversion H as [| | | r1 r2 s s1 H1 | r1 r2 s s1 H1 | | | | | |];
    subst.
  - apply matched_cls in H1 as (c & E & Hp & _). right. eauto.
  - inversion H1; subst. left. reflexivity.
Qed.

Lemma octet_word_intro (w : list ascii) :
  w <> [] -> Forall (fun c => is_digit c = true) w ->
  (length w <= 3)%nat ->
  (0 <= digits_value 0 (string_of_list_ascii w) <= 255)%Z ->
  octet_word w.
Proof.
  intros Hne Hall Hlen Hval.
  assert (Htok : digits_token (string_of_list_ascii w)).
  { split; [destruct w; [congruence | discriminate] |].
    apply all_chars_of_list, Hall. }
  assert (Hshort : (String.length (string_of_list_ascii w) <= 3)%nat).
  { clear -Hlen. revert Hlen. generalize 3%nat.
    induction w as [| c w IH]; intros n Hn; simpl in *; [lia |].
    destruct n; [lia |]. specialize (IH n). lia. }
  split; [exact Htok |]. split; [exact Hshort |].
  exists (digits_value 0 (string_of_list_ascii w)).
  split; [| exact Hval].
  apply int_token_value; [exact Htok |].
  unfold within_limit, max_str_digits. lia.
Qed.

Lemma matched_octet st st' :
  matched Patterns.octet st st' ->
  exists w, rest st = (w ++ rest st')%list /\ octet_word w.
Proof.
  intros H. unfold Patterns.octet in H.
  inversion H as [| | | r1 r2 s s1 H1 | r1 r2 s s1 H1 | | | | | |]; subst;
    clear H.
  - (* 25[0-5] *)
    inversion H1 as [| | r1 r2 s s1 s2 Ha Hb | | | | | | | |]; subst.
    unfold Lit in Ha. cbn [list_ascii_of_string Lit_list] in Ha.
    inversion Ha as [| | r1 r2 s s3 s4 Hx Hy | | | | | | | |]; subst.
    apply matched_chr in Hx as [E1 _]. apply matched_chr in Hy as [E2 _].
    apply matched_cls in Hb as (c & E3 & Hp & _).
    destruct (upto5_value c Hp) as [Hd Hv].
    exists ["2"%char; "5"%char; c]. split.
    + rewrite E1, E2, E3. reflexivity.
    + apply octet_word_intro; [discriminate | | simpl; lia |].
      * repeat constructor. exact Hd.
      * cbn [string_of_list_ascii digits_value].
        change (Z.of_N (code "2") - 48)%Z with 2%Z.
        change (Z.of_N (code "5") - 48)%Z with 5%Z. lia.
  - inversion H1 as [| | | r1 r2 s s1 H2 | r1 r2 s s1 H2 | | | | | |]; subst;
      clear H1.
    + (* 2[0-4]\d *)
      cbn [Seqs] in H2.
      inversion H2 as [| | r1 r2 s s1 s2 Hx Hyz | | | | | | | |]; subst.
      inversion Hyz as [| | r1 r2 s s3 s4 Hy Hz | | | | | | | |]; subst.
      apply matched_chr in Hx as [E1 _].
      apply matched_cls in Hy as (c2 & E2 & Hp2 & _).
      apply matched_cls in Hz as (c3 & E3 & Hp3 & _).
      destruct (upto4_value c2 Hp2) as [Hd2 Hv2].
      pose proof (digit_value c3 Hp3) as Hv3.
      exists ["2"%char; c2; c3]. split.
      * rewrite E1, E2, E3. reflexivity.
      * apply octet_word_intro; [discriminate | | simpl; lia |].
        -- repeat constructor; assumption.
        -- cbn [string_of_list_ascii digits_value].
           change (Z.of_N (code "2") - 48)%Z with 2%Z. lia.
    + (* [01]?\d\d? *)
      cbn [Seqs] in H2.
      inversion H2 as [| | r1 r2 s s1 s2 Hx Hyz | | | | | | | |]; subst.
      inversion Hyz as [| | r1 r2 s s3 s4 Hy Hz | | | | | | | |]; subst.
      apply matched_cls in Hy as (c2 & E2 & Hp2 & _).
      pose proof (digit_value c2 Hp2) as Hv2.
      apply matched_opt_cls in Hx as [E1 | (c1 & E1 & Hp1)];
        apply matched_opt_cls in Hz as [E3 | (c3 & E3 & Hp3)].
      * exists [c2]. split; [rewrite E1, E2, E3; reflexivity |].
        apply octet_word_intro; [discriminate | | simpl; lia |].
        -- repeat constructor; assumption.
        -- cbn [string_of_list_ascii digits_value]. lia.
      * pose proof (digit_value c3 Hp3) as Hv3.
        exists [c2; c3]. split; [rewrite E1, E2, E3; reflexivity |].
        apply octet_word_intro; [discriminate | | simpl; lia |].
        -- repeat constructor; assumption.
        -- cbn [string_of_list_ascii digits_value]. lia.
      * destruct (zero_one_value c1 Hp1) as [Hd1 Hv1].
        exists [c1; c2]. split; [rewrite E1, E2, E3; reflexivity |].
        apply octet_word_intro; [discriminate | | simpl; lia |].
        -- repeat constructor; assumption.
        -- cbn [string_of_list_ascii digits_value]. lia.
      * destruct (zero_one_value c1 Hp1) as [Hd1 Hv1].
        pose proof (digit_value c3 Hp3) as Hv3.
        exists [c1; c2; c3]. split; [rewrite E1, E2, E3; reflexivity |].
        apply octet_word_intro; [discriminate | | simpl; lia |].
        -- repeat constructor; assumption.
        -- cbn [string_of_list_ascii digits_value]. lia.
Qed.

Lemma string_of_list_ascii_app (a b : list ascii) :
  string_of_list_ascii (a ++ b)
  = string_of_list_ascii a ++ string_of_list_ascii b.
Proof.
  induction a as [| c a IH]; [reflexivity |].
  simpl. rewrite IH. reflexivity.
Qed.

Lemma length_string_of_list (w : list ascii) :
  String.length (string_of_list_ascii w) = length w.
Proof. induction w as [| c w IH]; simpl; [reflexivity | rewrite IH; reflexivity]. Qed.

Lemma matched_octet_dot st st' :
  matched (Seq Patterns.octet (Chr ".")) st st' ->
  exists w, rest st = (w ++ "."%char :: rest st')%list /\ octet_word w.
Proof.
  intros H. inversion H as [| | r1 r2 s s1 s2 Ho Hd | | | | | | | |]; subst.
  apply matched_octet in Ho as (w & E & Hw).
  apply matched_chr in Hd as [Ed _].
  exists w. rewrite E, Ed. auto.
Qed.

Lemma matched_ip st st' :
  matched Patterns.ip st st' ->
  exists w, rest st = (w ++ rest st')%list
            /\ dotted_quad (string_of_list_ascii w).
Proof.
  intros H. unfold Patterns.ip in H. cbn [Rep] in H.
  inversion H as [| | r1 r2 s s1 s2 H123 H4 | | | | | | | |]; subst.
  inversion H123 as [| | r1 r2 s s3 s4 H1 H23 | | | | | | | |]; subst.
  inversion H23 as [| | r1 r2 s s5 s6 H2 H3 | | | | | | | |]; subst.
  apply matched_octet_dot in H1 as (a & Ea & Ha).
  apply matched_octet_dot in H2 as (b & Eb & Hb).
  apply matched_octet_dot in H3 as (c & Ec & Hc).
  apply matched_octet in H4 as (d & Ed & Hd).
  exists (a ++ "."%char :: b ++ "."%char :: c ++ "."%char :: d)%list. split.
  - rewrite Ea, Eb, Ec, Ed.
    repeat (rewrite <- ?app_assoc; simpl). reflexivity.
  - exists (string_of_list_ascii a), (string_of_list_ascii b),
      (string_of_list_ascii c), (string_of_list_ascii d).
    split; [| auto].
    repeat (rewrite string_of_list_ascii_app; cbn [string_of_list_ascii]).
    reflexivity.
Qed.

Lemma matched_group i r st st' :
  matched (Group i r) st st' ->
  exists st1 w,
    matched r st st1 /\ rest st = (w ++ rest st1)%list
    /\ caps st' = (i, w) :: caps st1.
Proof.
  intros H. inversion H as [| | | | | | | j r' s s1 H1 | | |]; subst.
  destruct (matched_consumes _ _ _ H1) as [w Hw].
  exists s1, w. repeat split; auto. simpl. rewrite Hw.
  rewrite firstn_consumed. reflexivity.
Qed.

Lemma matched_upto_cls p n :
  forall st st',
    matched (UpTo n (Cls p)) st st' ->
    exists w, rest st = (w ++ rest st')%list
              /\ Forall (fun c => p c = true) w /\ (length w <= n)%nat.
Proof.
  induction n as [| n IH]; intros st st' H; simpl in H.
  - inversion H; subst. exists []. simpl. auto.
  - inversion H as [| | | r1 r2 s s1 H1 | r1 r2 s s1 H1 | | | | | |]; subst.
    + inversion H1 as [| | r1 r2 s s2 s3 Hc Hr | | | | | | | |]; subst.
      apply matched_cls in Hc as (c & E & Hp & _).
      apply IH in Hr as (w & Ew & Hall & Hlen).
      exists (c :: w). rewrite E, Ew. simpl. repeat split; auto. lia.
    + inversion H1; subst. exists []. simpl. repeat split; auto. lia.
Qed.

Lemma matched_port st st' :
  matched (Between 2 5 (Cls is_digit)) st st' ->
  exists w, rest st = (w ++ rest st')%list
            /\ Forall (fun c => is_digit c = true) w
            /\ (2 <= length w <= 5)%nat.
Proof.
  intros H. unfold Between in H. cbn [Rep Nat.sub] in H.
  inversion H as [| | r1 r2 s s1 s2 H12 Hup | | | | | | | |]; subst.
  inversion H12 as [| | r1 r2 s s3 s4 H1 H2 | | | | | | | |]; subst.
  apply matched_cls in H1 as (c1 & E1 & Hp1 & _).
  apply matched_cls in H2 as (c2 & E2 & Hp2 & _).
  apply (matched_upto_cls is_digit 3) in Hup as (w & Ew & Hall & Hlen).
  exists (c1 :: c2 :: w). rewrite E1, E2, Ew. simpl.
  repeat split; auto; lia.
Qed.

Lemma Nntime_pattern_captures before s0 st :
  exec Patterns.Nntime_pattern (MState before s0 []) Some = Some st ->
  exists host,
    dotted_quad (string_of_list_ascii host)
    /\ (caps st = [(1%nat, host)]
        \/ exists port, caps st = [(2%nat, port); (1%nat, host)]
                        /\ Forall (fun c => is_digit c = true) port
                        /\ (2 <= length port <= 5)%nat).
Proof.
  intros H. apply exec_matched in H as (st1 & Hm & [= ->]).
  unfold Patterns.Nntime_pattern in Hm. cbn [Seqs] in Hm.
  peel Hm.
  inversion Hm as [| | r1 r2 s s1 s2 Hg Hlook | | | | | | | |]; subst.
  apply matched_group in Hg as (sg & host & Hip & Ehost & Hcaps).
  pose proof Hip as Hip'.
  apply matched_ip in Hip as (w & Ew & Hquad).
  assert (host = w) as ->.
  { rewrite Ehost in Ew. apply app_inv_tail in Ew. exact Ew. }
  rewrite (matched_groupless _ _ _ Hip' eq_refl) in Hcaps.
  exists w. split; [exact Hquad |].
  inversion Hlook as [| | | | | | | | | r s sl Hin |]; subst. simpl.
  peel Hin.
  inversion Hin as [| | | r1 r2 s sa Ha | r1 r2 s sa Ha | | | | | |]; subst.
  - left. rewrite (matched_groupless _ _ _ Ha eq_refl).
    simpl in *. congruence.
  - right. apply matched_group in Ha as (sp & port & Hp & Eport & Hcp).
    pose proof (matched_groupless _ _ _ Hp eq_refl) as Hsame.
    apply matched_port in Hp as (wp & Ewp & Hall & Hlen).
    assert (port = wp) as ->.
    { rewrite Eport in Ewp. apply app_inv_tail in Ewp. exact Ewp. }
    exists wp. repeat split; auto; try lia. simpl in *. congruence.
Qed.

(** X22: whatever the page holds, every pair that the pattern of
    [Nntime_com] extracts has a host that is a dotted quad of four
    numbers from 0 to 255, each of one to three digits, and a port that
    is empty or made of two to five digits; this holds for every list that
    [Nntime_com.find_proxies] returns. *)
Theorem Nntime_com_pairs_wellformed (page : string)
  (st : gmap string string) (found : list (string * string)) :
  (forall hp, hp ∈ _find_proxies Patterns.Nntime_pattern page ->
              dotted_quad (fst hp) /\ port_text (snd hp))
  /\ (fst (Nntime_com.find_proxies page st) = Ok found ->
      forall hp, hp ∈ found -> dotted_quad (fst hp) /\ port_text (snd hp)).
Proof.
  assert (Hall : forall pg hp,
             hp ∈ _find_proxies Patterns.Nntime_pattern pg ->
             dotted_quad (fst hp) /\ port_text (snd hp)).
  { intros pg hp Hin. unfold _find_proxies, findall2 in Hin.
    apply list_elem_of_fmap in Hin as (m & -> & Hm).
    apply finditer_exec in Hm as (before & s0 & st0 & He & Hcap).
    destruct (Nntime_pattern_captures _ _ _ He)
      as (host & Hquad & [Hc | (port & Hc & Hdig & Hlen)]);
      unfold group; rewrite Hcap, Hc; simpl.
    - split; [exact Hquad | left; reflexivity].
    - split; [exact Hquad | right]. split.
      + apply all_chars_of_list, Hdig.
      + rewrite length_string_of_list. exact Hlen. }
  split; [apply Hall |].
  unfold Nntime_com.find_proxies. simpl.
  destruct (sub _ _ page) as [page' | e]; simpl; [| discriminate].
  intros [= <-]. apply Hall.
Qed.

End Addresses.

(** * The further properties at concrete inputs *)

Lemma get_without_tries_witness :
  get scripted "http://example.com/list" None None "GET" idle_world
  = (Raise (UnboundLocalError "page"), idle_world).
Proof. apply get_without_tries. simpl. lia. Defined.

Lemma late_error_attempts :
  attempts scripted 2 "http://example.com/list" None None "GET"
    late_error_world
  = [Ok ""; Raise (OtherError "ClientPayloadError")].
Proof. vm_compute. reflexivity. Qed.

Lemma get_uncaught_not_retried_witness :
  get scripted "http://example.com/list" None None "GET" late_error_world
  = (Raise (OtherError "ClientPayloadError"),
     after_attempts scripted 2 "http://example.com/list" None None "GET"
       late_error_world).
Proof.
  assert (Hlt : (1 < Z.to_nat (_max_tries (self late_error_world)))%nat)
    by (simpl; lia).
  apply (proj1 (get_uncaught_not_retried scripted "http://example.com/list"
                  None None "GET" late_error_world 1
                  (OtherError "ClientPayloadError") Hlt late_error_attempts)).
Defined.

Lemma _get_nonempty_iff_witness :
  fst (_get scripted "http://example.com/list" None None "GET" example_world)
  = Ok "1.2.3.4:8080 5.6.7.8:80".
Proof.
  assert (Hne : "1.2.3.4:8080 5.6.7.8:80" <> "") by discriminate.
  apply (proj2 (_get_nonempty_iff scripted "http://example.com/list" None None
                  "GET" example_world "1.2.3.4:8080 5.6.7.8:80" Hne)).
  eexists. repeat split.
Defined.

Lemma example_extraction :
  baseline_strategy "1.2.3.4:8080 5.6.7.8:80" tt
  = (Ok [("1.2.3.4", "8080"); ("5.6.7.8", "80")], tt).
Proof. vm_compute. reflexivity. Qed.

Lemma _find_on_page_merges_witness :
  fst (_find_on_page scripted baseline_strategy "http://example.com/list" None
         None "GET" example_world) = Ok tt.
Proof.
  edestruct (_find_on_page_merges scripted baseline_strategy
               "http://example.com/list" None None "GET" example_world)
    as (added & Hrun & _).
  - reflexivity.
  - discriminate.
  - exact example_extraction.
  - rewrite Hrun. reflexivity.
Defined.

Lemma _find_on_pages_mixed_list_witness :
  _find_on_pages scripted baseline_strategy
    [UStr "http://a/"; UDict "http://b/" None None None] example_world
  = (Raise (TypeError "unhashable type: 'dict'"), example_world).
Proof. apply _find_on_pages_mixed_list; reflexivity. Defined.

Lemma _find_on_pages_duplicates_witness :
  _find_on_pages scripted baseline_strategy
    [UStr "http://a/"; UStr "http://a/"] example_world
  = _find_on_pages scripted baseline_strategy [UStr "http://a/"] example_world.
Proof.
  apply (proj1 (_find_on_pages_duplicates scripted baseline_strategy
                  "http://a/" (UStr "http://a/") [UStr "http://a/"]
                  example_world)).
  - repeat constructor.
  - left.
Defined.

Lemma run_only_adds_witness :
  proxies (self example_world) ⊆ proxies (self example_after).
Proof.
  apply (run_only_adds scripted baseline_strategy
           (_pipe scripted baseline_strategy) example_world
           (pipe_Provider _ _)).
Defined.

Lemma three_pages_numbers :
  ints_found Proxylist_me.exp three_pages = Ok [3%Z; 2%Z].
Proof. vm_compute. reflexivity. Qed.

Lemma Proxylist_me_page_range_witness :
  exists urls,
    Proxylist_me.page_urls three_pages = Ok urls
    /\ length urls = Z.to_nat 3
    /\ (forall n, UStr ("https://proxylist.me/?page=" ++ str n) ∈ urls
                  <-> (0 <= n < 3)%Z).
Proof.
  apply (Proxylist_me_page_range three_pages [3%Z; 2%Z] 3 three_pages_numbers
           eq_refl).
Defined.

Lemma tier_page_numbers :
  ints_found Gatherproxy_com.expNumPages (tier_page "2") = Ok [2%Z].
Proof. vm_compute. reflexivity. Qed.

Lemma Gatherproxy_com_single_tier_witness :
  fst (Gatherproxy_com.discover scripted first_tier_world)
  = Ok (Gatherproxy_com.tier_urls "anonymous" 2).
Proof.
  assert (Hne : tier_page "2" <> "") by discriminate.
  pose (w1 := snd (get scripted Gatherproxy_com.url
                     (Some (Gatherproxy_com.form "anonymous" 1)) None "POST"
                     first_tier_world)).
  pose (w2 := snd (get scripted Gatherproxy_com.url
                     (Some (Gatherproxy_com.form "elite" 1)) None "POST" w1)).
  rewrite (proj1 (Gatherproxy_com_single_tier scripted first_tier_world w1 w2
                    (tier_page "2") [2%Z] 2 Hne tier_page_numbers eq_refl)
             eq_refl eq_refl).
  reflexivity.
Defined.

Lemma nolinks_no_match :
  re.findall1 Webanetlabs_net.exp "<html>no links</html>" = []
  /\ re.findall1 Proxy_list_org.exp "<html>no links</html>" = []
  /\ re.findall1 Proxylist_me.exp "<html>no links</html>" = []
  /\ re.finditer Xseo_in.expPortOnJS nntime_page = [].
Proof. repeat split; vm_compute; reflexivity. Qed.

Lemma linkless_index_is_harmless_witness :
  fst (Webanetlabs_net._pipe scripted baseline_strategy nolinks_world) = Ok tt.
Proof.
  pose (w1 := snd (get scripted "https://webanetlabs.net/publ/24" None None
                     "GET" nolinks_world)).
  rewrite (proj1 (linkless_index_is_harmless scripted baseline_strategy
                    nolinks_world w1 "<html>no links</html>")
             eq_refl (proj1 nolinks_no_match)).
  reflexivity.
Defined.

Lemma index_page_is_listed_witness :
  Proxy_list_org._pipe scripted baseline_strategy nolinks_world
  = bind (_find_on_page scripted baseline_strategy Proxy_list_org.url None
            None "GET") (fun _ => ret tt)
      (snd (get scripted Proxy_list_org.url None None "GET" nolinks_world)).
Proof.
  assert (Hne : "<html>no links</html>" <> "") by discriminate.
  apply (proj1 (proj2 (index_page_is_listed scripted baseline_strategy
                         nolinks_world _ "<html>no links</html>"))
           Hne eq_refl (proj1 (proj2 nolinks_no_match))).
Defined.

Lemma Proxynova_com_skips_en_witness :
  UStr (Proxynova_com.tpl "en") ∉ Proxynova_com.page_urls "<html>no links</html>".
Proof. apply Proxynova_com_skips_en. Defined.

Lemma Xseo_in_decode_chars_spec_witness :
  Xseo_in.decode_chars {[ "a" := "7"; "b" := "2" ]} "a+b"
  = Ok (join ["7"; "2"]).
Proof.
  apply (proj1 (Xseo_in_decode_chars_spec {[ "a" := "7"; "b" := "2" ]} "a+b")).
  repeat constructor.
Defined.

Lemma Xseo_in_plain_page_witness :
  Xseo_in.find_proxies Patterns.IPPortPatternGlobal nntime_page ∅
  = (Ok (_find_proxies Patterns.IPPortPatternGlobal nntime_page),
     dict_of (re.findall2 Xseo_in.expCharNum nntime_page)).
Proof.
  apply Xseo_in_plain_page. exact (proj2 (proj2 (proj2 nolinks_no_match))).
Defined.

Lemma Spys_ru_table_persists_witness :
  is_Some (snd (Spys_ru.find_proxies Patterns.IPPortPatternGlobal spys_page
                  {[ "zzzz" := 1%Z ]}) !! "zzzz").
Proof.
  apply (proj1 (Spys_ru_table_persists Patterns.IPPortPatternGlobal spys_page
                  {[ "zzzz" := 1%Z ]} "zzzz")).
  exists 1%Z. reflexivity.
Defined.

Lemma Spys_ru_bad_group_witness :
  Spys_ru.decode_code {[ "abcd" := 5%Z ]}
    (code_of [] ++ String "+" (("(" ++ "abcd" ++ ")") ++ ""))
  = Raise (ValueError "not enough values to unpack (expected 2)").
Proof.
  assert (Hnone : Forall2 (digit_of {[ "abcd" := 5%Z ]}) [] [])
    by constructor.
  apply (proj1 (Spys_ru_bad_group {[ "abcd" := 5%Z ]} [] [] ""
                  Hnone (or_introl eq_refl))).
  reflexivity.
Defined.

Lemma task_request_bound_witness :
  (acquires 0 gate_schedule + tries_left_at gate_state 0 <= 3)%nat.
Proof.
  apply (task_request_bound 2 3 3 gate_schedule gate_state 0 eq_refl).
Defined.

Lemma three_pages_within_limit :
  Forall within_limit (re.findall1 Proxylist_me.exp three_pages).
Proof.
  assert (E : re.findall1 Proxylist_me.exp three_pages = ["3"; "2"])
    by (vm_compute; reflexivity).
  rewrite E. repeat constructor; vm_compute; discriminate.
Qed.

Lemma page_numbers_parse_within_limit_witness :
  (exists ns, ints_found Proxylist_me.exp three_pages = Ok ns
              /\ length ns = length (re.findall1 Proxylist_me.exp three_pages)
              /\ Forall (fun n => (0 <= n)%Z) ns)
  /\ (forall e, Proxylist_me.page_urls "<html>no links</html>" = Raise e ->
                re.findall1 Proxylist_me.exp "<html>no links</html>" = []
                /\ e = ValueError "max() arg is an empty sequence").
Proof.
  split.
  - apply (proj1 (proj2 (proj2 (page_numbers_parse_within_limit three_pages)))
             three_pages_within_limit).
  - apply (proj1 (proj2 (proj2 (proj2 (proj2
             (page_numbers_parse_within_limit "<html>no links</html>")))))).
    assert (E : re.findall1 Proxylist_me.exp "<html>no links</html>" = [])
      by (vm_compute; reflexivity).
    rewrite E. constructor.
Defined.

Lemma xseo_page_decodes :
  Xseo_in.decode_chars (dict_of (re.findall2 Xseo_in.expCharNum xseo_page))
    "a+b+c" = Ok "729".
Proof. vm_compute. reflexivity. Qed.

Lemma Xseo_in_ports_are_digits_witness :
  all_chars is_digit "729" = true
  /\ String.length "729" = length (symbols "a+b+c").
Proof.
  apply (Xseo_in_ports_are_digits xseo_page "a+b+c" "729" xseo_page_decodes).
Defined.

Lemma nntime_page_pair :
  ("1.2.3.4", "8080") ∈ _find_proxies Patterns.Nntime_pattern nntime_page.
Proof.
  replace (_find_proxies Patterns.Nntime_pattern nntime_page)
    with [("1.2.3.4", "8080")] by (vm_compute; reflexivity).
  left.
Qed.

Lemma Nntime_com_pairs_wellformed_witness :
  dotted_quad (fst ("1.2.3.4", "8080")) /\ port_text (snd ("1.2.3.4", "8080")).
Proof.
  apply (proj1 (Nntime_com_pairs_wellformed nntime_page ∅ [])
           ("1.2.3.4", "8080") nntime_page_pair).
Defined.
